(** * SentetikVeriTool: a shallow embedding of the conversation generators

    The development follows the Python sources

      - [config/config.py]                  (constants, scenario distribution)
      - [generators/text_only_generator.py] (text-only pipeline)
      - [generators/main_generator.py]      (pipeline with audio synthesis)

    Python [str] values are lists of Unicode code points, exceptions are
    an explicit result type, and whatever the program obtains from its
    environment (random numbers, the language model, the TTS services, the
    file system) is read from an abstract world that is threaded through
    the effectful functions. *)

From Stdlib Require Import ZArith NArith List String Ascii Floats QArith Qround
  Lia Lqa Bool DecimalString.
From stdpp Require Import base option list gmap.
Import ListNotations.

Close Scope Q_scope.
Set Warnings "-inexact-float,-register-all".

(* ===================================================================== *)
(** ** Python strings *)
(* ===================================================================== *)

(** A Python [str] is a sequence of code points; [len] counts code points. *)
Abbreviation pystr := (list N).

Module PyStr.

(** Source literals are written as UTF-8 byte strings and decoded. *)
Definition cont (b : N) : N := N.land b 63.

Fixpoint utf8_decode (bs : list N) : pystr :=
  match bs with
  | [] => []
  | b0 :: r0 =>
    if (b0 <? 128)%N then b0 :: utf8_decode r0
    else if (b0 <? 224)%N then
      match r0 with
      | b1 :: r1 =>
        (N.shiftl (N.land b0 31) 6 + cont b1)%N :: utf8_decode r1
      | [] => [65533%N]
      end
    else if (b0 <? 240)%N then
      match r0 with
      | b1 :: b2 :: r2 =>
        (N.shiftl (N.land b0 15) 12 + N.shiftl (cont b1) 6 + cont b2)%N
          :: utf8_decode r2
      | _ => [65533%N]
      end
    else
      match r0 with
      | b1 :: b2 :: b3 :: r3 =>
        (N.shiftl (N.land b0 7) 18 + N.shiftl (cont b1) 12
         + N.shiftl (cont b2) 6 + cont b3)%N :: utf8_decode r3
      | _ => [65533%N]
      end
  end.

Fixpoint bytes_of (s : string) : list N :=
  match s with
  | EmptyString => []
  | String a r => N_of_ascii a :: bytes_of r
  end.

(** [py "Ayşe"] is the four code points of the literal. *)
Definition py (s : string) : pystr := utf8_decode (bytes_of s).

(** Literals that contain double quotes are written with apostrophes. *)
Definition pyq (s : string) : pystr :=
  map (fun c => if (c =? 39)%N then 34%N else c) (py s).

(** [s.startswith(p)] *)
Fixpoint startswith (s p : pystr) : bool :=
  match p, s with
  | [], _ => true
  | _ :: _, [] => false
  | c :: p', d :: s' => (c =? d)%N && startswith s' p'
  end.

(** [s.endswith(p)] *)
Definition endswith (s p : pystr) : bool := startswith (rev s) (rev p).

(** [p in s] for strings: substring search. *)
Fixpoint contains (s p : pystr) : bool :=
  startswith s p ||
  match s with
  | [] => false
  | _ :: s' => contains s' p
  end.

(** [str.isspace] on one code point; also the class [\s] of [re]. *)
Definition isspace (c : N) : bool :=
  ((9 <=? c) && (c <=? 13) || (28 <=? c) && (c <=? 32)
   || (c =? 133) || (c =? 160) || (c =? 5760)
   || (8192 <=? c) && (c <=? 8202) || (c =? 8232) || (c =? 8233)
   || (c =? 8239) || (c =? 8287) || (c =? 12288))%N.

Fixpoint lstrip (s : pystr) : pystr :=
  match s with
  | c :: s' => if isspace c then lstrip s' else s
  | [] => []
  end.

(** [s.strip()] *)
Definition strip (s : pystr) : pystr := rev (lstrip (rev (lstrip s))).

End PyStr.
Import PyStr.

(* ===================================================================== *)
(** ** Exceptions *)
(* ===================================================================== *)

Inductive pyexn :=
| KeyError
| IndexError
| AttributeError
| TypeError
| OtherError (msg : pystr).

(** The outcome of a Python call: a returned value or a raised exception. *)
Inductive pyresult (A : Type) :=
| Returned (a : A)
| Raised (e : pyexn).
Arguments Returned {A} a.
Arguments Raised {A} e.

#[export] Instance pyresult_ret : MRet pyresult := fun _ a => Returned a.
#[export] Instance pyresult_bind : MBind pyresult := fun _ _ f m =>
  match m with
  | Returned a => f a
  | Raised e => Raised e
  end.

(** [l[-k]] for [k >= 1]. *)
Definition neg_index {A} (l : list A) (k : nat) : pyresult A :=
  match rev l !! (k - 1)%nat with
  | Some x => Returned x
  | None => Raised IndexError
  end.

(** [d[key]] where the key may be absent. *)
Definition subscript {A} (field : option A) : pyresult A :=
  match field with
  | Some x => Returned x
  | None => Raised KeyError
  end.

(* ===================================================================== *)
(** ** JSON values, as produced by [json.loads] *)
(* ===================================================================== *)

Inductive json :=
| JNull
| JBool (b : bool)
| JInt (z : Z)
| JFloat (lexeme : pystr)
| JStr (s : pystr)
| JArr (items : list json)
| JObj (members : list (pystr * json)).

(** [v == 'literal'] for a value taken from model output. *)
Definition is_str (v : json) (s : pystr) : bool :=
  match v with
  | JStr t => bool_decide (t = s)
  | _ => false
  end.

(** [d.get(key, default)] on a decoded object. *)
Fixpoint dict_get (members : list (pystr * json)) (key : pystr) : option json :=
  match members with
  | [] => None
  | (k, v) :: rest => if bool_decide (k = key) then Some v else dict_get rest key
  end.

(** [d[key] = v] on a decoded object: overwrite in place or append. *)
Fixpoint dict_set (members : list (pystr * json)) (key : pystr) (v : json)
  : list (pystr * json) :=
  match members with
  | [] => [(key, v)]
  | (k, x) :: rest =>
    if bool_decide (k = key) then (k, v) :: rest
    else (k, x) :: dict_set rest key v
  end.

(* ===================================================================== *)
(** ** Configuration ([config/config.py]) *)
(* ===================================================================== *)

(** The scenario weights and the temperatures are exact fractions. *)
Record Config := mkConfig {
  NUM_CONVERSATIONS : nat;
  TURNS_PER_DIALOG_MIN : Z;
  TURNS_PER_DIALOG_MAX : Z;
  MIN_TRANSCRIPT_LENGTH : nat;
  MAX_TRANSCRIPT_LENGTH : nat;
  MAX_RETRIES_PER_CONVERSATION : nat;
  SCENARIO_WEIGHTS : list (pystr * Q);
  TEMPERATURE_AGENT : Q;
  TEMPERATURE_USER : Q;
}.

(** The values of the repository. *)
Definition repo_config : Config :=
  {| NUM_CONVERSATIONS := 10;
     TURNS_PER_DIALOG_MIN := 6;
     TURNS_PER_DIALOG_MAX := 16;
     MIN_TRANSCRIPT_LENGTH := 20;
     MAX_TRANSCRIPT_LENGTH := 200;
     MAX_RETRIES_PER_CONVERSATION := 3;
     SCENARIO_WEIGHTS :=
       [ (py "billing_dispute", 25 # 100);
         (py "technical_support", 30 # 100);
         (py "package_change", 20 # 100);
         (py "roaming_inquiry", 15 # 100);
         (py "account_management", 10 # 100) ]%Q;
     TEMPERATURE_AGENT := 7 # 10;
     TEMPERATURE_USER := 9 # 10 |}.

(* ===================================================================== *)
(** ** Turns *)
(* ===================================================================== *)

(** One row of a conversation history, a dictionary.  A key that may be
    absent is an option: the validators accept any list of dictionaries,
    the text-only generator writes no audio keys, and the generator with
    audio writes no [agent_name], [scenario] or [turn_number]. *)
Record Turn := mkTurn {
  conversation_id : Z;
  audio_filepath : option pystr;
  transcript : option pystr;
  speaker_id : pystr;
  role : option pystr;
  intent : option json;
  slot : json;
  audio_duration : option float;
  sample_rate : option Z;
  channels : option Z;
  file_size : option Z;
  agent_name_of : option pystr;
  scenario_of : option pystr;
  turn_number_of : option nat;
}.

Definition agent : pystr := Eval vm_compute in py "agent".
Definition user : pystr := Eval vm_compute in py "user".
Definition closing : pystr := Eval vm_compute in py "closing".
Definition thanks : pystr := Eval vm_compute in py "thanks".
Definition confirmation : pystr := Eval vm_compute in py "confirmation".
Definition greeting : pystr := Eval vm_compute in py "greeting".
Definition complaint : pystr := Eval vm_compute in py "complaint".
Definition info_request : pystr := Eval vm_compute in py "info_request".
Definition info_provide : pystr := Eval vm_compute in py "info_provide".

(** ["agent" if (i + 1) % 2 != 0 else "user"] *)
Definition expected_role (i : nat) : pystr :=
  if negb (((i + 1) mod 2) =? 0)%nat then agent else user.

(* ===================================================================== *)
(** ** Conversation validators *)
(* ===================================================================== *)

(** What a validator call reports: [Pass] stands for [return True], every
    other verdict for one of the [FAIL] messages followed by
    [return False]. *)
Inductive verdict :=
| Pass
| FailTurnCount (n : nat)
| FailRole (turn_no : nat) (found : pystr)
| FailAudioMissing (turn_no : nat) (path : pystr)
| FailAudioDuration (turn_no : nat)
| FailTranscriptLen (turn_no : nat) (len : nat)
| FailClosing
| FailThanks.

Definition accepted (v : verdict) : bool :=
  match v with Pass => true | _ => false end.

(** [TURNS_PER_DIALOG_MIN <= len(history) <= TURNS_PER_DIALOG_MAX] *)
Definition turn_count_ok (cfg : Config) (n : nat) : bool :=
  ((TURNS_PER_DIALOG_MIN cfg <=? Z.of_nat n)
   && (Z.of_nat n <=? TURNS_PER_DIALOG_MAX cfg))%Z.

(** [len(turn.get('transcript', ''))] *)
Definition transcript_len (turn : Turn) : nat :=
  length (default [] (transcript turn)).

(** The checks on the last two turns, shared by both validators. *)
Definition check_ending (history : list Turn) : pyresult verdict :=
  t2 ← neg_index history 2;
  r2 ← subscript (role t2);
  if negb (bool_decide (r2 = agent)) then Returned FailClosing else
  i2 ← subscript (intent t2);
  if negb (is_str i2 closing) then Returned FailClosing else
  t1 ← neg_index history 1;
  r1 ← subscript (role t1);
  if negb (bool_decide (r1 = user)) then Returned FailThanks else
  i1 ← subscript (intent t1);
  if negb (is_str i1 thanks || is_str i1 confirmation) then Returned FailThanks
  else Returned Pass.

(** *** [validate_text_conversation] *)

(** [for i, turn in enumerate(history)]: the first failing check returns,
    and [rest_of_body] is what follows the loop. *)
Fixpoint text_turn_loop (i : nat) (turns : list Turn)
  (rest_of_body : pyresult verdict) : pyresult verdict :=
  match turns with
  | [] => rest_of_body
  | turn :: rest =>
    r ← subscript (role turn);
    if negb (bool_decide (r = expected_role i))
    then Returned (FailRole (i + 1) r)
    else
      let n := transcript_len turn in
      if ((n <? 15) || (300 <? n))%nat
      then Returned (FailTranscriptLen (i + 1) n)
      else text_turn_loop (S i) rest rest_of_body
  end.

(** [conv_id] and [scenario_name] only appear in the printed messages. *)
Definition validate_text_conversation (cfg : Config) (history : list Turn)
  : pyresult verdict :=
  if negb (turn_count_ok cfg (length history))
  then Returned (FailTurnCount (length history))
  else text_turn_loop 0 history (check_ending history).

(** *** [validate_conversation_with_audio] *)

(** [exists_] answers [pathlib.Path(p).exists()] for the current state of
    the file system. *)
Fixpoint audio_turn_loop (exists_ : pystr -> bool) (i : nat) (turns : list Turn)
  (rest_of_body : pyresult verdict) : pyresult verdict :=
  match turns with
  | [] => rest_of_body
  | turn :: rest =>
    r ← subscript (role turn);
    if negb (bool_decide (r = expected_role i))
    then Returned (FailRole (i + 1) r)
    else
      let audio_path := default [] (audio_filepath turn) in
      if negb (exists_ audio_path)
      then Returned (FailAudioMissing (i + 1) audio_path)
      else
        match audio_duration turn with
        | None => Returned (FailAudioDuration (i + 1))
        | Some d =>
          if PrimFloat.leb d 0%float
          then Returned (FailAudioDuration (i + 1))
          else
            let n := transcript_len turn in
            if ((n <? 20) || (200 <? n))%nat
            then Returned (FailTranscriptLen (i + 1) n)
            else audio_turn_loop exists_ (S i) rest rest_of_body
        end
  end.

Definition validate_conversation_with_audio (cfg : Config)
  (exists_ : pystr -> bool) (history : list Turn) : pyresult verdict :=
  if negb (turn_count_ok cfg (length history))
  then Returned (FailTurnCount (length history))
  else audio_turn_loop exists_ 0 history (check_ending history).

(* ===================================================================== *)
(** ** Structure of accepted conversations *)
(* ===================================================================== *)

(** Roles alternate, the first turn being the agent's. *)
Definition alternates (history : list Turn) : Prop :=
  forall i turn, history !! i = Some turn ->
    role turn = Some (if Nat.even i then agent else user).

(** The last two turns: an agent closing, then the user's thanks or
    confirmation. *)
Definition proper_ending (history : list Turn) : Prop :=
  exists front t2 t1,
    history = front ++ [t2; t1]
    /\ role t2 = Some agent /\ intent t2 = Some (JStr closing)
    /\ role t1 = Some user
    /\ (intent t1 = Some (JStr thanks) \/ intent t1 = Some (JStr confirmation)).

Record well_formed (cfg : Config) (history : list Turn) : Prop := {
  wf_alternates : alternates history;
  wf_even : Nat.even (length history) = true;
  wf_min : (TURNS_PER_DIALOG_MIN cfg <= Z.of_nat (length history))%Z;
  wf_max : (Z.of_nat (length history) <= TURNS_PER_DIALOG_MAX cfg)%Z;
  wf_ending : proper_ending history;
}.


(* ===================================================================== *)
(** ** Regular expressions ([re.search] with [re.DOTALL]) *)
(* ===================================================================== *)

(** The fragment of [re] syntax the generators use.  Matching is the
    backtracking search of [re]: alternatives are tried in priority order,
    a greedy star longest first, a lazy star shortest first. *)
Inductive charclass :=
| AnyChar    (* [.] under DOTALL *)
| SpaceChar. (* [\s] *)

Inductive regex :=
| Empty
| Chr (c : N)
| Cat (r1 r2 : regex)
| Star (greedy : bool) (cls : charclass)
| Group (r : regex).

Definition in_class (cls : charclass) (c : N) : bool :=
  match cls with
  | AnyChar => true
  | SpaceChar => isspace c
  end.

(** A literal string as a pattern. *)
Fixpoint Lit (lit : pystr) : regex :=
  match lit with
  | [] => Empty
  | c :: rest => Cat (Chr c) (Lit rest)
  end.

Section Matcher.
Context {R : Type}.

(** [cls*]: consume as much as possible, give characters back one by one. *)
Fixpoint star_greedy (cls : charclass) (s : pystr) (k : pystr -> option R)
  : option R :=
  match s with
  | c :: tl =>
    if in_class cls c then
      match star_greedy cls tl k with
      | Some r => Some r
      | None => k s
      end
    else k s
  | [] => k []
  end.

(** [cls*?]: try the continuation first, then consume one more character. *)
Fixpoint star_lazy (cls : charclass) (s : pystr) (k : pystr -> option R)
  : option R :=
  match k s with
  | Some r => Some r
  | None =>
    match s with
    | c :: tl => if in_class cls c then star_lazy cls tl k else None
    | [] => None
    end
  end.

(** [rmatch r s g k]: match [r] at the head of [s]; [g] is the text of
    group 1 so far; [k] continues with the remaining input. *)
Fixpoint rmatch (r : regex) (s : pystr) (g : option pystr)
  (k : pystr -> option pystr -> option R) : option R :=
  match r with
  | Empty => k s g
  | Chr c =>
    match s with
    | d :: tl => if (c =? d)%N then k tl g else None
    | [] => None
    end
  | Cat a b => rmatch a s g (fun s' g' => rmatch b s' g' k)
  | Star greedy cls =>
    (if greedy then star_greedy else star_lazy) cls s (fun s' => k s' g)
  | Group a =>
    rmatch a s g (fun s' _ => k s' (Some (take (length s - length s') s)))
  end.

End Matcher.

(** A match object: [group(0)] and, when the pattern has a group, [group(1)]. *)
Record Match := mkMatch {
  group0 : pystr;
  group1 : option pystr;
}.

Definition match_here (r : regex) (s : pystr) : option Match :=
  rmatch r s None
    (fun s' g => Some (mkMatch (take (length s - length s') s) g)).

(** [re.search(r, s)]: the match at the leftmost position that has one. *)
Fixpoint search (r : regex) (s : pystr) : option Match :=
  match match_here r s with
  | Some m => Some m
  | None =>
    match s with
    | _ :: tl => search r tl
    | [] => None
    end
  end.

(** [match.group(1)] raises [IndexError] for a pattern without groups. *)
Definition group_1 (m : Match) : pyresult pystr :=
  match group1 m with
  | Some g => Returned g
  | None => Raised IndexError
  end.

Definition open_brace : N := 123.
Definition close_brace : N := 125.
Definition fence : pystr := Eval vm_compute in py "```".
Definition fence_json : pystr := Eval vm_compute in py "```json".

(** [r'```json\s*(\{.*?\})\s*```'] *)
Definition re_fenced : regex :=
  Cat (Lit fence_json)
  (Cat (Star true SpaceChar)
  (Cat (Group (Cat (Chr open_brace)
              (Cat (Star false AnyChar) (Chr close_brace))))
  (Cat (Star true SpaceChar) (Lit fence)))).

(** [r'\{.*\}'] *)
Definition re_braces : regex :=
  Cat (Chr open_brace) (Cat (Star true AnyChar) (Chr close_brace)).

(* ===================================================================== *)
(** ** The JSON decoder ([json.loads]) *)
(* ===================================================================== *)

(** The decoder of the Python standard library, in its default (strict)
    configuration.  A scanner takes the remaining input and returns the
    decoded value with what is left; [None] stands for [JSONDecodeError].
    Numbers with a fraction or an exponent keep their lexeme. *)
Module Json.

Definition is_ws (c : N) : bool :=
  ((c =? 32) || (c =? 9) || (c =? 10) || (c =? 13))%N.

Fixpoint skip_ws (s : pystr) : pystr :=
  match s with
  | c :: tl => if is_ws c then skip_ws tl else s
  | [] => []
  end.

Definition is_digit (c : N) : bool := ((48 <=? c) && (c <=? 57))%N.

Definition hex_digit (c : N) : option N :=
  if is_digit c then Some (c - 48)%N
  else if ((97 <=? c) && (c <=? 102))%N then Some (c - 87)%N
  else if ((65 <=? c) && (c <=? 70))%N then Some (c - 55)%N
  else None.

Definition hex4 (a b c d : N) : option N :=
  match hex_digit a, hex_digit b, hex_digit c, hex_digit d with
  | Some x, Some y, Some z, Some w => Some (((x * 16 + y) * 16 + z) * 16 + w)%N
  | _, _, _, _ => None
  end.

Definition is_high_surrogate (u : N) : bool := ((55296 <=? u) && (u <=? 56319))%N.
Definition is_low_surrogate (u : N) : bool := ((56320 <=? u) && (u <=? 57343))%N.
Definition join_surrogates (hi lo : N) : N :=
  (65536 + (hi - 55296) * 1024 + (lo - 56320))%N.

(** The one-letter escapes. *)
Definition simple_escape (c : N) : option N :=
  if (c =? 34)%N then Some 34%N        (* quote *)
  else if (c =? 92)%N then Some 92%N   (* backslash *)
  else if (c =? 47)%N then Some 47%N   (* slash *)
  else if (c =? 98)%N then Some 8%N    (* b: backspace *)
  else if (c =? 102)%N then Some 12%N  (* f: form feed *)
  else if (c =? 110)%N then Some 10%N  (* n: line feed *)
  else if (c =? 114)%N then Some 13%N  (* r: carriage return *)
  else if (c =? 116)%N then Some 9%N   (* t: tab *)
  else None.

(** [scanstring]: the input starts after the opening quote; [acc] holds the
    decoded characters in reverse. *)
Fixpoint scanstring (s : pystr) (acc : pystr) : option (pystr * pystr) :=
  match s with
  | [] => None
  | c :: r =>
    if (c =? 34)%N then Some (rev acc, r)
    else if (c =? 92)%N then
      match r with
      | [] => None
      | e :: r' =>
        if (e =? 117)%N then
          match r' with
          | h1 :: h2 :: h3 :: h4 :: r4 =>
            match hex4 h1 h2 h3 h4 with
            | None => None
            | Some uni =>
              match r4 with
              | 92%N :: 117%N :: g1 :: g2 :: g3 :: g4 :: r8 =>
                if is_high_surrogate uni then
                  match hex4 g1 g2 g3 g4 with
                  | None => None
                  | Some uni2 =>
                    if is_low_surrogate uni2
                    then scanstring r8 (join_surrogates uni uni2 :: acc)
                    else scanstring r4 (uni :: acc)
                  end
                else scanstring r4 (uni :: acc)
              | _ => scanstring r4 (uni :: acc)
              end
            end
          | _ => None
          end
        else
          match simple_escape e with
          | Some d => scanstring r' (d :: acc)
          | None => None
          end
      end
    else if (c <=? 31)%N then None
    else scanstring r (c :: acc)
  end.

(** A maximal run of decimal digits. *)
Fixpoint span_digits (s : pystr) : pystr * pystr :=
  match s with
  | c :: tl =>
    if is_digit c then let '(ds, rest) := span_digits tl in (c :: ds, rest)
    else ([], s)
  | [] => ([], [])
  end.

Definition digits_value (ds : pystr) : Z :=
  fold_left (fun acc c => (acc * 10 + Z.of_N (c - 48))%Z) ds 0%Z.

(** The integer part: [0] or a digit [1-9] followed by digits. *)
Definition int_part (s : pystr) : option (pystr * pystr) :=
  match s with
  | c :: tl =>
    if (c =? 48)%N then Some ([c], tl)
    else if is_digit c then let '(ds, rest) := span_digits tl in Some (c :: ds, rest)
    else None
  | [] => None
  end.

(** [.digits], when at least one digit follows the point. *)
Definition frac_part (s : pystr) : pystr * pystr :=
  match s with
  | 46%N :: tl =>
    match span_digits tl with
    | ([], _) => ([], s)
    | (ds, rest) => (46%N :: ds, rest)
    end
  | _ => ([], s)
  end.

(** [[eE][-+]?digits], when at least one digit follows. *)
Definition exp_part (s : pystr) : pystr * pystr :=
  match s with
  | e :: tl =>
    if ((e =? 101) || (e =? 69))%N then
      let '(sign, tl') :=
        match tl with
        | c :: tl' => if ((c =? 45) || (c =? 43))%N then ([c], tl') else ([], tl)
        | [] => ([], tl)
        end in
      match span_digits tl' with
      | ([], _) => ([], s)
      | (ds, rest) => (e :: sign ++ ds, rest)
      end
    else ([], s)
  | [] => ([], s)
  end.

Definition match_number (s : pystr) : option (json * pystr) :=
  let '(neg, s1) :=
    match s with
    | 45%N :: tl => (true, tl)
    | _ => (false, s)
    end in
  match int_part s1 with
  | None => None
  | Some (ds, s2) =>
    let '(frac, s3) := frac_part s2 in
    let '(ex, s4) := exp_part s3 in
    match frac, ex with
    | [], [] =>
      Some (JInt (if neg then - digits_value ds else digits_value ds)%Z, s4)
    | _, _ =>
      Some (JFloat ((if neg then [45%N] else []) ++ ds ++ frac ++ ex), s4)
    end
  end.

(** A keyword at the head of the input. *)
Definition keyword (word : pystr) (v : json) (s : pystr) : option (json * pystr) :=
  if startswith s word then Some (v, drop (length word) s) else None.

Definition kw_null : pystr := Eval vm_compute in py "null".
Definition kw_true : pystr := Eval vm_compute in py "true".
Definition kw_false : pystr := Eval vm_compute in py "false".
Definition kw_nan : pystr := Eval vm_compute in py "NaN".
Definition kw_inf : pystr := Eval vm_compute in py "Infinity".
Definition kw_neg_inf : pystr := Eval vm_compute in py "-Infinity".

Section Containers.
Variable scan : pystr -> option (json * pystr).

(** The members of an object; the input starts at the first key.  A key
    that occurs twice keeps its first position and its last value. *)
Fixpoint object_loop (n : nat) (s : pystr) (acc : list (pystr * json))
  : option (json * pystr) :=
  match n with
  | O => None
  | S n' =>
    match s with
    | 34%N :: s1 =>
      match scanstring s1 [] with
      | None => None
      | Some (key, s2) =>
        match skip_ws s2 with
        | 58%N :: s3 =>
          match scan (skip_ws s3) with
          | None => None
          | Some (v, s4) =>
            let acc' := dict_set acc key v in
            match skip_ws s4 with
            | 125%N :: s5 => Some (JObj acc', s5)
            | 44%N :: s5 => object_loop n' (skip_ws s5) acc'
            | _ => None
            end
          end
        | _ => None
        end
      end
    | _ => None
    end
  end.

(** The items of an array; the input starts at the first item. *)
Fixpoint array_loop (n : nat) (s : pystr) (acc : list json)
  : option (json * pystr) :=
  match n with
  | O => None
  | S n' =>
    match scan s with
    | None => None
    | Some (v, s1) =>
      match skip_ws s1 with
      | 93%N :: s2 => Some (JArr (rev (v :: acc)), s2)
      | 44%N :: s2 => array_loop n' (skip_ws s2) (v :: acc)
      | _ => None
      end
    end
  end.

End Containers.

(** [scan_once]; [depth] bounds the nesting of containers. *)
Fixpoint scan_once (depth : nat) (s : pystr) : option (json * pystr) :=
  match depth with
  | O => None
  | S depth' =>
    match s with
    | [] => None
    | c :: r =>
      if (c =? 34)%N then
        match scanstring r [] with
        | Some (str, rest) => Some (JStr str, rest)
        | None => None
        end
      else if (c =? 123)%N then
        match skip_ws r with
        | 125%N :: rest => Some (JObj [], rest)
        | r' => object_loop (scan_once depth') (S (length r')) r' []
        end
      else if (c =? 91)%N then
        match skip_ws r with
        | 93%N :: rest => Some (JArr [], rest)
        | r' => array_loop (scan_once depth') (S (length r')) r' []
        end
      else if (c =? 110)%N && startswith s kw_null then keyword kw_null JNull s
      else if (c =? 116)%N && startswith s kw_true then keyword kw_true (JBool true) s
      else if (c =? 102)%N && startswith s kw_false then keyword kw_false (JBool false) s
      else if (c =? 78)%N && startswith s kw_nan then keyword kw_nan (JFloat kw_nan) s
      else if (c =? 73)%N && startswith s kw_inf then keyword kw_inf (JFloat kw_inf) s
      else if (c =? 45)%N && startswith s kw_neg_inf
           then keyword kw_neg_inf (JFloat kw_neg_inf) s
      else match_number s
    end
  end.

(** [json.loads(s)] for a [str] argument. *)
Definition loads (s : pystr) : option json :=
  if startswith s [65279%N] then None
  else
    match scan_once (S (length s)) (skip_ws s) with
    | Some (v, rest) =>
      match skip_ws rest with
      | [] => Some v
      | _ :: _ => None
      end
    | None => None
    end.

End Json.

(* ===================================================================== *)
(** ** [clean_and_parse_json] *)
(* ===================================================================== *)

(** The function is the same in both generators.  [json_loads] is the
    decoder in use; [Json.loads] is the one of the standard library. *)
Definition clean_and_parse_json_with (json_loads : pystr -> option json)
  (response_content : pystr) : pyresult (option json) :=
  let m :=
    match search re_fenced response_content with
    | Some m => Some m
    | None => search re_braces response_content
    end in
  match m with
  | None => Returned None
  | Some m =>
    json_str ← (if contains (group0 m) fence_json then group_1 m
                else Returned (group0 m));
    Returned (json_loads json_str)
  end.

Definition clean_and_parse_json : pystr -> pyresult (option json) :=
  clean_and_parse_json_with Json.loads.

(** A continuation that starts by reading a closing brace. *)
Definition wants_close {R} (k : pystr -> option R) : Prop :=
  k [] = None /\ forall c tl, c <> close_brace -> k (c :: tl) = None.

(** The reading of the extraction step in the design notes: the first
    balanced brace-delimited substring of the text. *)
Fixpoint take_balanced (depth : nat) (s : pystr) : option pystr :=
  match s with
  | [] => None
  | c :: tl =>
    if (c =? open_brace)%N then cons c <$> take_balanced (S depth) tl
    else if (c =? close_brace)%N then
      match depth with
      | O => Some [c]
      | S d => cons c <$> take_balanced d tl
      end
    else cons c <$> take_balanced depth tl
  end.

Fixpoint first_balanced (s : pystr) : option pystr :=
  match s with
  | [] => None
  | c :: tl =>
    if (c =? open_brace)%N then
      match take_balanced 0 tl with
      | Some body => Some (c :: body)
      | None => first_balanced tl
      end
    else first_balanced tl
  end.

(** An extraction that decodes the first balanced substring whenever the
    text has no fenced block. *)
Definition parses_first_balanced (s : pystr) : Prop :=
  forall body,
    search re_fenced s = None ->
    first_balanced s = Some body ->
    clean_and_parse_json s = Returned (Json.loads body).

(** Sample model outputs. *)
Definition two_objects : pystr := Eval vm_compute in pyq "{'a':1} {'b':2}".
Definition stray_brace : pystr := Eval vm_compute in pyq "{'a':1} }".
Definition object_a : pystr := Eval vm_compute in pyq "{'a':1}".
Definition transcript_key : pystr := Eval vm_compute in py "transcript".
Definition fence_in_value : pystr :=
  Eval vm_compute in pyq "{'transcript': '```json'}".

(** An answer cut off before the closing fence, after a remark in braces. *)
Definition truncated_answer : pystr :=
  Eval vm_compute in
    pyq "Here is the turn {as requested}: ```json {'transcript': 'Merhaba'}".

(* ===================================================================== *)
(** ** Sample conversations *)
(* ===================================================================== *)

Definition sample_transcript : pystr :=
  Eval vm_compute in py "Merhaba, size nasıl yardımcı olabilirim?".

Definition sample_path : pystr :=
  Eval vm_compute in py "data/audio/agent/0001_01_20250101_120000_ab12cd34.wav".

Definition sample_turn (n : nat) (who what : pystr) : Turn :=
  {| conversation_id := 1;
     audio_filepath := Some sample_path;
     transcript := Some sample_transcript;
     speaker_id := who;
     role := Some who;
     intent := Some (JStr what);
     slot := JObj [];
     audio_duration := Some 3.2%float;
     sample_rate := Some 16000%Z;
     channels := Some 1%Z;
     file_size := Some 102444%Z;
     agent_name_of := None;
     scenario_of := None;
     turn_number_of := Some n |}.

(** [agent/greeting, user/complaint, agent/closing, user/thanks] *)
Definition four_turns : list Turn :=
  [ sample_turn 1 agent greeting; sample_turn 2 user complaint;
    sample_turn 3 agent closing; sample_turn 4 user thanks ].

Definition six_turns : list Turn :=
  [ sample_turn 1 agent greeting; sample_turn 2 user complaint;
    sample_turn 3 agent info_request; sample_turn 4 user info_provide;
    sample_turn 5 agent closing; sample_turn 6 user thanks ].

(** The four-turn scenario: the intents of the four turns, alternating
    roles, every transcript within the configured length bounds. *)
Definition four_turn_scenario (cfg : Config) (history : list Turn) : Prop :=
  exists t1 t2 t3 t4,
    history = [t1; t2; t3; t4]
    /\ role t1 = Some agent /\ intent t1 = Some (JStr greeting)
    /\ role t2 = Some user /\ intent t2 = Some (JStr complaint)
    /\ role t3 = Some agent /\ intent t3 = Some (JStr closing)
    /\ role t4 = Some user /\ intent t4 = Some (JStr thanks)
    /\ Forall (fun t => MIN_TRANSCRIPT_LENGTH cfg <= transcript_len t
                        <= MAX_TRANSCRIPT_LENGTH cfg)%nat history.

(** Two states of the file system: every path exists, no path exists. *)
Definition all_files : pystr -> bool := fun _ => true.
Definition no_files : pystr -> bool := fun _ => false.

(** A validator that answers from the turn list alone. *)
Definition ignores_file_system
  (validate : (pystr -> bool) -> list Turn -> pyresult verdict) : Prop :=
  forall fs1 fs2 history, validate fs1 history = validate fs2 history.

(* ===================================================================== *)
(** ** Effects: state and exceptions *)
(* ===================================================================== *)

(** A computation over a state of type [S] that returns or raises; the
    state changes made before an exception are kept, as in Python. *)
Definition M (S A : Type) : Type := S -> pyresult A * S.

#[export] Instance M_ret {S} : MRet (M S) := fun _ a s => (Returned a, s).
#[export] Instance M_bind {S} : MBind (M S) := fun _ _ f m s =>
  match m s with
  | (Returned a, s') => f a s'
  | (Raised e, s') => (Raised e, s')
  end.

Definition raise {S A} (e : pyexn) : M S A := fun s => (Raised e, s).

(** Run a result that needs no state. *)
Definition pure_result {S A} (r : pyresult A) : M S A := fun s => (r, s).

(** [try: body except Exception as e: handler(e)] *)
Definition try_except {S A} (body : M S A) (handler : pyexn -> M S A) : M S A :=
  fun s =>
    match body s with
    | (Returned a, s') => (Returned a, s')
    | (Raised e, s') => handler e s'
    end.

(** [keeps P m]: running [m] from a state with [P] ends in a state with
    [P], whether it returns or raises. *)
Definition keeps {S A} (P : S -> Prop) (m : M S A) : Prop :=
  forall s r s', P s -> m s = (r, s') -> P s'.

(* ===================================================================== *)
(** ** The environment of a run *)
(* ===================================================================== *)

(** What a turn prompt is rendered from. *)
Record PromptContext := mkPromptContext {
  ctx_conversation_id : Z;
  ctx_agent_name : pystr;
  ctx_scenario_name : pystr;
  ctx_role : pystr;
  ctx_turn_number : nat;
  ctx_total_turns : nat;
  ctx_speaker_id : pystr;
  ctx_history : list Turn;
}.

Inductive Provider := ElevenLabs | GoogleCloud | Azure | Gtts.

Record HttpResponse := mkHttpResponse {
  status_code : Z;
  response_text : pystr;
}.

(** The world outside the program: the random generator, the language
    model (prompt rendering and the model call are one step), the TTS
    services and the file system. *)
Class World (W : Type) := {
  (** [random._randbelow(n)] *)
  randbelow : nat -> W -> nat * W;
  randbelow_lt : forall n w, (0 < n)%nat -> (fst (randbelow n w) < n)%nat;
  (** [llm.invoke(prompt).content] *)
  llm_invoke : PromptContext -> M W pystr;
  (** [pathlib.Path(p).exists()] *)
  path_exists : W -> pystr -> bool;
  (** [os.getenv(name)] is set and not empty *)
  has_api_key : W -> Provider -> bool;
  (** [requests.post(...)] to a TTS service *)
  http_post : Provider -> pystr -> pystr -> M W HttpResponse;
  (** writing the audio file, converting it, and [stat().st_size] *)
  store_audio : Provider -> pystr -> HttpResponse -> M W Z;
  (** [check_turn_already_exists], a scan of the manifest file *)
  turn_already_exists : W -> Z -> nat -> pystr -> bool;
  (** [generate_audio_filepath]: an existing file of the turn, or a new
      name from the clock and a UUID *)
  generate_audio_filepath : Z -> nat -> pystr -> M W pystr;
  (** [audio_path.stat().st_size] *)
  stat_size : pystr -> M W Z;
  (** the credential checks of [validate_config], on the environment *)
  credential_errors : W -> list pystr;
  (** [get_next_conversation_id], a scan of the existing output files *)
  next_conversation_id : W -> Z;
}.

Section Random.
Context {W : Type} `{World W}.

Definition rand_below (n : nat) : M W nat :=
  fun w => let '(i, w') := randbelow n w in (Returned i, w').

(** [random.choice(seq)] *)
Definition choice {A} (seq : list A) : M W A :=
  match seq with
  | [] => raise IndexError
  | _ :: _ =>
    i ← rand_below (length seq);
    match seq !! i with
    | Some x => mret x
    | None => raise IndexError
    end
  end.

(** [random.randint(a, b)] *)
Definition randint (a b : Z) : M W Z :=
  if (b <? a)%Z then raise (OtherError [])
  else
    i ← rand_below (Z.to_nat (b - a + 1));
    mret (a + Z.of_nat i)%Z.

(** [x[i], x[j] = x[j], x[i]] *)
Definition swap {A} (x : list A) (i j : nat) : pyresult (list A) :=
  match x !! i, x !! j with
  | Some a, Some b => Returned (<[j := a]> (<[i := b]> x))
  | _, _ => Raised IndexError
  end.

(** [random.shuffle(x)]:
    [for i in reversed(range(1, len(x))): j = randbelow(i + 1); swap] *)
Fixpoint shuffle_from {A} (i : nat) (x : list A) : M W (list A) :=
  match i with
  | O => mret x
  | S i' =>
    j ← rand_below (i + 1);
    x' ← pure_result (swap x i j);
    shuffle_from i' x'
  end.

Definition shuffle {A} (x : list A) : M W (list A) :=
  shuffle_from (length x - 1) x.

End Random.

(* ===================================================================== *)
(** ** [get_scenario_distribution] *)
(* ===================================================================== *)

(** [int(q)]: truncation towards zero. *)
Definition py_int (q : Q) : Z := Z.quot (Qnum q) (Z.pos (Qden q)).

(** [[scenario] * count] *)
Definition repeat_label (scenario : pystr) (count : Z) : list pystr :=
  replicate (Z.to_nat count) scenario.

(** The first loop: [int(NUM_CONVERSATIONS * weight)] copies per scenario. *)
Definition weighted_copies (n : nat) (weights : list (pystr * Q)) : list pystr :=
  flat_map (fun '(scenario, weight) =>
              repeat_label scenario (py_int (inject_Z (Z.of_nat n) * weight)))
           weights.

Section ScenarioDistribution.
Context {W : Type} `{World W}.

(** [while len(scenarios) < NUM_CONVERSATIONS: scenarios.append(choice(keys))];
    [missing] is the number of iterations left. *)
Fixpoint fill_remaining (missing : nat) (keys scenarios : list pystr)
  : M W (list pystr) :=
  match missing with
  | O => mret scenarios
  | S missing' =>
    c ← choice keys;
    fill_remaining missing' keys (scenarios ++ [c])
  end.

Definition get_scenario_distribution (cfg : Config) : M W (list pystr) :=
  let n := NUM_CONVERSATIONS cfg in
  let scenarios := weighted_copies n (SCENARIO_WEIGHTS cfg) in
  scenarios ← fill_remaining (n - length scenarios)
                (map fst (SCENARIO_WEIGHTS cfg)) scenarios;
  scenarios ← shuffle scenarios;
  mret (take n scenarios).

End ScenarioDistribution.

(** The sum of the weights, [sum(SCENARIO_WEIGHTS.values())]. *)
Definition weight_sum (weights : list (pystr * Q)) : Q :=
  fold_right Qplus 0%Q (map snd weights).




(* ===================================================================== *)
(** ** Names, genders and voices *)
(* ===================================================================== *)

Definition male : pystr := Eval vm_compute in py "male".
Definition female : pystr := Eval vm_compute in py "female".

Definition TURKISH_MALE_NAMES : gset pystr :=
  list_to_set (map py
    [ "Ahmet"; "Mehmet"; "Ali"; "Veli"; "Burak"; "Cem"; "Furkan"; "Hakan";
      "Kemal"; "Murat"; "Oğuz"; "Rıza"; "Tolga"; "Ufuk"; "Volkan"; "Zeki";
      "Emre"; "Serkan"; "Özkan"; "Taner"; "Selim"; "Berk"; "Kaan"; "Onur";
      "Barış"; "Arda"; "Eren"; "Kağan"; "Alper"; "Sinan"; "Gökhan"; "Erhan"
    ]%string).

Definition TURKISH_FEMALE_NAMES : gset pystr :=
  list_to_set (map py
    [ "Ayşe"; "Fatma"; "Zeynep"; "Elif"; "Deniz"; "Ece"; "Gül"; "İrem";
      "Leyla"; "Nalan"; "Pınar"; "Seda"; "Yasemin"; "Aslı"; "Ebru"; "Gamze";
      "Hülya"; "Işıl"; "Jale"; "Kübra"; "Lale"; "Melike"; "Nazlı"; "Özlem";
      "Pelin"; "Reyhan"; "Sibel"; "Tülay"; "Ülkü"; "Vildan"; "Yeliz"; "Zuhal"
    ]%string).

Definition AGENT_NAMES : list pystr :=
  map py
    [ "Ahmet"; "Mehmet"; "Ayşe"; "Fatma"; "Ali"; "Veli"; "Zeynep"; "Elif";
      "Burak"; "Cem"; "Deniz"; "Ece"; "Furkan"; "Gül"; "Hakan"; "İrem";
      "Kemal"; "Leyla"; "Murat"; "Nalan"; "Oğuz"; "Pınar"; "Rıza"; "Seda";
      "Tolga"; "Ufuk"; "Volkan"; "Yasemin"; "Zeki"; "Aslı" ]%string.

(** [name.endswith(('e', 'a', 'ş', 'ü', 'ö'))] *)
Definition female_suffixes : list pystr :=
  map py [ "e"; "a"; "ş"; "ü"; "ö" ]%string.

Definition get_gender_from_name (name : pystr) : pystr :=
  if bool_decide (name ∈ TURKISH_MALE_NAMES) then male
  else if bool_decide (name ∈ TURKISH_FEMALE_NAMES) then female
  else if existsb (endswith name) female_suffixes then female
  else male.

Record VoiceConfig := mkVoiceConfig {
  vc_provider : pystr;
  vc_voice_id : pystr;
  vc_fallback_provider : pystr;
  vc_fallback_voice : pystr;
  vc_gender : pystr;
  vc_characteristics : pystr;
}.

Definition elevenlabs_voice (voice_id gender characteristics : string)
  : VoiceConfig :=
  mkVoiceConfig (py "elevenlabs") (py voice_id) (py "elevenlabs") (py voice_id)
                (py gender) (py characteristics).

(** The dictionary, in the order of its keys. *)
Definition ENHANCED_VOICE_CONFIGS : list (pystr * VoiceConfig) :=
  [ (py "agent_male_001",
     elevenlabs_voice "pNInz6obpgDQGcFmaJgB" "male"
                      "professional male, calm, helpful");
    (py "agent_male_002",
     elevenlabs_voice "ErXwobaYiN019PkySvjV" "male"
                      "professional male, clear, authoritative");
    (py "agent_male_003",
     elevenlabs_voice "VR6AewLTigWG4xSOukaG" "male"
                      "professional male, confident, mature");
    (py "agent_female_001",
     elevenlabs_voice "EXAVITQu4vr4xnSDxMaL" "female"
                      "professional female, warm, confident");
    (py "agent_female_002",
     elevenlabs_voice "pMsXgVXv3BLzUgSXRplE" "female"
                      "professional female, authoritative, clear");
    (py "agent_female_003",
     elevenlabs_voice "ThT5KcBeYPX3keUQqHPh" "female"
                      "professional female, energetic, helpful");
    (py "user_male_001",
     elevenlabs_voice "flq6f7yk4E4fJM5XTYuZ" "male"
                      "natural male, casual, friendly");
    (py "user_male_002",
     elevenlabs_voice "pNInz6obpgDQGcFmaJgB" "male"
                      "natural male, concerned, mature");
    (py "user_male_003",
     elevenlabs_voice "ErXwobaYiN019PkySvjV" "male"
                      "natural male, patient, elderly");
    (py "user_female_001",
     elevenlabs_voice "21m00Tcm4TlvDq8ikWAM" "female"
                      "natural female, slightly concerned");
    (py "user_female_002",
     elevenlabs_voice "EXAVITQu4vr4xnSDxMaL" "female"
                      "natural female, patient, mature");
    (py "user_female_003",
     elevenlabs_voice "ThT5KcBeYPX3keUQqHPh" "female"
                      "natural female, energetic, young") ].

(** [[k for k in ENHANCED_VOICE_CONFIGS.keys() if k.startswith(prefix)]] *)
Definition voices_with_prefix (prefix : pystr) : list pystr :=
  List.filter (fun k => startswith k prefix) (map fst ENHANCED_VOICE_CONFIGS).

(** [ENHANCED_VOICE_CONFIGS[voice]] *)
Fixpoint voice_config_of (table : list (pystr * VoiceConfig)) (voice : pystr)
  : option VoiceConfig :=
  match table with
  | [] => None
  | (k, c) :: rest =>
    if bool_decide (k = voice) then Some c else voice_config_of rest voice
  end.

Section Voices.
Context {W : Type} `{World W}.

Definition get_voice_for_agent (agent_name : pystr) : M W pystr :=
  let gender := get_gender_from_name agent_name in
  if bool_decide (gender = male)
  then choice (voices_with_prefix (py "agent_male_"))
  else choice (voices_with_prefix (py "agent_female_")).

Definition get_voice_for_user (gender_preference : option pystr) : M W pystr :=
  gender ← match gender_preference with
           | None => choice [male; female]
           | Some g => mret g
           end;
  if bool_decide (gender = male)
  then choice (voices_with_prefix (py "user_male_"))
  else choice (voices_with_prefix (py "user_female_")).

End Voices.

(** The voice pool the agent's voice is drawn from. *)
Definition agent_pool (gender : pystr) : list pystr :=
  voices_with_prefix (py "agent_" ++ gender ++ py "_").

(* ===================================================================== *)
(** ** The state of a generator run *)
(* ===================================================================== *)

(** Lines written to standard output. *)
Inductive Event :=
| EvVoices (cid : Z) (agent_name agent_gender agent_voice : pystr)
           (user_gender user_voice : pystr)
| EvProviderFailed (p : Provider) (error : pystr)
| EvFallback
| EvSkipTurn (cid : Z) (turn : nat) (who : pystr)
| EvReuseAudio (path : pystr)
| EvParseFailed (cid : Z) (turn : nat)
| EvAudioFailed (cid : Z) (turn : nat)
| EvValidation (cid : Z) (v : verdict)
| EvError (cid : Z) (attempt : nat) (e : pyexn)
| EvSkipping (cid : Z) (retries : nat).

(** The objects a run keeps: the speaker manager's two dictionaries, the
    availability table of the voice manager, the output so far, and the
    world. *)
Record Run (W : Type) := mkRun {
  world : W;
  conversation_speakers : gmap Z (pystr * pystr);
  conversation_agent_names : gmap Z pystr;
  providers_status : Provider -> bool;
  stdout : list Event;
}.
Arguments mkRun {W}.
Arguments world {W}.
Arguments conversation_speakers {W}.
Arguments conversation_agent_names {W}.
Arguments providers_status {W}.
Arguments stdout {W}.

(** A property of a run that does not look at the world or at the output. *)
Definition on_tables {W} (P : Run W -> Prop) : Prop :=
  forall st w out,
    P st ->
    P (mkRun w (conversation_speakers st) (conversation_agent_names st)
             (providers_status st) out).

(** The dictionary of speakers is [m0], possibly with a new entry for
    [cid]. *)
Definition bound_at {W} (m0 : gmap Z (pystr * pystr)) (cid : Z) (st : Run W)
  : Prop :=
  conversation_speakers st = m0
  \/ exists voices, conversation_speakers st = <[cid := voices]> m0.

Section RunState.
Context {W : Type} `{World W}.

(** An action on the world, inside a run. *)
Definition in_world {A} (m : M W A) : M (Run W) A :=
  fun st =>
    let '(r, w') := m (world st) in
    (r, mkRun w' (conversation_speakers st) (conversation_agent_names st)
              (providers_status st) (stdout st)).

Definition print (ev : Event) : M (Run W) unit :=
  fun st =>
    (Returned (),
     mkRun (world st) (conversation_speakers st) (conversation_agent_names st)
           (providers_status st) (stdout st ++ [ev])).

(** The current state, for reading the world. *)
Definition get_run : M (Run W) (Run W) := fun st => (Returned st, st).

(** [self.conversation_speakers[cid] = voices] *)
Definition set_speakers (cid : Z) (voices : pystr * pystr) : M (Run W) unit :=
  fun st =>
    (Returned (),
     mkRun (world st) (<[cid := voices]> (conversation_speakers st))
           (conversation_agent_names st) (providers_status st) (stdout st)).

(** [self.conversation_agent_names[cid] = name] *)
Definition set_agent_name (cid : Z) (name : pystr) : M (Run W) unit :=
  fun st =>
    (Returned (),
     mkRun (world st) (conversation_speakers st)
           (<[cid := name]> (conversation_agent_names st))
           (providers_status st) (stdout st)).

(** [self.conversation_speakers[cid]] *)
Definition get_speakers (cid : Z) : M (Run W) (pystr * pystr) :=
  fun st =>
    match conversation_speakers st !! cid with
    | Some voices => (Returned voices, st)
    | None => (Raised KeyError, st)
    end.

(** [cid in self.conversation_speakers] *)
Definition has_speakers (cid : Z) : M (Run W) bool :=
  fun st => (Returned (bool_decide (is_Some (conversation_speakers st !! cid))), st).

(** [ENHANCED_VOICE_CONFIGS[voice]["gender"]] *)
Definition gender_of_voice (voice : pystr) : M (Run W) pystr :=
  match voice_config_of ENHANCED_VOICE_CONFIGS voice with
  | Some c => mret (vc_gender c)
  | None => raise KeyError
  end.

(** *** [SpeakerManager] of the generator with audio *)

(** [SpeakerManager.assign_speakers] *)
Definition assign_speakers (cid : Z) (agent_name : pystr)
  : M (Run W) (pystr * pystr) :=
  known ← has_speakers cid;
  (if negb known then
     agent_voice ← in_world (get_voice_for_agent agent_name);
     user_voice ← in_world (get_voice_for_user None);
     set_speakers cid (agent_voice, user_voice);;
     set_agent_name cid agent_name;;
     agent_gender ← gender_of_voice agent_voice;
     user_gender ← gender_of_voice user_voice;
     print (EvVoices cid agent_name agent_gender agent_voice
                     user_gender user_voice)
   else mret ());;
  get_speakers cid.

(** [self.conversation_agent_names.get(cid, "Ahmet")] when no name is given. *)
Definition name_or_recorded (cid : Z) (agent_name : option pystr)
  : M (Run W) pystr :=
  fun st =>
    match agent_name with
    | Some name => (Returned name, st)
    | None =>
      (Returned (default (py "Ahmet") (conversation_agent_names st !! cid)), st)
    end.

(** [SpeakerManager.get_speaker_id] *)
Definition get_speaker_id (cid : Z) (who : pystr) (agent_name : option pystr)
  : M (Run W) pystr :=
  name ← name_or_recorded cid agent_name;
  voices ← assign_speakers cid name;
  mret (if bool_decide (who = agent) then voices.1 else voices.2).

(** *** [TextOnlySpeakerManager] *)

(** [str(n)] for a natural number. *)
Definition str_of_N (n : N) : pystr :=
  bytes_of (NilEmpty.string_of_uint (N.to_uint n)).

(** [f"{z:03d}"]: at least three characters, padded with zeros after the
    sign. *)
Definition format_03d (z : Z) : pystr :=
  let digits := str_of_N (Z.abs_N z) in
  if (z <? 0)%Z
  then 45%N :: replicate (2 - length digits) 48%N ++ digits
  else replicate (3 - length digits) 48%N ++ digits.

(** [get_speaker_id_for_text] *)
Definition get_speaker_id_for_text (agent_name who : pystr) (cid : Z)
  : M W pystr :=
  if bool_decide (who = agent) then
    let gender := get_gender_from_name agent_name in
    mret (py "agent_" ++ gender ++ py "_" ++ format_03d cid)
  else
    gender ← choice [male; female];
    mret (py "user_" ++ gender ++ py "_" ++ format_03d cid).

(** [TextOnlySpeakerManager.assign_speakers] *)
Definition text_assign_speakers (cid : Z) (agent_name : pystr)
  : M (Run W) (pystr * pystr) :=
  known ← has_speakers cid;
  (if negb known then
     agent_speaker ← in_world (get_speaker_id_for_text agent_name agent cid);
     user_speaker ← in_world (get_speaker_id_for_text agent_name user cid);
     set_speakers cid (agent_speaker, user_speaker);;
     set_agent_name cid agent_name
   else mret ());;
  get_speakers cid.

(** [TextOnlySpeakerManager.get_speaker_id] *)
Definition text_get_speaker_id (cid : Z) (who : pystr)
  (agent_name : option pystr) : M (Run W) pystr :=
  name ← name_or_recorded cid agent_name;
  voices ← text_assign_speakers cid name;
  mret (if bool_decide (who = agent) then voices.1 else voices.2).

(** *** Calls on a speaker manager *)

Inductive Call :=
| CallAssign (cid : Z) (agent_name : pystr)
| CallSpeakerId (cid : Z) (who : pystr) (agent_name : option pystr).

(** The two classes, each with its two methods. *)
Inductive ManagerClass := SpeakerManager | TextOnlySpeakerManager.

Definition assign_of (cls : ManagerClass) : Z -> pystr -> M (Run W) (pystr * pystr) :=
  match cls with
  | SpeakerManager => assign_speakers
  | TextOnlySpeakerManager => text_assign_speakers
  end.

Definition speaker_id_of (cls : ManagerClass)
  : Z -> pystr -> option pystr -> M (Run W) pystr :=
  match cls with
  | SpeakerManager => get_speaker_id
  | TextOnlySpeakerManager => text_get_speaker_id
  end.

Definition run_call (cls : ManagerClass) (c : Call) : M (Run W) unit :=
  match c with
  | CallAssign cid name => assign_of cls cid name;; mret ()
  | CallSpeakerId cid who name => speaker_id_of cls cid who name;; mret ()
  end.

(** What may happen between two calls on the manager: further calls on it,
    with any arguments and any outcome, and any activity that leaves its
    dictionaries alone. *)
Inductive later (cls : ManagerClass) : Run W -> Run W -> Prop :=
| later_now st : later cls st st
| later_call st c r st1 st2 :
    run_call cls c st = (r, st1) -> later cls st1 st2 -> later cls st st2
| later_other st st1 st2 :
    conversation_speakers st1 = conversation_speakers st ->
    conversation_agent_names st1 = conversation_agent_names st ->
    later cls st1 st2 -> later cls st st2.

End RunState.

(* ===================================================================== *)
(** ** Speech synthesis ([EnhancedVoiceManager]) *)
(* ===================================================================== *)

(** The dictionary a provider returns. *)
Record AudioResult := mkAudioResult {
  success : bool;
  duration : option float;
  result_sample_rate : option Z;
  result_channels : option Z;
  result_file_size : option Z;
  provider : option pystr;
  quality : option pystr;
  error : option pystr;
}.

(** [{"success": False, "error": msg}] *)
Definition audio_failure (msg : pystr) : AudioResult :=
  mkAudioResult false None None None None None None (Some msg).

(** The success dictionary; sample rate and channels are those of
    [AUDIO_CONFIG]. *)
Definition audio_success (seconds : float) (size : Z) (by_ how : pystr)
  : AudioResult :=
  mkAudioResult true (Some seconds) (Some 16000%Z) (Some 1%Z) (Some size)
                (Some by_) (Some how) None.

(** [len(text) * rate] *)
Definition estimated_duration (text : pystr) (rate : float) : float :=
  PrimFloat.mul (PrimFloat.of_uint63 (Uint63.of_Z (Z.of_nat (length text)))) rate.

(** [str(e)] *)
Definition exn_text (e : pyexn) : pystr :=
  match e with
  | KeyError => py "KeyError"
  | IndexError => py "IndexError"
  | AttributeError => py "AttributeError"
  | TypeError => py "TypeError"
  | OtherError msg => msg
  end.

(** [str(z)] *)
Definition str_of_Z (z : Z) : pystr :=
  if (z <? 0)%Z then 45%N :: str_of_N (Z.abs_N z) else str_of_N (Z.abs_N z).

(** [s.split(sep)] for a one-character separator. *)
Fixpoint split_on (sep : N) (s : pystr) : list pystr :=
  match s with
  | [] => [[]]
  | c :: tl =>
    if (c =? sep)%N then [] :: split_on sep tl
    else match split_on sep tl with
         | part :: parts => (c :: part) :: parts
         | [] => [[c]]
         end
  end.

(** [l[i]] *)
Definition index {A} (l : list A) (i : nat) : pyresult A :=
  match l !! i with
  | Some x => Returned x
  | None => Raised IndexError
  end.

Definition elevenlabs : pystr := Eval vm_compute in py "elevenlabs".
Definition google_cloud : pystr := Eval vm_compute in py "google_cloud".
Definition default_voice_id : pystr := Eval vm_compute in py "pNInz6obpgDQGcFmaJgB".

Definition no_provider_error : pystr :=
  py "No high-quality TTS providers available (ElevenLabs quota exceeded, Google Cloud TTS failed)".

Section Synthesis.
Context {W : Type} `{World W}.

(** [_check_providers]: gTTS is always available, the others need a key. *)
Definition _check_providers (w : W) : Provider -> bool :=
  fun p => match p with
           | Gtts => true
           | _ => has_api_key w p
           end.

Definition api_key_set (p : Provider) : M W bool :=
  fun w => (Returned (has_api_key w p), w).

Definition _generate_elevenlabs_audio (text voice_id output_path : pystr)
  : M W AudioResult :=
  key ← api_key_set ElevenLabs;
  if negb key then mret (audio_failure (py "ElevenLabs API key not found"))
  else
    try_except
      (response ← http_post ElevenLabs text voice_id;
       if (status_code response =? 200)%Z then
         size ← store_audio ElevenLabs output_path response;
         mret (audio_success (estimated_duration text 0.08) size
                             elevenlabs (py "very_high"))
       else
         mret (audio_failure
                 (py "ElevenLabs API error: " ++ str_of_Z (status_code response)
                  ++ py " - " ++ response_text response)))
      (fun e => mret (audio_failure (py "ElevenLabs error: " ++ exn_text e))).

Definition _generate_google_cloud_audio (text voice_id output_path : pystr)
  : M W AudioResult :=
  key ← api_key_set GoogleCloud;
  if negb key then mret (audio_failure (py "Google Cloud TTS API key not found"))
  else
    lang ← pure_result (index (split_on 45 voice_id) 0);
    region ← pure_result (index (split_on 45 voice_id) 1);
    let language_code := lang ++ [45%N] ++ region in
    try_except
      (response ← http_post GoogleCloud text voice_id;
       if (status_code response =? 200)%Z then
         size ← store_audio GoogleCloud output_path response;
         mret (audio_success (estimated_duration text 0.09) size
                             google_cloud (py "high"))
       else
         mret (audio_failure
                 (py "Google Cloud TTS error: " ++ str_of_Z (status_code response)
                  ++ py " - " ++ response_text response)))
      (fun e => mret (audio_failure (py "Google Cloud TTS error: " ++ exn_text e))).

(** [self.providers_status.get(p, False)] *)
Definition provider_available (p : Provider) : M (Run W) bool :=
  fun st => (Returned (providers_status st p), st).

(** [voice_config.get("voice_id", ...)] of
    [ENHANCED_VOICE_CONFIGS.get(speaker_id, default)] *)
Definition voice_id_of (speaker : pystr) : pystr :=
  match voice_config_of ENHANCED_VOICE_CONFIGS speaker with
  | Some c => vc_voice_id c
  | None => default_voice_id
  end.

(** ["tr-TR-Wavenet-A" if "user" in speaker_id else "tr-TR-Wavenet-B"] *)
Definition google_voice_of (speaker : pystr) : pystr :=
  if contains speaker user then py "tr-TR-Wavenet-A" else py "tr-TR-Wavenet-B".

(** One link of the chain: [Some result] is an early [return result]. *)
Definition try_provider (p : Provider) (attempt : M W AudioResult)
  : M (Run W) (option AudioResult) :=
  result ← in_world attempt;
  if success result then mret (Some result)
  else
    print (EvProviderFailed p (default (py "Unknown error") (error result)));;
    mret None.

(** The first [if] of [generate_audio]: ElevenLabs. *)
Definition primary_link (text speaker output_path : pystr)
  : M (Run W) (option AudioResult) :=
  primary_up ← provider_available ElevenLabs;
  if (primary_up : bool)
  then try_provider ElevenLabs
         (_generate_elevenlabs_audio text (voice_id_of speaker) output_path)
  else mret None.

(** The second [if]: Google Cloud TTS. *)
Definition fallback_link (text speaker output_path : pystr)
  : M (Run W) (option AudioResult) :=
  fallback_up ← provider_available GoogleCloud;
  if (fallback_up : bool)
  then print EvFallback;;
       try_provider GoogleCloud
         (_generate_google_cloud_audio text (google_voice_of speaker) output_path)
  else mret None.

(** [EnhancedVoiceManager.generate_audio]: the two links, then the
    failure dictionary; [_generate_gtts_audio] is not called. *)
Definition generate_audio (text speaker output_path : pystr)
  : M (Run W) AudioResult :=
  first ← primary_link text speaker output_path;
  match first return M (Run W) AudioResult with
  | Some result => mret result
  | None =>
    second ← fallback_link text speaker output_path;
    match second return M (Run W) AudioResult with
    | Some result => mret result
    | None => mret (audio_failure no_provider_error)
    end
  end.

(** [SpeakerManager.generate_audio_for_turn] *)
Definition generate_audio_for_turn (text speaker audio_filepath_ : pystr)
  : M (Run W) AudioResult :=
  generate_audio text speaker audio_filepath_.

(** The primary provider is not available, or its attempt fails and leaves
    the world [w1]. *)
Definition primary_fails (text speaker output_path : pystr) (st : Run W) (w1 : W)
  : Prop :=
  (providers_status st ElevenLabs = false /\ w1 = world st)
  \/ (providers_status st ElevenLabs = true
      /\ exists r1,
           _generate_elevenlabs_audio text (voice_id_of speaker) output_path
                                      (world st) = (Returned r1, w1)
           /\ success r1 = false).

(** The fallback provider is not available, or its attempt fails. *)
Definition fallback_fails (text speaker output_path : pystr) (st : Run W) (w1 w2 : W)
  : Prop :=
  (providers_status st GoogleCloud = false /\ w2 = w1)
  \/ (providers_status st GoogleCloud = true
      /\ exists r2,
           _generate_google_cloud_audio text (google_voice_of speaker) output_path
                                        w1 = (Returned r2, w2)
           /\ success r2 = false).

End Synthesis.

Section FallbackOutcome.
Context {W : Type} `{World W}.

(** How the fallback link ends: [Some r2] when Google Cloud TTS is
    available and its attempt returns the successful result [r2], [None]
    when it is not available or its attempt fails. *)
Definition fallback_ends (text speaker output_path : pystr) (st : Run W)
  (w1 : W) (outcome : option AudioResult) (w2 : W) : Prop :=
  match outcome with
  | Some r2 =>
    providers_status st GoogleCloud = true
    /\ _generate_google_cloud_audio text (google_voice_of speaker) output_path w1
       = (Returned r2, w2)
    /\ success r2 = true
  | None => fallback_fails text speaker output_path st w1 w2
  end.

(** What the chain returns for that outcome. *)
Definition chain_result (outcome : option AudioResult) : AudioResult :=
  default (audio_failure no_provider_error) outcome.

End FallbackOutcome.

(* ===================================================================== *)
(** ** The generators *)
(* ===================================================================== *)

(** [hoare P m Q]: when [m] runs from a state with [P] and returns [a],
    the final state satisfies [Q a]. *)
Definition hoare {S A} (P : S -> Prop) (m : M S A) (Q : A -> S -> Prop) : Prop :=
  forall s a s', P s -> m s = (Returned a, s') -> Q a s'.

#[export] Instance pyexn_eq_dec : EqDecision pyexn.
Proof. solve_decision. Defined.

#[export] Instance verdict_eq_dec : EqDecision verdict.
Proof. solve_decision. Defined.

#[export] Instance Provider_eq_dec : EqDecision Provider.
Proof. solve_decision. Defined.

#[export] Instance Event_eq_dec : EqDecision Event.
Proof. solve_decision. Defined.

(** An event has been written to standard output. *)
Definition printed {W} (ev : Event) (st : Run W) : Prop := ev ∈ stdout st.

#[export] Instance printed_dec {W} ev (st : Run W) : Decision (printed ev st).
Proof. unfold printed. apply _. Defined.

(** Every row belongs to a conversation whose validation has passed. *)
Definition rows_validated {W} (rows : list Turn) (st : Run W) : Prop :=
  forall row, row ∈ rows -> printed (EvValidation (conversation_id row) Pass) st.

(** The rows of one conversation. *)
Definition rows_of (cid : Z) (rows : list Turn) : Prop :=
  Forall (fun row => conversation_id row = cid) rows.

(** What holds when an attempt returns an accepted history. *)
Definition accepted_for {W} (cid : Z) (result : option (list Turn)) (st : Run W)
  : Prop :=
  match result with
  | Some history => printed (EvValidation cid Pass) st /\ rows_of cid history
  | None => True
  end.

(** A float lexeme whose value is zero: only zeros before the exponent. *)
Fixpoint zero_lexeme (lexeme : pystr) : bool :=
  match lexeme with
  | [] => true
  | c :: tl =>
    if ((c =? 101) || (c =? 69))%N then true
    else ((c =? 45) || (c =? 48) || (c =? 46))%N && zero_lexeme tl
  end.

(** [not v] for the result of [clean_and_parse_json]. *)
Definition falsy (v : option json) : bool :=
  match v with
  | None => true
  | Some JNull => true
  | Some (JBool b) => negb b
  | Some (JInt z) => (z =? 0)%Z
  | Some (JFloat lexeme) => zero_lexeme lexeme
  | Some (JStr s) => bool_decide (s = [])
  | Some (JArr items) => bool_decide (items = [])
  | Some (JObj members) => bool_decide (members = [])
  end.

(** [llm_output.get(key, default)] *)
Definition json_get (v : option json) (key : pystr) (dflt : json) : pyresult json :=
  match v with
  | Some (JObj members) => Returned (default dflt (dict_get members key))
  | _ => Raised AttributeError
  end.

(** [value.strip()] *)
Definition json_strip (v : json) : pyresult pystr :=
  match v with
  | JStr s => Returned (strip s)
  | _ => Raised AttributeError
  end.

Definition intent_key : pystr := Eval vm_compute in py "intent".
Definition slot_key : pystr := Eval vm_compute in py "slot".

(** ["agent" if turn_number % 2 != 0 else "user"] *)
Definition role_of_turn (turn_number : nat) : pystr :=
  if negb ((turn_number mod 2) =? 0)%nat then agent else user.

(** What a run writes to its three files. *)
Record Output := mkOutput {
  manifest_rows : list Turn;
  asr_rows : list Turn;
  tts_rows : list Turn;
  successful_conversations : nat;
}.

(** [abs(q)] *)
Definition py_abs (q : Q) : Q := if Qle_bool 0 q then q else Qopp q.

Section Generators.
Context {W : Type} `{World W}.

(** [validate_config]: the list of error messages. *)
Definition validate_config (cfg : Config) (w : W) : list pystr :=
  credential_errors w
  ++ (if (NUM_CONVERSATIONS cfg =? 0)%nat
      then [py "NUM_CONVERSATIONS must be positive"] else [])
  ++ (if (TURNS_PER_DIALOG_MAX cfg <=? TURNS_PER_DIALOG_MIN cfg)%Z
      then [py "TURNS_PER_DIALOG_MIN must be less than TURNS_PER_DIALOG_MAX"]
      else [])
  ++ (if negb (Qle_bool 0 (TEMPERATURE_AGENT cfg)
               && Qle_bool (TEMPERATURE_AGENT cfg) 2)
      then [py "TEMPERATURE_AGENT must be between 0.0 and 2.0"] else [])
  ++ (if negb (Qle_bool 0 (TEMPERATURE_USER cfg)
               && Qle_bool (TEMPERATURE_USER cfg) 2)
      then [py "TEMPERATURE_USER must be between 0.0 and 2.0"] else [])
  ++ (if negb (Qle_bool (py_abs (weight_sum (SCENARIO_WEIGHTS cfg) - 1))
                        (1 # 100))
      then [py "SCENARIO_WEIGHTS must sum to 1.0"] else [])
  ++ (if (MAX_TRANSCRIPT_LENGTH cfg <=? MIN_TRANSCRIPT_LENGTH cfg)%nat
      then [py "MIN_TRANSCRIPT_LENGTH must be less than MAX_TRANSCRIPT_LENGTH"]
      else []).

(** [random.randint(MIN, MAX)], made even. *)
Definition choose_num_turns (cfg : Config) : M W Z :=
  num_turns ← randint (TURNS_PER_DIALOG_MIN cfg) (TURNS_PER_DIALOG_MAX cfg);
  mret (if negb (num_turns mod 2 =? 0)%Z then num_turns + 1 else num_turns)%Z.

(** *** The turn loop of the text-only generator *)

(** [for turn_number in range(1, num_turns + 1)], from [turn_number] on with
    [remaining] turns to go.  The result is [generation_successful] and the
    history. *)
Fixpoint text_turns (remaining turn_number : nat) (cid : Z)
  (agent_name scenario_name : pystr) (num_turns : nat) (history : list Turn)
  : M (Run W) (bool * list Turn) :=
  match remaining with
  | O => mret (true, history)
  | S remaining' =>
    let who := role_of_turn turn_number in
    speaker ← text_get_speaker_id cid who (Some agent_name);
    let context :=
      mkPromptContext cid agent_name scenario_name who turn_number num_turns
                      speaker history in
    content ← in_world (llm_invoke context);
    llm_output ← pure_result (clean_and_parse_json content);
    if falsy llm_output then
      print (EvParseFailed cid turn_number);;
      mret (false, history)
    else
      raw ← pure_result (json_get llm_output transcript_key (JStr []));
      text ← pure_result (json_strip raw);
      intent_ ← pure_result (json_get llm_output intent_key (JStr []));
      slot_ ← pure_result (json_get llm_output slot_key (JObj []));
      let final_turn_data :=
        {| conversation_id := cid;
           audio_filepath := None;
           transcript := Some text;
           speaker_id := speaker;
           role := Some who;
           intent := Some intent_;
           slot := slot_;
           audio_duration := None;
           sample_rate := None;
           channels := None;
           file_size := None;
           agent_name_of := Some agent_name;
           scenario_of := Some scenario_name;
           turn_number_of := Some turn_number |} in
      text_turns remaining' (S turn_number) cid agent_name scenario_name
                 num_turns (history ++ [final_turn_data])
  end.

(** The body of [try] in the text-only generator: [Some history] when the
    conversation is accepted. *)
Definition text_attempt (cfg : Config) (cid : Z) (scenario_name : pystr)
  : M (Run W) (option (list Turn)) :=
  agent_name ← in_world (choice AGENT_NAMES);
  num_turns ← in_world (choose_num_turns cfg);
  '(generation_successful, history) ←
    text_turns (Z.to_nat num_turns) 1 cid agent_name scenario_name
               (Z.to_nat num_turns) [];
  if (generation_successful : bool) then
    v ← pure_result (validate_text_conversation cfg history);
    print (EvValidation cid v);;
    mret (if accepted v then Some history else None)
  else mret None.

(** *** The turn loop of the generator with audio *)

(** The audio of a turn: an existing file is reused, otherwise the TTS
    chain is run.  [None] is the [break] after a failed synthesis. *)
Definition audio_for_turn (cid : Z) (turn_number : nat)
  (text speaker path : pystr)
  : M (Run W) (option (float * Z * Z * Z)) :=
  st ← get_run;
  if path_exists (world st) path then
    print (EvReuseAudio path);;
    size ← in_world (stat_size path);
    mret (Some (estimated_duration text 0.08, 16000, 1, size)%Z)
  else
    audio_result ← generate_audio_for_turn text speaker path;
    if negb (success audio_result) then
      print (EvAudioFailed cid turn_number);;
      mret None
    else
      seconds ← pure_result (subscript (duration audio_result));
      rate ← pure_result (subscript (result_sample_rate audio_result));
      chans ← pure_result (subscript (result_channels audio_result));
      mret (Some (seconds, rate, chans,
                  default 0%Z (result_file_size audio_result))).

Fixpoint audio_turns (remaining turn_number : nat) (cid : Z)
  (agent_name scenario_name : pystr) (num_turns : nat) (history : list Turn)
  : M (Run W) (bool * list Turn) :=
  match remaining with
  | O => mret (true, history)
  | S remaining' =>
    let who := role_of_turn turn_number in
    st ← get_run;
    if turn_already_exists (world st) cid turn_number who then
      print (EvSkipTurn cid turn_number who);;
      audio_turns remaining' (S turn_number) cid agent_name scenario_name
                  num_turns history
    else
      speaker ← get_speaker_id cid who (Some agent_name);
      path ← in_world (generate_audio_filepath cid turn_number who);
      let context :=
        mkPromptContext cid agent_name scenario_name who turn_number num_turns
                        speaker history in
      content ← in_world (llm_invoke context);
      llm_output ← pure_result (clean_and_parse_json content);
      if falsy llm_output then
        print (EvParseFailed cid turn_number);;
        mret (false, history)
      else
        raw ← pure_result (json_get llm_output transcript_key (JStr []));
        text ← pure_result (json_strip raw);
        audio ← audio_for_turn cid turn_number text speaker path;
        match audio with
        | None => mret (false, history)
        | Some (seconds, rate, chans, size) =>
          intent_ ← pure_result (json_get llm_output intent_key (JStr []));
          slot_ ← pure_result (json_get llm_output slot_key (JObj []));
          let final_turn_data :=
            {| conversation_id := cid;
               audio_filepath := Some path;
               transcript := Some text;
               speaker_id := speaker;
               role := Some who;
               intent := Some intent_;
               slot := slot_;
               audio_duration := Some seconds;
               sample_rate := Some rate;
               channels := Some chans;
               file_size := Some size;
               agent_name_of := None;
               scenario_of := None;
               turn_number_of := None |} in
          audio_turns remaining' (S turn_number) cid agent_name scenario_name
                      num_turns (history ++ [final_turn_data])
        end
  end.

(** The body of [try] in the generator with audio. *)
Definition audio_attempt (cfg : Config) (cid : Z) (scenario_name : pystr)
  : M (Run W) (option (list Turn)) :=
  agent_name ← in_world (choice AGENT_NAMES);
  num_turns ← in_world (choose_num_turns cfg);
  '(generation_successful, history) ←
    audio_turns (Z.to_nat num_turns) 1 cid agent_name scenario_name
                (Z.to_nat num_turns) [];
  if (generation_successful : bool) then
    st ← get_run;
    v ← pure_result
          (validate_conversation_with_audio cfg (path_exists (world st)) history);
    print (EvValidation cid v);;
    mret (if accepted v then Some history else None)
  else mret None.

(** *** The loops shared by the two generators *)

Section Driver.
Variable cfg : Config.
Variable attempt_body : Z -> pystr -> M (Run W) (option (list Turn)).

(** [for attempt in range(max_retries)]: the accepted history, if any. *)
Fixpoint attempts (remaining attempt : nat) (cid : Z) (scenario_name : pystr)
  : M (Run W) (option (list Turn)) :=
  match remaining with
  | O => mret None
  | S remaining' =>
    result ← try_except (attempt_body cid scenario_name)
                (fun e =>
                   print (EvError cid (attempt + 1) e);;
                   (if (attempt =? MAX_RETRIES_PER_CONVERSATION cfg - 1)%nat
                    then print (EvSkipping cid (MAX_RETRIES_PER_CONVERSATION cfg))
                    else mret ());;
                   mret None);
    match result with
    | Some history => mret (Some history)
    | None => attempts remaining' (S attempt) cid scenario_name
    end
  end.

(** [for conv_idx in range(NUM_CONVERSATIONS)] *)
Fixpoint conversations (conv_idxs : list nat) (start : Z)
  (scenario_distribution : list pystr) (all_manifest_rows : list Turn)
  (successful : nat) : M (Run W) (list Turn * nat) :=
  match conv_idxs with
  | [] => mret (all_manifest_rows, successful)
  | conv_idx :: rest =>
    let cid := (start + Z.of_nat conv_idx)%Z in
    scenario_name ← pure_result (index scenario_distribution conv_idx);
    result ← attempts (MAX_RETRIES_PER_CONVERSATION cfg) 0 cid scenario_name;
    match result with
    | Some history =>
      conversations rest start scenario_distribution
                    (all_manifest_rows ++ history) (S successful)
    | None =>
      conversations rest start scenario_distribution all_manifest_rows successful
    end
  end.

(** [[row for row in rows if row['role'] == 'agent']] *)
Fixpoint agent_rows (rows : list Turn) : pyresult (list Turn) :=
  match rows with
  | [] => Returned []
  | row :: rest =>
    r ← subscript (role row);
    kept ← agent_rows rest;
    Returned (if bool_decide (r = agent) then row :: kept else kept)
  end.

(** From the scenario distribution to the rows appended to the files. *)
Definition run_generator : M (Run W) Output :=
  st ← get_run;
  let start := next_conversation_id (world st) in
  scenario_distribution ← in_world (get_scenario_distribution cfg);
  '(rows, successful) ←
    conversations (seq 0 (NUM_CONVERSATIONS cfg)) start scenario_distribution [] 0;
  tts_data ← pure_result (agent_rows rows);
  mret (mkOutput rows rows tts_data successful).

End Driver.

(** [generate_text_only_conversations]: nothing is written when the
    configuration has errors. *)
Definition generate_text_only_conversations (cfg : Config) (w : W)
  : pyresult (option Output) * Run W :=
  let st0 := mkRun w ∅ ∅ (fun _ => false) [] in
  match validate_config cfg w with
  | [] =>
    match run_generator cfg (text_attempt cfg) st0 with
    | (Returned out, st) => (Returned (Some out), st)
    | (Raised e, st) => (Raised e, st)
    end
  | _ :: _ => (Returned None, st0)
  end.

(** [generate_synthetic_data_with_audio]; the speaker manager creates the
    voice manager, which checks the providers. *)
Definition generate_synthetic_data_with_audio (cfg : Config) (w : W)
  : pyresult (option Output) * Run W :=
  match validate_config cfg w with
  | [] =>
    match run_generator cfg (audio_attempt cfg)
            (mkRun w ∅ ∅ (_check_providers w) []) with
    | (Returned out, st) => (Returned (Some out), st)
    | (Raised e, st) => (Raised e, st)
    end
  | _ :: _ => (Returned None, mkRun w ∅ ∅ (fun _ => false) [])
  end.

Inductive Generator := TextOnly | WithAudio.

Definition generate (g : Generator) : Config -> W -> pyresult (option Output) * Run W :=
  match g with
  | TextOnly => generate_text_only_conversations
  | WithAudio => generate_synthetic_data_with_audio
  end.

End Generators.
(* ===================================================================== *)
(** ** A simulated environment *)
(* ===================================================================== *)

(** A small deterministic world to run the generators in: a linear
    congruential generator, a model that answers every prompt with a fenced
    JSON object (or with plain text for the conversations listed in
    [sim_silent]), TTS services that answer as [sim_tts] says, and a file
    system that holds the audio files stored so far. *)
Record Sim := mkSim {
  sim_seed : N;
  sim_silent : list Z;
  sim_keys : list Provider;
  sim_tts : Provider -> Z;
  sim_files : list pystr;
}.

Definition sim_next (w : Sim) : Sim :=
  mkSim ((sim_seed w * 1103515245 + 12345) mod 2147483648)%N
        (sim_silent w) (sim_keys w) (sim_tts w) (sim_files w).

Definition sim_randbelow (n : nat) (w : Sim) : nat * Sim :=
  (N.to_nat ((sim_seed w / 65536) mod N.of_nat n), sim_next w).

(** The intent the simulated model gives to a turn. *)
Definition sim_intent (ctx : PromptContext) : pystr :=
  if (ctx_turn_number ctx =? 1)%nat then greeting
  else if (ctx_turn_number ctx =? ctx_total_turns ctx - 1)%nat then closing
  else if (ctx_turn_number ctx =? ctx_total_turns ctx)%nat then thanks
  else if bool_decide (ctx_role ctx = agent) then info_request
  else info_provide.

Definition sim_reply (ctx : PromptContext) : pystr :=
  pyq "```json
{'transcript': 'Merhaba, size nasıl yardımcı olabilirim?', 'intent': '"
  ++ sim_intent ctx ++ pyq "', 'slot': {}}
```".

Definition sim_llm (ctx : PromptContext) : M Sim pystr :=
  fun w =>
    if bool_decide (ctx_conversation_id ctx ∈ sim_silent w)
    then (Returned (py "Üzgünüm, şu anda yanıt veremiyorum."), w)
    else (Returned (sim_reply ctx), w).

Definition sim_http_post (p : Provider) (text voice : pystr) : M Sim HttpResponse :=
  fun w => (Returned (mkHttpResponse (sim_tts w p) []), w).

Definition sim_store_audio (p : Provider) (path : pystr) (r : HttpResponse)
  : M Sim Z :=
  fun w =>
    (Returned 102444%Z,
     mkSim (sim_seed w) (sim_silent w) (sim_keys w) (sim_tts w)
           (path :: sim_files w)).

Definition sim_audio_filepath (cid : Z) (turn : nat) (who : pystr) : M Sim pystr :=
  fun w =>
    (Returned (py "data/audio/" ++ who ++ py "/"
               ++ [N.of_nat (Z.to_nat cid) + 48; 95; N.of_nat turn + 65]%N
               ++ py ".wav"), w).

#[export, refine] Instance sim_world : World Sim := {|
  randbelow := sim_randbelow;
  randbelow_lt := _;
  llm_invoke := sim_llm;
  path_exists := fun w p => bool_decide (p ∈ sim_files w);
  has_api_key := fun w p => bool_decide (p ∈ sim_keys w);
  http_post := sim_http_post;
  store_audio := sim_store_audio;
  turn_already_exists := fun _ _ _ _ => false;
  generate_audio_filepath := sim_audio_filepath;
  stat_size := fun _ w => (Returned 102444%Z, w);
  credential_errors := fun _ => [];
  next_conversation_id := fun _ => 1%Z;
|}.
Proof.
  intros n w Hn. cbn [fst sim_randbelow].
  pose proof (N.mod_upper_bound (sim_seed w / 65536) (N.of_nat n)). lia.
Defined.

(** No API keys, every conversation answered. *)
Definition sim0 : Sim := mkSim 20250101%N [] [] (fun _ => 200%Z) [].

(** A fresh run in the simulated world, and the states after a first call
    for conversation 7 and a further call for conversation 8. *)
Definition run0 : Run Sim := mkRun sim0 ∅ ∅ (fun _ => false) [].

Definition run1 : Run Sim := (assign_speakers 7 (py "Ayşe") run0).2.

Definition run2 : Run Sim :=
  (run_call SpeakerManager (CallSpeakerId 8 user None) run1).2.

Definition voices7 : pystr * pystr :=
  (py "agent_female_003", py "user_male_002").

(** Both keys are set; ElevenLabs answers 429, Google Cloud TTS 200. *)
Definition sim_quota : Sim :=
  mkSim 20250101%N [] [ElevenLabs; GoogleCloud]
        (fun p => match p with ElevenLabs => 429%Z | _ => 200%Z end) [].

(** The same world once the audio file of the sample turn is stored. *)
Definition sim_quota_stored : Sim :=
  mkSim 20250101%N [] [ElevenLabs; GoogleCloud]
        (fun p => match p with ElevenLabs => 429%Z | _ => 200%Z end)
        [sample_path].

Definition run_quota : Run Sim :=
  mkRun sim_quota ∅ ∅ (_check_providers sim_quota) [].

(** Both keys are set and both services answer with an error. *)
Definition sim_down : Sim :=
  mkSim 20250101%N [] [ElevenLabs; GoogleCloud] (fun _ => 503%Z) [].

Definition run_down : Run Sim :=
  mkRun sim_down ∅ ∅ (_check_providers sim_down) [].

Definition sample_speaker : pystr := Eval vm_compute in py "agent_female_001".

Definition sample_google_result : AudioResult :=
  audio_success (estimated_duration sample_transcript 0.09) 102444
                google_cloud (py "high").

(** The model answers conversations 2 and 5 without JSON. *)
Definition sim_two_silent : Sim :=
  mkSim 20250101%N [2; 5]%Z [] (fun _ => 200%Z) [].

(** A run of the text-only generator in that world. *)
Definition text_final : Run Sim :=
  (generate TextOnly repo_config sim_two_silent).2.

Definition text_output : Output :=
  match (generate TextOnly repo_config sim_two_silent).1 with
  | Returned (Some out) => out
  | _ => mkOutput [] [] [] 0
  end.

(* ===================================================================== *)
(** ** What the validators check, turn by turn *)
(* ===================================================================== *)

(** The transcript check of [validate_text_conversation]. *)
Definition text_length_ok (turn : Turn) : Prop :=
  (15 <= transcript_len turn <= 300)%nat.

(** The per-turn checks of [validate_conversation_with_audio] other than
    the role: the audio file exists, the duration is present and not
    [<= 0], the transcript has 20 to 200 characters. *)
Definition audio_turn_ok (exists_ : pystr -> bool) (turn : Turn) : Prop :=
  exists_ (default [] (audio_filepath turn)) = true
  /\ (exists d, audio_duration turn = Some d /\ PrimFloat.leb d 0 = false)
  /\ (20 <= transcript_len turn <= 200)%nat.


(** A configuration whose range admits short histories. *)
Definition short_config : Config :=
  mkConfig 10 0 16 20 200 3 (SCENARIO_WEIGHTS repo_config) (7 # 10) (9 # 10).

(* ===================================================================== *)
(** ** Turn instructions ([get_turn_instruction]) *)
(* ===================================================================== *)

Record ScenarioInfo := mkScenarioInfo {
  sc_description : pystr;
  sc_flow : pystr;
  sc_common_intents : list pystr;
  sc_typical_duration : pystr;
}.

Definition billing_dispute : pystr := Eval vm_compute in py "billing_dispute".
Definition technical_support : pystr := Eval vm_compute in py "technical_support".
Definition package_change : pystr := Eval vm_compute in py "package_change".
Definition roaming_inquiry : pystr := Eval vm_compute in py "roaming_inquiry".
Definition account_management : pystr :=
  Eval vm_compute in py "account_management".
Definition solution : pystr := Eval vm_compute in py "solution".
Definition options_presentation : pystr :=
  Eval vm_compute in py "options_presentation".

(** The dictionary, in the order of its keys. *)
Definition TELECOM_SCENARIOS : list (pystr * ScenarioInfo) :=
  [ (billing_dispute,
     mkScenarioInfo
       (py "Fatura itirazı ve ödeme sorunları")
       (py "Müşteri fatura hatası bildiriyor → Ajan bilgi topluyor → Çözüm sunuyor")
       [complaint; info_request; info_provide; solution]
       (py "8-12 turns"));
    (technical_support,
     mkScenarioInfo
       (py "İnternet ve teknik destek sorunları")
       (py "Müşteri teknik sorun bildiriyor → Ajan troubleshooting → Çözüm/teknisyen")
       [complaint; info_request; solution; confirmation]
       (py "10-16 turns"));
    (package_change,
     mkScenarioInfo
       (py "Paket değişikliği ve yükseltme talepleri")
       (py "Müşteri paket değişikliği istiyor → Ajan seçenekleri sunuyor → Onay")
       [info_request; options_presentation; confirmation]
       (py "6-10 turns"));
    (roaming_inquiry,
     mkScenarioInfo
       (py "Roaming ve yurtdışı kullanım sorguları")
       (py "Müşteri roaming bilgisi istiyor → Ajan tarife/paket bilgisi → Aktivasyon")
       [info_request; info_provide; confirmation]
       (py "6-8 turns"));
    (account_management,
     mkScenarioInfo
       (py "Hesap yönetimi ve genel bilgi talepleri")
       (py "Müşteri hesap bilgisi istiyor → Ajan bilgi sağlıyor → İşlem tamamlama")
       [info_request; info_provide; confirmation]
       (py "6-10 turns")) ].

(** [TELECOM_SCENARIOS[scenario_name]] *)
Fixpoint scenario_info_of (table : list (pystr * ScenarioInfo)) (name : pystr)
  : pyresult ScenarioInfo :=
  match table with
  | [] => Raised KeyError
  | (k, info) :: rest =>
    if bool_decide (k = name) then Returned info else scenario_info_of rest name
  end.

(** [last_turn.get('intent')] for [last_turn = history[-1] if history else {}] *)
Definition last_intent (history : list Turn) : option json :=
  match rev history with
  | [] => None
  | turn :: _ => intent turn
  end.

(** [last_turn.get('intent') == name] *)
Definition last_intent_is (history : list Turn) (name : pystr) : bool :=
  match last_intent history with
  | Some v => is_str v name
  | None => false
  end.

(** The instruction texts. *)
Definition greeting_instruction (agent_name : pystr) : pystr :=
  py "Sen " ++ agent_name
  ++ pyq " adındaki ajansın. Sıcak bir selamlama yap ve nasıl yardımcı olabileceğini sor. Intent: 'greeting'".
Definition closing_instruction : pystr :=
  pyq "Sen ajansın. Sorunu çözdün, nazikçe görüşmeyi sonlandır. Intent: 'closing'".
Definition thanks_instruction : pystr :=
  pyq "Sen kullanıcısın. Ajana teşekkür et. Intent: 'thanks'".
Definition billing_request_instruction : pystr :=
  pyq "Fatura detaylarını öğrenmek için bilgi iste. Intent: 'info_request'".
Definition billing_solution_instruction : pystr :=
  pyq "Soruna çözüm öner (iade, düzeltme vb.). Intent: 'solution'".
Definition technical_request_instruction : pystr :=
  pyq "Teknik detayları öğrenmek için soru sor. Intent: 'info_request'".
Definition technical_solution_instruction : pystr :=
  pyq "Teknik çözüm öner (reset, teknisyen vb.). Intent: 'solution'".
Definition more_information_instruction : pystr :=
  pyq "Daha fazla bilgi toplamak için soru sor. Intent: 'info_request'".
Definition process_information_instruction : pystr :=
  pyq "Bilgiyi işle ve uygun yanıt ver. Intent: 'info_provide' veya 'solution'".
Definition agent_default_instruction : pystr :=
  py "Görüşmeyi ilerletmek için uygun yanıt ver.".
Definition describe_problem_instruction : pystr :=
  pyq "Sorununuzu açıklayın. Intent: 'complaint'".
Definition state_need_instruction : pystr :=
  pyq "Neye ihtiyacınız olduğunu belirtin. Intent: 'info_request'".
Definition provide_information_instruction : pystr :=
  pyq "İstenen bilgiyi sağlayın. Intent: 'info_provide'".
Definition accept_solution_instruction : pystr :=
  pyq "Önerilen çözümü kabul edin veya soru sorun. Intent: 'confirmation' veya 'info_request'".
Definition user_default_instruction : pystr :=
  py "Doğal şekilde görüşmeye devam edin.".

(** The scenario rules for the agent; [None] when they fall through. *)
Definition agent_scenario_rule (history : list Turn) (turn_number : Z)
  (scenario_name : pystr) : option pystr :=
  if bool_decide (scenario_name = billing_dispute) then
    if last_intent_is history complaint then Some billing_request_instruction
    else if last_intent_is history info_provide && (4 <? turn_number)%Z
    then Some billing_solution_instruction
    else None
  else if bool_decide (scenario_name = technical_support) then
    if last_intent_is history complaint then Some technical_request_instruction
    else if last_intent_is history info_provide && (4 <? turn_number)%Z
    then Some technical_solution_instruction
    else None
  else None.

(** The function is the same in both generators. *)
Definition get_turn_instruction (who : pystr) (history : list Turn)
  (total_turns turn_number : Z) (scenario_name agent_name : pystr)
  : pyresult pystr :=
  scenario_info ← scenario_info_of TELECOM_SCENARIOS scenario_name;
  if (turn_number =? 1)%Z then Returned (greeting_instruction agent_name)
  else if (turn_number =? total_turns - 1)%Z then Returned closing_instruction
  else if (turn_number =? total_turns)%Z then Returned thanks_instruction
  else if bool_decide (who = agent) then
    match agent_scenario_rule history turn_number scenario_name with
    | Some instruction => Returned instruction
    | None =>
      if last_intent_is history complaint || last_intent_is history info_request
      then Returned more_information_instruction
      else if last_intent_is history info_provide
      then Returned process_information_instruction
      else Returned agent_default_instruction
    end
  else
    if last_intent_is history greeting then
      if bool_decide (scenario_name = billing_dispute)
         || bool_decide (scenario_name = technical_support)
      then Returned describe_problem_instruction
      else Returned state_need_instruction
    else if last_intent_is history info_request
    then Returned provide_information_instruction
    else if last_intent_is history solution
            || last_intent_is history options_presentation
    then Returned accept_solution_instruction
    else Returned user_default_instruction.

(** An instruction that asks for one intent ends with [Intent: "name"]. *)
Definition asks_for (instruction name : pystr) : bool :=
  endswith instruction (pyq "Intent: '" ++ name ++ pyq "'").

(** A turn that is neither the first nor one of the last two. *)
Definition middle_turn (total_turns turn_number : Z) : Prop :=
  turn_number <> 1%Z /\ turn_number <> (total_turns - 1)%Z
  /\ turn_number <> total_turns.

(** The history after the user's complaint in turn 2. *)
Definition two_turns : list Turn :=
  [ sample_turn 1 agent greeting; sample_turn 2 user complaint ].

(** The history after the user has provided information in turn 4. *)
Definition four_turns_informed : list Turn :=
  [ sample_turn 1 agent greeting; sample_turn 2 user complaint;
    sample_turn 3 agent info_request; sample_turn 4 user info_provide ].


(** A configuration without scenarios. *)
Definition empty_config : Config :=
  mkConfig 3 8 16 20 200 3 [] (7 # 10) (9 # 10).

(* ===================================================================== *)
(** ** The conversations of an output *)
(* ===================================================================== *)

(** A history of conversation [cid] that the text-only validator accepts. *)
Definition good_history (cfg : Config) (cid : Z) (history : list Turn) : Prop :=
  rows_of cid history
  /\ validate_text_conversation cfg history = Returned Pass.

Definition good_result (cfg : Config) (cid : Z) (result : option (list Turn))
  : Prop :=
  match result with
  | Some history => good_history cfg cid history
  | None => True
  end.

(** The rows of one conversation, in file order. *)
Definition rows_with (cid : Z) (rows : list Turn) : list Turn :=
  filter (fun row => conversation_id row = cid) rows.

(** [row['role'] == 'agent'] *)
Definition is_agent_row (row : Turn) : Prop := role row = Some agent.

#[export] Instance is_agent_row_dec row : Decision (is_agent_row row).
Proof. unfold is_agent_row. apply _. Defined.

(** [picks] are the accepted histories with their indices [conv_idx], in
    the order of the loop. *)
Definition picked_from (cfg : Config) (start : Z) (conv_idxs : list nat)
  (picks : list (nat * list Turn)) : Prop :=
  map fst picks `sublist_of` conv_idxs
  /\ Forall (fun pick => good_history cfg (start + Z.of_nat pick.1) pick.2) picks.

(** The output holds the histories [picks] and nothing else. *)
Definition made_of (picks : list (nat * list Turn)) (out : Output) : Prop :=
  manifest_rows out = concat (map snd picks)
  /\ asr_rows out = manifest_rows out
  /\ tts_rows out = filter is_agent_row (manifest_rows out)
  /\ successful_conversations out = length picks.

(* ===================================================================== *)
(** ** Results of the speech chain *)
(* ===================================================================== *)

(** A success dictionary of one of the two providers the chain uses. *)
Definition provider_success (text : pystr) (r : AudioResult) : Prop :=
  (exists size, r = audio_success (estimated_duration text 0.08) size
                                  elevenlabs (py "very_high"))
  \/ (exists size, r = audio_success (estimated_duration text 0.09) size
                                     google_cloud (py "high")).

(** Both keys are set and both services answer 200. *)
Definition sim_up : Sim :=
  mkSim 20250101%N [] [ElevenLabs; GoogleCloud] (fun _ => 200%Z) [].

Definition run_up : Run Sim := mkRun sim_up ∅ ∅ (_check_providers sim_up) [].

Definition sample_elevenlabs_result : AudioResult :=
  audio_success (estimated_duration sample_transcript 0.08) 102444
                elevenlabs (py "very_high").

(** What a link of the chain leaves: the provider table is untouched and
    an early return carries a success dictionary. *)
Definition link_outcome {W} (text : pystr) (st : Run W)
  (outcome : option AudioResult) (st1 : Run W) : Prop :=
  providers_status st1 = providers_status st
  /\ match outcome with
     | Some r => provider_success text r
     | None => True
     end.

(* ===================================================================== *)
(** ** What the speaker dictionaries hold *)
(* ===================================================================== *)

(** The voices a user can get. *)
Definition user_voices : list pystr :=
  voices_with_prefix (py "user_male_") ++ voices_with_prefix (py "user_female_").

(** A pair a manager may record for conversation [cid] under the agent
    name [name]. *)
Definition pair_ok (cls : ManagerClass) (cid : Z) (name : pystr)
  (voices : pystr * pystr) : Prop :=
  match cls with
  | SpeakerManager =>
    voices.1 ∈ agent_pool (get_gender_from_name name)
    /\ voices.2 ∈ user_voices
  | TextOnlySpeakerManager =>
    voices.1 = py "agent_" ++ get_gender_from_name name ++ py "_"
               ++ format_03d cid
    /\ (voices.2 = py "user_" ++ male ++ py "_" ++ format_03d cid
        \/ voices.2 = py "user_" ++ female ++ py "_" ++ format_03d cid)
  end.

(** Every conversation with speakers has a recorded agent name, and its
    speakers fit that name. *)
Definition consistent {W} (cls : ManagerClass) (st : Run W) : Prop :=
  forall cid voices,
    conversation_speakers st !! cid = Some voices ->
    exists name,
      conversation_agent_names st !! cid = Some name
      /\ pair_ok cls cid name voices.

(* ===================================================================== *)
(** ** The histories the text-only turn loop builds *)
(* ===================================================================== *)

(** Row [i] (counted from 0) of a history of conversation [cid]. *)
Definition text_row_ok (cid : Z) (name scenario : pystr) (i : nat)
  (turn : Turn) : Prop :=
  conversation_id turn = cid
  /\ role turn = Some (role_of_turn (S i))
  /\ turn_number_of turn = Some (S i)
  /\ agent_name_of turn = Some name
  /\ scenario_of turn = Some scenario
  /\ is_Some (intent turn)
  /\ is_Some (transcript turn)
  /\ audio_filepath turn = None.

Definition text_history_ok (cid : Z) (name scenario : pystr)
  (history : list Turn) : Prop :=
  forall i turn, history !! i = Some turn ->
    text_row_ok cid name scenario i turn.

(** Six turns of conversation 1 in the simulated world. *)
Definition sample_text_history : list Turn :=
  match (text_turns 6 1 1 (py "Ayşe") billing_dispute 6 [] run0).1 with
  | Returned (_, history) => history
  | Raised _ => []
  end.

(** A configuration with an odd maximum. *)
Definition odd_config : Config :=
  mkConfig 10 6 15 20 200 3 (SCENARIO_WEIGHTS repo_config) (7 # 10) (9 # 10).

(** A configuration with an empty range of turns. *)
Definition reversed_config : Config :=
  mkConfig 10 16 6 20 200 3 (SCENARIO_WEIGHTS repo_config) (7 # 10) (9 # 10).

(** The labels drawn for the shipped configuration in the simulated
    world. *)
Definition sample_labels : list pystr :=
  match (get_scenario_distribution repo_config sim0).1 with
  | Returned labels => labels
  | Raised _ => []
  end.

(* ===================================================================== *)
(** ** The data files: conversation ids, audio paths, recorded turns *)
(* ===================================================================== *)

Module Files.

(** A text file as the lines its iteration yields, each with its line
    terminator; [None] is a path that does not exist.  The files are taken
    to be readable and valid UTF-8. *)
Definition FileSystem := pystr -> option (list pystr).

(** A Python number: an [int] (or a [bool]) or a [float]. *)
Inductive pynum :=
| PInt (z : Z)
| PFloat (f : float).

(** The order between a [float] and an [int], which Python decides
    exactly; [None] for NaN. *)
Definition float_compare_Z (f : float) (z : Z) : option comparison :=
  match Prim2SF f with
  | S754_nan => None
  | S754_infinity s => Some (if s then Lt else Gt)
  | S754_zero _ => Some (0 ?= z)%Z
  | S754_finite s m e =>
    let sm := if s then Z.neg m else Z.pos m in
    Some (if (0 <=? e)%Z then (sm * 2 ^ e ?= z)%Z
          else (sm ?= z * 2 ^ (- e))%Z)
  end.

(** [b > a] *)
Definition num_gt (b a : pynum) : bool :=
  match b, a with
  | PInt y, PInt x => (x <? y)%Z
  | PFloat g, PFloat f => PrimFloat.ltb f g
  | PFloat g, PInt x =>
    match float_compare_Z g x with Some Gt => true | _ => false end
  | PInt y, PFloat f =>
    match float_compare_Z f y with Some Lt => true | _ => false end
  end.

(** [n + 1] *)
Definition num_succ (n : pynum) : pynum :=
  match n with
  | PInt z => PInt (z + 1)
  | PFloat f => PFloat (PrimFloat.add f 1)
  end.

Definition conversation_id_key : pystr :=
  Eval vm_compute in py "conversation_id".
Definition role_key : pystr := Eval vm_compute in py "role".
Definition audio_filepath_key : pystr := Eval vm_compute in py "audio_filepath".

(** [data.get(key, dflt)] on whatever [json.loads] returned. *)
Definition get_field (data : json) (key : pystr) (dflt : json) : pyresult json :=
  match data with
  | JObj members => Returned (default dflt (dict_get members key))
  | _ => Raised AttributeError
  end.

(** [f"{z:0{width}d}"]: at least [width] characters, padded with zeros
    after the sign. *)
Definition format_0d (width : nat) (z : Z) : pystr :=
  let digits := str_of_N (Z.abs_N z) in
  if (z <? 0)%Z
  then 45%N :: replicate (width - 1 - length digits) 48%N ++ digits
  else replicate (width - length digits) 48%N ++ digits.

(** [needle in hay] for a [str] needle: a substring of a string, an item
    of a list, a key of a dictionary; other values are not iterable. *)
Definition str_in (needle : pystr) (hay : json) : pyresult bool :=
  match hay with
  | JStr s => Returned (contains s needle)
  | JArr items => Returned (existsb (fun item => is_str item needle) items)
  | JObj members => Returned (bool_decide (is_Some (dict_get members needle)))
  | _ => Raised TypeError
  end.

Section Numbers.

(** [float(lexeme)], as [json.loads] computes it. *)
Variable float_of_lexeme : pystr -> float.

(** The operand of a comparison with a number; other values raise
    [TypeError]. *)
Definition as_number (v : json) : pyresult pynum :=
  match v with
  | JInt z => Returned (PInt z)
  | JBool b => Returned (PInt (Z.b2z b))
  | JFloat lexeme => Returned (PFloat (float_of_lexeme lexeme))
  | _ => Raised TypeError
  end.

(** [max(max_id, v)]: [v] when [v > max_id], otherwise [max_id]. *)
Definition py_max (max_id : pynum) (v : json) : pyresult pynum :=
  n ← as_number v;
  Returned (if num_gt n max_id then n else max_id).

(** [v == z] for an [int] [z]. *)
Definition eq_int (v : json) (z : Z) : bool :=
  match v with
  | JInt y => (y =? z)%Z
  | JBool b => (Z.b2z b =? z)%Z
  | JFloat lexeme =>
    match float_compare_Z (float_of_lexeme lexeme) z with
    | Some Eq => true
    | _ => false
    end
  | _ => false
  end.

(** *** [get_next_conversation_id] and [get_next_text_conversation_id] *)

(** [for line in f]: the body of the [with] block.  The result is the
    value of [max_id] when the loop is left: at the end of the file, or at
    a line that raises [JSONDecodeError], which the [except] clause answers
    with [continue].  Other exceptions propagate. *)
Fixpoint scan_lines (lines : list pystr) (max_id : pynum) : pyresult pynum :=
  match lines with
  | [] => Returned max_id
  | line :: rest =>
    if bool_decide (strip line = []) then scan_lines rest max_id
    else
      match Json.loads line with
      | None => Returned max_id
      | Some data =>
        v ← get_field data conversation_id_key (JInt 0);
        max_id' ← py_max max_id v;
        scan_lines rest max_id'
      end
  end.

(** [for file_path in data_paths: if file_path.exists(): ...] *)
Fixpoint scan_files (fs : FileSystem) (data_paths : list pystr)
  (max_id : pynum) : pyresult pynum :=
  match data_paths with
  | [] => Returned max_id
  | file_path :: rest =>
    match fs file_path with
    | None => scan_files fs rest max_id
    | Some lines =>
      max_id' ← scan_lines lines max_id;
      scan_files fs rest max_id'
    end
  end.

(** The body shared by the two functions. *)
Definition next_id (fs : FileSystem) (data_paths : list pystr)
  : pyresult pynum :=
  max_id ← scan_files fs data_paths (PInt 0);
  Returned (num_succ max_id).

(** [data_paths] of [get_next_conversation_id]; [OUT_DIR] is [data]. *)
Definition main_data_paths : list pystr :=
  map py
    [ "data/training_manifest_with_audio.jsonl";
      "data/asr_training_data_with_audio.jsonl";
      "data/tts_training_data_with_audio.jsonl";
      "data/text_only/text_conversations.jsonl";
      "data/text_only/text_asr_data.jsonl";
      "data/text_only/text_tts_data.jsonl" ]%string.

(** The three paths only [get_next_text_conversation_id] looks at. *)
Definition outputs_data_paths : list pystr :=
  map py
    [ "data/outputs/training_manifest_with_audio.jsonl";
      "data/outputs/asr_training_data_with_audio.jsonl";
      "data/outputs/tts_training_data_with_audio.jsonl" ]%string.

(** [data_paths] of [get_next_text_conversation_id]. *)
Definition text_data_paths : list pystr :=
  map py
    [ "data/outputs/training_manifest_with_audio.jsonl";
      "data/outputs/asr_training_data_with_audio.jsonl";
      "data/outputs/tts_training_data_with_audio.jsonl";
      "data/training_manifest_with_audio.jsonl";
      "data/asr_training_data_with_audio.jsonl";
      "data/tts_training_data_with_audio.jsonl";
      "data/text_only/text_conversations.jsonl";
      "data/text_only/text_asr_data.jsonl";
      "data/text_only/text_tts_data.jsonl" ]%string.

Definition get_next_conversation_id (fs : FileSystem) : pyresult pynum :=
  next_id fs main_data_paths.

Definition get_next_text_conversation_id (fs : FileSystem) : pyresult pynum :=
  next_id fs text_data_paths.

(** *** [check_turn_already_exists] *)

(** [f"_{turn_number:02d}_"] *)
Definition turn_marker (turn_number : nat) : pystr :=
  py "_" ++ format_0d 2 (Z.of_nat turn_number) ++ py "_".

(** The condition of the [if] in the loop, with the short circuits of
    [and]. *)
Definition row_matches (cid : Z) (turn_number : nat) (who : pystr)
  (data : json) : pyresult bool :=
  c ← get_field data conversation_id_key JNull;
  if negb (eq_int c cid) then Returned false else
  r ← get_field data role_key JNull;
  if negb (is_str r who) then Returned false else
  p ← get_field data audio_filepath_key (JStr []);
  str_in (turn_marker turn_number) p.

(** The loop over the lines of the manifest; a line that raises
    [JSONDecodeError] ends it and [False] is returned. *)
Fixpoint check_lines (lines : list pystr) (cid : Z) (turn_number : nat)
  (who : pystr) : pyresult bool :=
  match lines with
  | [] => Returned false
  | line :: rest =>
    if bool_decide (strip line = []) then check_lines rest cid turn_number who
    else
      match Json.loads line with
      | None => Returned false
      | Some data =>
        hit ← row_matches cid turn_number who data;
        if (hit : bool) then Returned true
        else check_lines rest cid turn_number who
      end
  end.

Definition manifest_path : pystr :=
  Eval vm_compute in py "data/training_manifest_with_audio.jsonl".

Definition check_turn_already_exists (fs : FileSystem) (cid : Z)
  (turn_number : nat) (who : pystr) : pyresult bool :=
  match fs manifest_path with
  | None => Returned false
  | Some lines => check_lines lines cid turn_number who
  end.

End Numbers.

(** *** [generate_audio_filepath] *)

(** [f"{conversation_id:04d}_{turn_number:02d}"] *)
Definition base_filename (cid : Z) (turn_number : nat) : pystr :=
  format_0d 4 cid ++ py "_" ++ format_0d 2 (Z.of_nat turn_number).

(** A name matches the pattern [prefix*suffix]. *)
Definition glob_match (prefix suffix name : pystr) : bool :=
  startswith name prefix && endswith name suffix
  && (length prefix + length suffix <=? length name)%nat.

(** [listdir] gives the names in a directory in the order [glob] yields
    them (none for a directory that does not exist); [timestamp] and
    [unique_id] are what the clock and [uuid4] give.  The role is a single
    path component, as the two roles of the generators are, so that
    [pathlib] joins the directory and the name with one slash. *)
Definition generate_audio_filepath (listdir : pystr -> list pystr)
  (timestamp unique_id : pystr) (cid : Z) (turn_number : nat) (who : pystr)
  : pystr :=
  let base := base_filename cid turn_number in
  let audio_dir := py "data/audio/" ++ who in
  match List.filter (glob_match (base ++ py "_") (py ".wav"))
                    (listdir audio_dir) with
  | first :: _ => audio_dir ++ py "/" ++ first
  | [] =>
    audio_dir ++ py "/" ++ base ++ py "_" ++ timestamp ++ py "_" ++ unique_id
    ++ py ".wav"
  end.

(** The function and the paths of each generator. *)
Definition data_paths_of (g : Generator) : list pystr :=
  match g with
  | TextOnly => text_data_paths
  | WithAudio => main_data_paths
  end.

Definition next_id_of (float_of_lexeme : pystr -> float) (g : Generator)
  : FileSystem -> pyresult pynum :=
  match g with
  | TextOnly => get_next_text_conversation_id float_of_lexeme
  | WithAudio => get_next_conversation_id float_of_lexeme
  end.

(** *** What the theorems say about the files *)

(** The line is a row with the integer id [z]. *)
Definition id_line (line : pystr) (z : Z) : Prop :=
  strip line <> []
  /\ exists members,
       Json.loads line = Some (JObj members)
       /\ dict_get members conversation_id_key = Some (JInt z).

(** A line the id scan passes without stopping or raising: a blank line,
    or an object whose id is absent or an integer. *)
Definition plain_line (line : pystr) : Prop :=
  strip line = []
  \/ exists members,
       Json.loads line = Some (JObj members)
       /\ (dict_get members conversation_id_key = None
           \/ exists z, dict_get members conversation_id_key = Some (JInt z)).

Definition plain_files (fs : FileSystem) (data_paths : list pystr) : Prop :=
  forall file_path lines,
    file_path ∈ data_paths -> fs file_path = Some lines ->
    Forall plain_line lines.

(** Some line of some listed file is a row with the id [z]. *)
Definition id_in_files (fs : FileSystem) (data_paths : list pystr) (z : Z)
  : Prop :=
  exists file_path lines line,
    file_path ∈ data_paths /\ fs file_path = Some lines
    /\ line ∈ lines /\ id_line line z.

(** The file system with one file cut down to [lines]. *)
Definition with_file (fs : FileSystem) (file_path : pystr) (lines : list pystr)
  : FileSystem :=
  fun p => if bool_decide (p = file_path) then Some lines else fs p.

(** A line the turn check passes without stopping or raising. *)
Definition quiet_line (float_of_lexeme : pystr -> float) (cid : Z)
  (turn_number : nat) (who : pystr) (line : pystr) : Prop :=
  strip line = []
  \/ exists data hit,
       Json.loads line = Some data
       /\ row_matches float_of_lexeme cid turn_number who data = Returned hit.

(** A manifest row of the conversation and role with the audio path
    [path]. *)
Definition row_for (cid : Z) (who path : pystr) (data : json) : Prop :=
  exists members,
    data = JObj members
    /\ dict_get members conversation_id_key = Some (JInt cid)
    /\ dict_get members role_key = Some (JStr who)
    /\ dict_get members audio_filepath_key = Some (JStr path).

(** Sample files. *)
Definition row_line (cid : string) : pystr :=
  pyq "{'conversation_id': " ++ py cid ++ pyq ", 'role': 'agent'}
".

Definition sample_fs : FileSystem :=
  fun p =>
    if bool_decide (p = py "data/training_manifest_with_audio.jsonl")
    then Some [row_line "3"; row_line "4"]
    else if bool_decide (p = py "data/text_only/text_conversations.jsonl")
    then Some [row_line "7"; py "
"; pyq "{'role': 'user'}"]
    else None.

(** The text manifest with a malformed line before the last row. *)
Definition broken_fs : FileSystem :=
  fun p =>
    if bool_decide (p = py "data/text_only/text_conversations.jsonl")
    then Some [row_line "7"; py "{oops"; row_line "9"]
    else None.

(** Python's [float] is not needed for these files. *)
Definition no_floats : pystr -> float := fun _ => 0%float.

Definition sample_names (dir : pystr) : list pystr :=
  if bool_decide (dir = py "data/audio/agent")
  then [py "0001_03_20250101_120500_aa11bb22.wav";
        py "0001_01_20250101_120000_ab12cd34.wav"]
  else [].

Definition sample_row : json :=
  JObj [(conversation_id_key, JInt 1); (role_key, JStr agent);
        (audio_filepath_key, JStr sample_path)].

(** The directory once the file of turn 2 is stored. *)
Definition stored_names (dir : pystr) : list pystr :=
  if bool_decide (dir = py "data/audio/agent")
  then [py "0001_03_20250101_120500_aa11bb22.wav";
        py "0001_02_20250101_120100_cafe0001.wav";
        py "0001_01_20250101_120000_ab12cd34.wav"]
  else [].

(** The manifest line of [sample_row]. *)
Definition sample_manifest_line : pystr :=
  pyq "{'conversation_id': 1, 'role': 'agent', 'audio_filepath': 'data/audio/agent/0001_01_20250101_120000_ab12cd34.wav'}
".

Definition manifest_fs : FileSystem :=
  fun p =>
    if bool_decide (p = manifest_path)
    then Some [row_line "3"; sample_manifest_line; row_line "4"]
    else None.

(** The same row after a malformed line. *)
Definition broken_manifest_fs : FileSystem :=
  fun p =>
    if bool_decide (p = manifest_path)
    then Some [row_line "3"; py "{oops"; sample_manifest_line]
    else None.

End Files.

Lemma is_str_true v s : is_str v s = true <-> v = JStr s.
Proof.
  destruct v; simpl; try (split; [discriminate | congruence]).
  rewrite bool_decide_eq_true. split; congruence.
Qed.

Lemma agent_neq_user : agent <> user.
Proof. discriminate. Qed.

Lemma expected_role_even i :
  expected_role i = if Nat.even i then agent else user.
Proof.
  unfold expected_role.
  replace (i + 1)%nat with (S i) by lia.
  destruct (Nat.even i) eqn:E.
  - apply Nat.even_spec in E. destruct E as [k ->].
    replace (S (2 * k)) with (1 + k * 2)%nat by lia.
    rewrite Nat.Div0.mod_add. reflexivity.
  - assert (O : Nat.odd i = true) by (rewrite <- Nat.negb_even, E; reflexivity).
    apply Nat.odd_spec in O. destruct O as [k ->].
    replace (S (2 * k + 1)) with (0 + (k + 1) * 2)%nat by lia.
    rewrite Nat.Div0.mod_add. reflexivity.
Qed.

Lemma neg_index_2 {A} (l : list A) x :
  neg_index l 2 = Returned x -> exists front y, l = front ++ [x; y].
Proof.
  unfold neg_index. simpl.
  destruct (rev l) as [|y [|z r]] eqn:E; simpl; try discriminate.
  intros [= ->]. exists (rev r), y.
  rewrite <- (rev_involutive l), E. simpl.
  rewrite <- app_assoc. reflexivity.
Qed.

Lemma subscript_returned {A} (f : option A) x :
  subscript f = Returned x -> f = Some x.
Proof. destruct f; simpl; congruence. Qed.

Ltac bind_case H :=
  match type of H with
  | (mbind _ ?m = _) =>
    let E := fresh "E" in
    destruct m eqn:E; simpl in H; [|discriminate H]
  | ((if ?b then _ else _) = _) =>
    let E := fresh "E" in
    destruct b eqn:E; simpl in H; [try discriminate H|try discriminate H]
  end.

Lemma check_ending_pass history :
  check_ending history = Returned Pass -> proper_ending history.
Proof.
  unfold check_ending. intros H.
  bind_case H. bind_case H. bind_case H. bind_case H. bind_case H.
  bind_case H. bind_case H. bind_case H. bind_case H. bind_case H.
  apply neg_index_2 in E as (front & y & ->).
  unfold neg_index in E4. rewrite rev_app_distr in E4. simpl in E4.
  injection E4 as <-.
  apply subscript_returned in E0, E2, E5, E7.
  apply negb_false_iff, bool_decide_eq_true in E1, E6. subst.
  apply negb_false_iff, is_str_true in E3.
  apply negb_false_iff, orb_true_iff in E8.
  exists front, a, y. repeat split; try congruence.
  destruct E8 as [E8|E8]; apply is_str_true in E8; [left|right]; congruence.
Qed.

Lemma text_turn_loop_pass turns k : forall i,
  text_turn_loop i turns k = Returned Pass ->
  k = Returned Pass
  /\ forall j turn, turns !! j = Some turn ->
       role turn = Some (expected_role (i + j))
       /\ (15 <= transcript_len turn <= 300)%nat.
Proof.
  induction turns as [|t rest IH]; intros i H; [done|].
  simpl in H. bind_case H. bind_case H. bind_case H.
  apply subscript_returned in E.
  apply negb_false_iff, bool_decide_eq_true in E0.
  apply orb_false_iff in E1 as [L1 L2].
  apply Nat.ltb_ge in L1, L2.
  destruct (IH _ H) as [-> IHr]. split; [done|].
  intros [|j] turn Hj; simpl in Hj.
  - injection Hj as <-. rewrite Nat.add_0_r. split; [congruence|lia].
  - replace (i + S j)%nat with (S i + j)%nat by lia. eauto.
Qed.

Lemma audio_turn_loop_pass exists_ turns k : forall i,
  audio_turn_loop exists_ i turns k = Returned Pass ->
  k = Returned Pass
  /\ forall j turn, turns !! j = Some turn ->
       role turn = Some (expected_role (i + j))
       /\ (20 <= transcript_len turn <= 200)%nat
       /\ exists_ (default [] (audio_filepath turn)) = true
       /\ exists d, audio_duration turn = Some d /\ PrimFloat.leb d 0 = false.
Proof.
  induction turns as [|t rest IH]; intros i H; [done|].
  simpl in H. bind_case H. bind_case H. bind_case H.
  destruct (audio_duration t) as [d|] eqn:D; [|discriminate].
  bind_case H. bind_case H.
  apply subscript_returned in E.
  apply negb_false_iff, bool_decide_eq_true in E0.
  apply negb_false_iff in E1.
  apply orb_false_iff in E3 as [L1 L2].
  apply Nat.ltb_ge in L1, L2.
  destruct (IH _ H) as [-> IHr]. split; [done|].
  intros [|j] turn Hj; simpl in Hj.
  - injection Hj as <-. rewrite Nat.add_0_r.
    repeat split; [congruence|lia|lia|done|eauto].
  - replace (i + S j)%nat with (S i + j)%nat by lia. eauto.
Qed.

(** Alternation, the user's final turn and the turn-count bounds give the
    whole structure. *)
Lemma well_formed_intro cfg history :
  turn_count_ok cfg (length history) = true ->
  (forall j turn, history !! j = Some turn ->
     role turn = Some (expected_role j)) ->
  proper_ending history ->
  well_formed cfg history.
Proof.
  intros Hn Hroles Hend.
  apply andb_true_iff in Hn as [Hmin Hmax].
  apply Z.leb_le in Hmin, Hmax.
  split; try assumption.
  - intros i turn Hi. rewrite <- expected_role_even. eauto.
  - destruct Hend as (front & t2 & t1 & -> & _ & _ & R1 & _).
    specialize (Hroles (S (length front)) t1).
    rewrite lookup_app_r in Hroles; [|lia].
    replace (S (length front) - length front)%nat with 1%nat in Hroles by lia.
    specialize (Hroles eq_refl).
    rewrite expected_role_even, R1 in Hroles.
    rewrite length_app. simpl.
    replace (length front + 2)%nat with (S (S (length front))) by lia.
    rewrite Nat.even_succ_succ.
    rewrite Nat.even_succ, <- Nat.negb_even in Hroles.
    destruct (Nat.even (length front)); [done|].
    simpl in Hroles. injection Hroles as Hroles. discriminate.
Qed.

Lemma validate_text_conversation_sound cfg history :
  validate_text_conversation cfg history = Returned Pass ->
  well_formed cfg history.
Proof.
  unfold validate_text_conversation. intros H.
  bind_case H. apply negb_false_iff in E.
  apply text_turn_loop_pass in H as [Hend Hturns].
  apply well_formed_intro; [done| |by apply check_ending_pass].
  intros j turn Hj. by apply (Hturns j).
Qed.

Lemma validate_conversation_with_audio_sound cfg exists_ history :
  validate_conversation_with_audio cfg exists_ history = Returned Pass ->
  well_formed cfg history.
Proof.
  unfold validate_conversation_with_audio. intros H.
  bind_case H. apply negb_false_iff in E.
  apply audio_turn_loop_pass in H as [Hend Hturns].
  apply well_formed_intro; [done| |by apply check_ending_pass].
  intros j turn Hj. by apply (Hturns j).
Qed.

(* ===================================================================== *)
(** ** JSON extraction *)
(* ===================================================================== *)

Section BraceSearch.
Context {R : Type}.

(** Past the last closing brace no such continuation succeeds. *)
Lemma star_greedy_no_close (k : pystr -> option R) post :
  close_brace ∉ post -> wants_close k ->
  star_greedy AnyChar post k = None.
Proof.
  intros Hpost [Hnil Hk]. induction post as [|c post IH]; simpl; [done|].
  rewrite IH by (intros ?; apply Hpost; by right).
  apply Hk. intros ->. apply Hpost. by left.
Qed.

(** The greedy star stops at the last closing brace. *)
Lemma star_greedy_last_close (k : pystr -> option R) mid post r :
  close_brace ∉ post -> wants_close k ->
  k (close_brace :: post) = Some r ->
  star_greedy AnyChar (mid ++ close_brace :: post) k = Some r.
Proof.
  intros Hpost Hk Hr. induction mid as [|c mid IH]; simpl.
  - by rewrite star_greedy_no_close.
  - by rewrite IH.
Qed.

End BraceSearch.

Lemma match_here_braces_miss c s :
  c <> open_brace -> match_here re_braces (c :: s) = None.
Proof.
  intros Hc. unfold match_here, re_braces. cbn [rmatch].
  destruct (N.eqb_spec open_brace c); congruence.
Qed.

Lemma match_here_braces_hit mid post :
  close_brace ∉ post ->
  match_here re_braces (open_brace :: mid ++ close_brace :: post)
  = Some (mkMatch (open_brace :: mid ++ [close_brace]) None).
Proof.
  intros Hpost. unfold match_here, re_braces. cbn [rmatch].
  rewrite N.eqb_refl.
  apply star_greedy_last_close; [done| |].
  - split; [done|]. intros c tl Hc.
    destruct (N.eqb_spec close_brace c); congruence.
  - rewrite N.eqb_refl. f_equal. f_equal.
    cbn [length]. rewrite length_app. cbn [length].
    replace (S (length mid + S (length post)) - length post)%nat
      with (S (length mid + 1)) by lia.
    cbn [take]. f_equal.
    replace (close_brace :: post) with ([close_brace] ++ post) by done.
    rewrite app_assoc.
    rewrite take_app_length'; [done|].
    rewrite length_app. simpl. lia.
Qed.

(** [re.search(r'\{.*\}', s)] runs from the first opening brace to the last
    closing brace. *)
Lemma search_braces_span pre mid post :
  open_brace ∉ pre ->
  close_brace ∉ post ->
  search re_braces (pre ++ open_brace :: mid ++ close_brace :: post)
  = Some (mkMatch (open_brace :: mid ++ [close_brace]) None).
Proof.
  intros Hpre Hpost. induction pre as [|c pre IH].
  - cbn [app search]. by rewrite match_here_braces_hit.
  - change ((c :: pre) ++ ?x) with (c :: (pre ++ x)).
    cbn [search]. rewrite match_here_braces_miss.
    + apply IH. intros ?. apply Hpre. by right.
    + intros ->. apply Hpre. by left.
Qed.

(** The text is handed to the decoder from the first opening brace to the
    last closing brace. *)
Lemma clean_and_parse_json_span json_loads pre mid post :
  search re_fenced (pre ++ open_brace :: mid ++ close_brace :: post) = None ->
  open_brace ∉ pre ->
  close_brace ∉ post ->
  clean_and_parse_json_with json_loads
    (pre ++ open_brace :: mid ++ close_brace :: post)
  = if contains (open_brace :: mid ++ [close_brace]) fence_json
    then Raised IndexError
    else Returned (json_loads (open_brace :: mid ++ [close_brace])).
Proof.
  intros Hfenced Hpre Hpost. unfold clean_and_parse_json_with.
  rewrite Hfenced, search_braces_span by done.
  cbn [group0 group_1 group1].
  by destruct (contains _ fence_json).
Qed.

(** C9 (amended): for a text without a fenced block the decoder receives
    the substring from the first opening brace to the last closing brace
    (provided it does not contain the fence marker), and the result is the
    decoder's answer on that whole span. *)
Theorem brace_fallback_is_first_to_last json_loads pre mid post :
  search re_fenced (pre ++ open_brace :: mid ++ close_brace :: post) = None ->
  open_brace ∉ pre ->
  close_brace ∉ post ->
  contains (open_brace :: mid ++ [close_brace]) fence_json = false ->
  clean_and_parse_json_with json_loads
    (pre ++ open_brace :: mid ++ close_brace :: post)
  = Returned (json_loads (open_brace :: mid ++ [close_brace])).
Proof.
  intros Hfenced Hpre Hpost Hfence.
  rewrite clean_and_parse_json_span by done. by rewrite Hfence.
Qed.

Lemma brace_fallback_is_first_to_last_witness :
  clean_and_parse_json two_objects = Returned None.
Proof.
  exact (brace_fallback_is_first_to_last Json.loads []
           (removelast (tail two_objects)) []
           eq_refl (not_elem_of_nil _) (not_elem_of_nil _) eq_refl).
Defined.

(** C9 (as stated) fails: two objects in a row have a first balanced
    substring that decodes, and the function returns [None]. *)
Lemma two_objects_not_first_balanced : ~ parses_first_balanced two_objects.
Proof.
  intros H. specialize (H object_a eq_refl eq_refl). vm_compute in H.
  discriminate H.
Qed.

Lemma stray_brace_not_first_balanced : ~ parses_first_balanced stray_brace.
Proof.
  intros H. specialize (H object_a eq_refl eq_refl). vm_compute in H.
  discriminate H.
Qed.

(** C3: the function can raise.  A JSON object whose text contains the
    fence marker, or an answer cut off before its closing fence, makes it
    raise [IndexError], whatever the decoder. *)
Theorem clean_and_parse_json_raises_on_fence_in_value :
  Json.loads fence_in_value = Some (JObj [(transcript_key, JStr fence_json)])
  /\ forall json_loads,
       clean_and_parse_json_with json_loads fence_in_value = Raised IndexError
       /\ clean_and_parse_json_with json_loads truncated_answer
          = Raised IndexError.
Proof. split; [|intros json_loads; split]; reflexivity. Qed.

(* ===================================================================== *)
(** ** Claims on the validators *)
(* ===================================================================== *)

(** C1: an accepted turn list alternates from the agent, has an even
    length between 6 and 16, and ends with the agent's closing followed by
    the user's thanks or confirmation; for both validators. *)
Theorem accepted_conversation_structure exists_ history :
  validate_text_conversation repo_config history = Returned Pass
  \/ validate_conversation_with_audio repo_config exists_ history
     = Returned Pass ->
  alternates history
  /\ Nat.even (length history) = true
  /\ (6 <= length history <= 16)%nat
  /\ proper_ending history.
Proof.
  intros [H|H];
    [apply validate_text_conversation_sound in H
    |apply validate_conversation_with_audio_sound in H];
    destruct H as [Ha He Hmin Hmax Hend]; simpl in Hmin, Hmax;
    repeat split; try done; lia.
Qed.

Lemma accepted_conversation_structure_witness :
  alternates six_turns
  /\ Nat.even (length six_turns) = true
  /\ (6 <= length six_turns <= 16)%nat
  /\ proper_ending six_turns.
Proof.
  apply (accepted_conversation_structure all_files six_turns).
  left. vm_compute. reflexivity.
Defined.

Lemma six_turns_accepted_with_audio :
  validate_conversation_with_audio repo_config all_files six_turns
  = Returned Pass.
Proof. vm_compute. reflexivity. Qed.

(** C8 (as stated) fails: the four-turn conversation is rejected under
    the configuration of the repository. *)
Lemma four_turns_rejected :
  four_turn_scenario repo_config four_turns
  /\ validate_text_conversation repo_config four_turns
     = Returned (FailTurnCount 4).
Proof.
  split; [|reflexivity].
  exists (sample_turn 1 agent greeting), (sample_turn 2 user complaint),
         (sample_turn 3 agent closing), (sample_turn 4 user thanks).
  repeat split; repeat constructor; vm_compute; discriminate.
Qed.

(** C8 (amended): the four-turn conversation passes every check but the
    turn count, so it is accepted exactly when the configured range
    contains 4; with the minimum of 6 it is rejected. *)
Theorem four_turn_scenario_verdict cfg history :
  four_turn_scenario cfg history ->
  (15 <= MIN_TRANSCRIPT_LENGTH cfg)%nat ->
  (MAX_TRANSCRIPT_LENGTH cfg <= 300)%nat ->
  validate_text_conversation cfg history
  = Returned (if turn_count_ok cfg 4 then Pass else FailTurnCount 4).
Proof.
  intros (t1 & t2 & t3 & t4 & -> & R1 & I1 & R2 & I2 & R3 & I3 & R4 & I4 & L)
         Hmin Hmax.
  unfold validate_text_conversation. cbn [length].
  destruct (turn_count_ok cfg 4); [|reflexivity].
  apply Forall_cons in L as [L1 L]. apply Forall_cons in L as [L2 L].
  apply Forall_cons in L as [L3 L]. apply Forall_cons in L as [L4 _].
  assert (Hlen : forall n, (MIN_TRANSCRIPT_LENGTH cfg <= n
                            <= MAX_TRANSCRIPT_LENGTH cfg)%nat ->
                 ((n <? 15) || (300 <? n))%nat = false).
  { intros n Hn. apply orb_false_iff. split; apply Nat.ltb_ge; lia. }
  cbn [negb text_turn_loop]. unfold check_ending, neg_index.
  rewrite R1, R2, R3, R4. cbn -[Nat.ltb].
  rewrite !Hlen by done. cbn.
  rewrite R3, I3, R4, I4. reflexivity.
Qed.

Lemma four_turn_scenario_verdict_witness :
  validate_text_conversation repo_config four_turns
  = Returned (FailTurnCount 4).
Proof.
  refine (four_turn_scenario_verdict repo_config four_turns _ _ _).
  - exists (sample_turn 1 agent greeting), (sample_turn 2 user complaint),
           (sample_turn 3 agent closing), (sample_turn 4 user thanks).
    repeat split; repeat constructor; vm_compute; discriminate.
  - simpl. lia.
  - simpl. lia.
Defined.

(** C7 (as stated) fails for the validator with audio: the same history is
    accepted when its audio files exist and rejected when they do not. *)
Lemma audio_validator_reads_file_system :
  ~ ignores_file_system (validate_conversation_with_audio repo_config).
Proof.
  intros H. specialize (H all_files no_files six_turns).
  vm_compute in H. discriminate H.
Qed.

Lemma audio_turn_loop_agree fs1 fs2 turns k : forall i,
  (forall t, t ∈ turns ->
     fs1 (default [] (audio_filepath t)) = fs2 (default [] (audio_filepath t))) ->
  audio_turn_loop fs1 i turns k = audio_turn_loop fs2 i turns k.
Proof.
  induction turns as [|t rest IH]; intros i Hfs; [done|].
  cbn [audio_turn_loop].
  rewrite (Hfs t) by (by left).
  rewrite IH; [done|]. intros t' Ht'. apply Hfs. by right.
Qed.

(** C7 (amended): the validator with audio depends on its environment only
    through the existence of the audio files that the turns of the history
    name; with the same history and the same answers for those paths it
    gives the same verdict.  (The text-only validator takes the turn list
    and the configuration, and nothing else.) *)
Theorem audio_validator_deterministic_given_files cfg fs1 fs2 history :
  (forall t, t ∈ history ->
     fs1 (default [] (audio_filepath t)) = fs2 (default [] (audio_filepath t))) ->
  validate_conversation_with_audio cfg fs1 history
  = validate_conversation_with_audio cfg fs2 history.
Proof.
  intros Hfs. unfold validate_conversation_with_audio.
  destruct (negb _); [done|]. by apply audio_turn_loop_agree.
Qed.

Lemma audio_validator_deterministic_given_files_witness :
  validate_conversation_with_audio repo_config all_files six_turns
  = validate_conversation_with_audio repo_config
      (fun p => bool_decide (p = sample_path)) six_turns.
Proof.
  apply (audio_validator_deterministic_given_files repo_config all_files
           (fun p => bool_decide (p = sample_path)) six_turns).
  intros t Ht. unfold six_turns in Ht.
  repeat (apply elem_of_cons in Ht as [->|Ht]; [reflexivity|]).
  by apply elem_of_nil in Ht.
Defined.

(* ===================================================================== *)
(** ** Random choices and shuffling *)
(* ===================================================================== *)

Section RandomFacts.
Context {W : Type} `{World W}.

Lemma rand_below_spec n w :
  (0 < n)%nat ->
  exists i w', rand_below n w = (Returned i, w') /\ (i < n)%nat.
Proof.
  intros Hn. unfold rand_below.
  pose proof (randbelow_lt n w Hn) as Hlt.
  destruct (randbelow n w) as [i w']. exists i, w'. by split.
Qed.

Lemma choice_spec {A} (seq : list A) w :
  seq <> [] ->
  exists x w', choice seq w = (Returned x, w') /\ x ∈ seq.
Proof.
  intros Hseq. destruct seq as [|a seq]; [done|].
  unfold choice.
  destruct (rand_below_spec (length (a :: seq)) w) as (i & w' & Hr & Hi);
    [simpl; lia|].
  unfold mbind, M_bind. rewrite Hr.
  destruct (lookup_lt_is_Some_2 (a :: seq) i Hi) as [x Hx].
  rewrite Hx. exists x, w'. split; [done|].
  by apply list_elem_of_lookup_2 in Hx.
Qed.

(** Overwriting one position replaces one element of the multiset. *)
Lemma insert_replaces {A} (l : list A) i a b :
  l !! i = Some a ->
  exists d, l ≡ₚ a :: d /\ <[i := b]> l ≡ₚ b :: d.
Proof.
  revert i. induction l as [|x l IH]; intros [|i] Hi; try done; simpl in *.
  - injection Hi as ->. by exists l.
  - destruct (IH i Hi) as (d & Hl & Hins). exists (x :: d). split.
    + rewrite Hl. apply Permutation_swap.
    + rewrite Hins. apply Permutation_swap.
Qed.

Lemma swap_Permutation {A} (x y : list A) i j :
  swap x i j = Returned y -> y ≡ₚ x.
Proof.
  unfold swap.
  destruct (x !! i) as [a|] eqn:Hi; [|discriminate].
  destruct (x !! j) as [b|] eqn:Hj; [|discriminate].
  intros [= <-].
  destruct (insert_replaces x i a b Hi) as (d & Hx & Hx1).
  assert (Hj1 : <[i := b]> x !! j = Some b).
  { destruct (decide (i = j)) as [->|Hne].
    - apply list_lookup_insert_eq. by eapply lookup_lt_Some.
    - by rewrite list_lookup_insert_ne. }
  destruct (insert_replaces _ j b a Hj1) as (d' & Hx1' & Hx2).
  rewrite Hx2, Hx. apply Permutation_cons; [done|].
  apply (Permutation_cons_inv (a := b)). by rewrite <- Hx1', Hx1.
Qed.

Lemma swap_in_range {A} (x : list A) i j :
  (i < length x)%nat -> (j < length x)%nat ->
  exists y, swap x i j = Returned y.
Proof.
  intros Hi Hj. unfold swap.
  destruct (lookup_lt_is_Some_2 x i Hi) as [a ->].
  destruct (lookup_lt_is_Some_2 x j Hj) as [b ->]. eauto.
Qed.

Lemma shuffle_from_spec {A} i : forall (x : list A) w,
  (i < length x)%nat \/ i = O ->
  exists y w', shuffle_from i x w = (Returned y, w') /\ y ≡ₚ x.
Proof.
  induction i as [|i IH]; intros x w Hi.
  - exists x, w. by split.
  - destruct Hi as [Hi|]; [|done].
    cbn [shuffle_from]. unfold mbind at 1, M_bind.
    destruct (rand_below_spec (S i + 1) w) as (j & w1 & -> & Hj); [lia|].
    destruct (swap_in_range x (S i) j) as [x1 Hswap]; [lia|lia|].
    unfold mbind at 1, M_bind, pure_result. rewrite Hswap.
    pose proof (swap_Permutation _ _ _ _ Hswap) as Hperm.
    destruct (IH x1 w1) as (y & w' & -> & Hy).
    { left. rewrite (Permutation_length Hperm). lia. }
    exists y, w'. split; [done|]. by rewrite Hy.
Qed.

(** [random.shuffle] returns a rearrangement of its argument. *)
Lemma shuffle_spec {A} (x : list A) w :
  exists y w', shuffle x w = (Returned y, w') /\ y ≡ₚ x.
Proof.
  apply shuffle_from_spec. destruct x; [by right|left; simpl; lia].
Qed.


End RandomFacts.

(* ===================================================================== *)
(** ** Scenario distribution *)
(* ===================================================================== *)




Lemma weighted_copies_cons n s wt rest :
  weighted_copies n ((s, wt) :: rest)
  = repeat_label s (py_int (inject_Z (Z.of_nat n) * wt))
    ++ weighted_copies n rest.
Proof. reflexivity. Qed.








Section ScenarioDistributionFacts.
Context {W : Type} `{World W}.


End ScenarioDistributionFacts.


(* ===================================================================== *)
(** ** Gender inference and the agent's voice *)
(* ===================================================================== *)

Lemma get_gender_from_name_total name :
  get_gender_from_name name = male \/ get_gender_from_name name = female.
Proof.
  unfold get_gender_from_name.
  repeat destruct (bool_decide _); try destruct (existsb _ _); auto.
Qed.

Lemma agent_pool_male : agent_pool male = voices_with_prefix (py "agent_male_").
Proof. reflexivity. Qed.

Lemma agent_pool_female :
  agent_pool female = voices_with_prefix (py "agent_female_").
Proof. reflexivity. Qed.

(** Every voice of a pool is configured with the gender of the pool. *)
Lemma agent_pool_gender gender voice :
  gender = male \/ gender = female ->
  voice ∈ agent_pool gender ->
  exists c, voice_config_of ENHANCED_VOICE_CONFIGS voice = Some c
            /\ vc_gender c = gender.
Proof.
  intros [->| ->] Hin; vm_compute in Hin;
    repeat (apply elem_of_cons in Hin as [->|Hin];
            [eexists; split; [vm_compute; reflexivity|reflexivity]|]);
    by apply elem_of_nil in Hin.
Qed.

Section VoiceFacts.
Context {W : Type} `{World W}.

(** C10: gender inference answers "male" or "female" for every name, the
    pool of agent voices for that gender is not empty, and the agent's
    voice is drawn from it, so the choice never fails. *)
Theorem agent_voice_always_chosen (agent_name : pystr) (w : W) :
  (get_gender_from_name agent_name = male
   \/ get_gender_from_name agent_name = female)
  /\ agent_pool (get_gender_from_name agent_name) <> []
  /\ exists voice w',
       get_voice_for_agent agent_name w = (Returned voice, w')
       /\ voice ∈ agent_pool (get_gender_from_name agent_name)
       /\ exists c, voice_config_of ENHANCED_VOICE_CONFIGS voice = Some c
                    /\ vc_gender c = get_gender_from_name agent_name.
Proof.
  pose proof (get_gender_from_name_total agent_name) as Hg.
  split; [exact Hg|].
  assert (Hpool : agent_pool (get_gender_from_name agent_name) <> []).
  { destruct Hg as [-> | ->]; discriminate. }
  split; [exact Hpool|].
  assert (Hchoice : get_voice_for_agent agent_name
                    = choice (agent_pool (get_gender_from_name agent_name))).
  { unfold get_voice_for_agent. destruct Hg as [Hg|Hg]; rewrite Hg.
    - by rewrite bool_decide_eq_true_2.
    - by rewrite bool_decide_eq_false_2. }
  rewrite Hchoice.
  destruct (choice_spec _ w Hpool) as (voice & w' & Hc & Hin).
  exists voice, w'. split; [done|]. split; [done|].
  by apply agent_pool_gender.
Qed.

End VoiceFacts.

(* ===================================================================== *)
(** ** Invariants of computations *)
(* ===================================================================== *)

Section Keeps.
Context {S : Type}.

Lemma keeps_ret {A} (P : S -> Prop) (a : A) : keeps P (mret a : M S A).
Proof. intros s r s' Hs [= <- <-]. exact Hs. Qed.

Lemma keeps_raise {A} (P : S -> Prop) e : keeps P (raise e : M S A).
Proof. intros s r s' Hs [= <- <-]. exact Hs. Qed.

Lemma keeps_pure_result {A} (P : S -> Prop) (x : pyresult A) :
  keeps P (pure_result x : M S A).
Proof. intros s r s' Hs [= <- <-]. exact Hs. Qed.

Lemma keeps_bind {A B} (P : S -> Prop) (m : M S A) (f : A -> M S B) :
  keeps P m -> (forall a, keeps P (f a)) -> keeps P (m ≫= f).
Proof.
  intros Hm Hf s r s' Hs. unfold mbind, M_bind.
  destruct (m s) as [[a|e] s1] eqn:E.
  - intros Hrun. apply (Hf a s1 r s'); [|done]. exact (Hm s _ s1 Hs E).
  - intros [= <- <-]. exact (Hm s _ s1 Hs E).
Qed.

Lemma keeps_try_except {A} (P : S -> Prop) (m : M S A) handler :
  keeps P m -> (forall e, keeps P (handler e)) -> keeps P (try_except m handler).
Proof.
  intros Hm Hh s r s' Hs. unfold try_except.
  destruct (m s) as [[a|e] s1] eqn:E.
  - intros [= <- <-]. exact (Hm s _ s1 Hs E).
  - intros Hrun. apply (Hh e s1 r s'); [|done]. exact (Hm s _ s1 Hs E).
Qed.

Lemma keeps_if {A} (P : S -> Prop) (b : bool) (m1 m2 : M S A) :
  keeps P m1 -> keeps P m2 -> keeps P (if b then m1 else m2).
Proof. by destruct b. Qed.

End Keeps.

(* ===================================================================== *)
(** ** Speaker binding *)
(* ===================================================================== *)

Section SpeakerFacts.
Context {W : Type} `{World W}.

Lemma keeps_in_world {A} (P : Run W -> Prop) (m : M W A) :
  on_tables P -> keeps P (in_world m).
Proof.
  intros HP st r st' Hst. unfold in_world.
  destruct (m (world st)) as [r0 w']. intros [= <- <-]. by apply HP.
Qed.

Lemma keeps_print (P : Run W -> Prop) ev : on_tables P -> keeps P (print ev).
Proof. intros HP st r st' Hst [= <- <-]. by apply HP. Qed.

Lemma keeps_has_speakers (P : Run W -> Prop) cid : keeps P (has_speakers cid).
Proof. by intros st r st' Hst [= <- <-]. Qed.

Lemma keeps_get_speakers (P : Run W -> Prop) cid : keeps P (get_speakers cid).
Proof.
  intros st r st' Hst. unfold get_speakers.
  by destruct (conversation_speakers st !! cid); intros [= <- <-].
Qed.

Lemma keeps_gender_of_voice (P : Run W -> Prop) voice :
  keeps P (gender_of_voice voice).
Proof.
  unfold gender_of_voice.
  destruct (voice_config_of _ voice); [apply keeps_ret|apply keeps_raise].
Qed.

Lemma keeps_name_or_recorded (P : Run W -> Prop) cid name :
  keeps P (name_or_recorded cid name).
Proof. by intros st r st' Hst; destruct name; intros [= <- <-]. Qed.

Lemma bound_at_on_tables m0 cid : on_tables (W := W) (bound_at m0 cid).
Proof. intros st w out Hst. exact Hst. Qed.

Lemma keeps_set_speakers m0 cid voices :
  keeps (bound_at (W := W) m0 cid) (set_speakers cid voices).
Proof.
  intros st r st' [Hst|[v Hst]] [= <- <-]; right; exists voices;
    cbn [conversation_speakers]; rewrite Hst; [done|].
  apply insert_insert_eq.
Qed.

Lemma keeps_set_agent_name (P : Run W -> Prop) cid name :
  (forall st names,
     P st -> P (mkRun (world st) (conversation_speakers st) names
                      (providers_status st) (stdout st))) ->
  keeps P (set_agent_name cid name).
Proof. intros HP st r st' Hst [= <- <-]. by apply HP. Qed.

Ltac keeps_step :=
  lazymatch goal with
  | |- keeps _ (mbind _ _) => apply keeps_bind; [|intros ?]
  | |- keeps _ (if _ then _ else _) => apply keeps_if
  | |- keeps _ (mret _) => apply keeps_ret
  | |- keeps _ (raise _) => apply keeps_raise
  | |- keeps _ (has_speakers _) => apply keeps_has_speakers
  | |- keeps _ (get_speakers _) => apply keeps_get_speakers
  | |- keeps _ (gender_of_voice _) => apply keeps_gender_of_voice
  | |- keeps _ (name_or_recorded _ _) => apply keeps_name_or_recorded
  | |- keeps _ (set_speakers _ _) => apply keeps_set_speakers
  | |- keeps _ (in_world _) => apply keeps_in_world; apply bound_at_on_tables
  | |- keeps _ (print _) => apply keeps_print; apply bound_at_on_tables
  | |- keeps _ (set_agent_name _ _) =>
    apply keeps_set_agent_name; by intros ? ? ?
  end.

Ltac keeps_steps := repeat keeps_step.

Lemma assign_keeps_bound cls m0 cid name :
  keeps (bound_at (W := W) m0 cid) (assign_of cls cid name).
Proof.
  destruct cls; unfold assign_of, assign_speakers, text_assign_speakers;
    keeps_steps.
Qed.

(** A known conversation is answered from the dictionary. *)
Lemma assign_cached cls cid name (st : Run W) voices :
  conversation_speakers st !! cid = Some voices ->
  assign_of cls cid name st = (Returned voices, st).
Proof.
  intros Hc.
  destruct cls; unfold assign_of, assign_speakers, text_assign_speakers;
    unfold mbind, M_bind, has_speakers;
    rewrite bool_decide_eq_true_2 by (by rewrite Hc); cbn [negb];
    unfold mret, M_ret, get_speakers; by rewrite Hc.
Qed.

(** What follows a lookup of the dictionary is what the dictionary holds. *)
Lemma then_get_speakers {A} (m : M (Run W) A) cid (st st1 : Run W) voices :
  (m ≫= λ _, get_speakers cid) st = (Returned voices, st1) ->
  conversation_speakers st1 !! cid = Some voices.
Proof.
  unfold mbind, M_bind. destruct (m st) as [[a|e] s]; [|discriminate].
  unfold get_speakers.
  destruct (conversation_speakers s !! cid) eqn:E; intros [= <- <-]. exact E.
Qed.

(** What a call returns is what the dictionary holds afterwards. *)
Lemma assign_recorded cls cid name (st st1 : Run W) voices :
  assign_of cls cid name st = (Returned voices, st1) ->
  conversation_speakers st1 !! cid = Some voices.
Proof.
  destruct cls; unfold assign_of, assign_speakers, text_assign_speakers;
    unfold mbind at 1, M_bind at 1, has_speakers at 1;
    apply then_get_speakers.
Qed.

(** A call only adds to the dictionary. *)
Lemma assign_grows cls cid name (st st1 : Run W) r :
  assign_of cls cid name st = (r, st1) ->
  conversation_speakers st ⊆ conversation_speakers st1.
Proof.
  intros Hrun.
  destruct (conversation_speakers st !! cid) as [voices|] eqn:Hc.
  - rewrite (assign_cached cls cid name st voices Hc) in Hrun.
    by injection Hrun as <- <-.
  - destruct (assign_keeps_bound cls (conversation_speakers st) cid name
                st r st1 (or_introl eq_refl) Hrun) as [->|[voices ->]];
      [done|by apply insert_subseteq].
Qed.

Lemma speaker_id_grows cls cid who name (st st1 : Run W) r :
  speaker_id_of cls cid who name st = (r, st1) ->
  conversation_speakers st ⊆ conversation_speakers st1.
Proof.
  assert (Hshape : speaker_id_of cls cid who name
                   = (n ← name_or_recorded cid name;
                      voices ← assign_of cls cid n;
                      mret (if bool_decide (who = agent)
                            then voices.1 else voices.2))) by by destruct cls.
  rewrite Hshape. unfold mbind, M_bind.
  destruct (name_or_recorded cid name st) as [r0 st0] eqn:E0.
  assert (st0 = st /\ exists n, r0 = Returned n) as [-> [n ->]].
  { unfold name_or_recorded in E0. destruct name; simplify_eq; eauto. }
  destruct (assign_of cls cid n st) as [[voices|e] st2] eqn:E;
    apply assign_grows in E; by intros [= <- <-].
Qed.

Lemma run_call_grows cls c (st st1 : Run W) r :
  run_call cls c st = (r, st1) ->
  conversation_speakers st ⊆ conversation_speakers st1.
Proof.
  destruct c as [cid name|cid who name]; cbn [run_call];
    unfold mbind, M_bind.
  - destruct (assign_of cls cid name st) as [[voices|e] st0] eqn:E;
      apply assign_grows in E; by intros [= <- <-].
  - destruct (speaker_id_of cls cid who name st) as [[voices|e] st0] eqn:E;
      apply speaker_id_grows in E; by intros [= <- <-].
Qed.

(** Entries of the dictionary are never replaced. *)
Lemma later_keeps cls (st st2 : Run W) cid voices :
  later cls st st2 ->
  conversation_speakers st !! cid = Some voices ->
  conversation_speakers st2 !! cid = Some voices.
Proof.
  induction 1 as [st|st c r st1 st2 Hcall _ IH|st st1 st2 Hs _ _ IH];
    intros Hc; [done| |].
  - apply IH. apply run_call_grows in Hcall.
    by eapply lookup_weaken.
  - apply IH. by rewrite Hs.
Qed.

(** C5: once a call for a conversation has returned a voice pair, every
    later call for the same conversation returns that pair, whatever the
    persona name, and changes nothing; for both speaker managers. *)
Theorem speaker_binding_stable cls cid name name' voices (st st1 st2 : Run W) :
  assign_of cls cid name st = (Returned voices, st1) ->
  later cls st1 st2 ->
  assign_of cls cid name' st2 = (Returned voices, st2).
Proof.
  intros Hfirst Hlater. apply assign_cached.
  eapply later_keeps; [exact Hlater|].
  by eapply assign_recorded.
Qed.

End SpeakerFacts.

Lemma speaker_binding_stable_witness :
  assign_speakers 7 (py "Ahmet") run2 = (Returned voices7, run2).
Proof.
  apply (speaker_binding_stable SpeakerManager 7 (py "Ayşe") (py "Ahmet")
           voices7 run0 run1 run2).
  - vm_compute. reflexivity.
  - apply (later_call SpeakerManager run1 (CallSpeakerId 8 user None)
             (Returned ()) run2 run2).
    + vm_compute. reflexivity.
    + apply later_now.
Defined.

(* ===================================================================== *)
(** ** The TTS fallback chain *)
(* ===================================================================== *)

Section SynthesisFacts.
Context {W : Type} `{World W}.

Lemma in_world_run {A} (m : M W A) (st : Run W) r w' :
  m (world st) = (r, w') ->
  in_world m st
  = (r, mkRun w' (conversation_speakers st) (conversation_agent_names st)
              (providers_status st) (stdout st)).
Proof. intros Hm. unfold in_world. by rewrite Hm. Qed.

(** A successful result of the Google Cloud function names that provider. *)
Lemma google_success_provider text voice output_path (w w' : W) r :
  _generate_google_cloud_audio text voice output_path w = (Returned r, w') ->
  success r = true ->
  provider r = Some google_cloud.
Proof.
  unfold _generate_google_cloud_audio, api_key_set, try_except, pure_result,
    mbind, M_bind, mret, M_ret.
  intros Hrun Hs.
  repeat case_match; simplify_eq;
    first [reflexivity | cbn [success audio_failure] in Hs; discriminate Hs].
Qed.

(** The ElevenLabs function catches what its request raises. *)
Lemma elevenlabs_returns text voice output_path (w : W) :
  exists r w', _generate_elevenlabs_audio text voice output_path w
               = (Returned r, w').
Proof.
  unfold _generate_elevenlabs_audio, api_key_set, try_except,
    mbind, M_bind, mret, M_ret.
  repeat case_match; simplify_eq; eauto.
Qed.

Lemma bind_returned {S A B} (m : M S A) (f : A -> M S B) s a s1 :
  m s = (Returned a, s1) -> (m ≫= f) s = f a s1.
Proof. intros Hm. unfold mbind, M_bind. by rewrite Hm. Qed.

(** With the voices the chain passes, the Google Cloud function returns. *)
Lemma google_returns text speaker output_path (w : W) :
  exists r w',
    _generate_google_cloud_audio text (google_voice_of speaker) output_path w
    = (Returned r, w').
Proof.
  unfold _generate_google_cloud_audio, api_key_set, mbind, M_bind, mret, M_ret.
  destruct (has_api_key w GoogleCloud); cbn [negb]; [|eauto].
  assert (Hparts : exists lang region,
             index (split_on 45 (google_voice_of speaker)) 0 = Returned lang
             /\ index (split_on 45 (google_voice_of speaker)) 1
                = Returned region).
  { unfold google_voice_of. destruct (contains speaker user);
      eexists _, _; split; vm_compute; reflexivity. }
  destruct Hparts as (lang & region & -> & ->). unfold pure_result, try_except.
  repeat case_match; simplify_eq; eauto.
Qed.

(** The state after the first link, when it gives no result. *)
Lemma primary_fails_run text speaker output_path (st : Run W) w1 :
  primary_fails text speaker output_path st w1 ->
  exists out,
    primary_link text speaker output_path st
    = (Returned None,
       mkRun w1 (conversation_speakers st) (conversation_agent_names st)
             (providers_status st) out).
Proof.
  unfold primary_link, provider_available, try_provider, mbind, M_bind,
    mret, M_ret.
  intros [[Hs ->]|[Hs (r1 & Hrun & Hfail)]]; rewrite Hs.
  - exists (stdout st). by destruct st.
  - rewrite (in_world_run _ _ _ _ Hrun). cbv beta iota.
    rewrite Hfail. unfold print. eauto.
Qed.

(** The second link, for either ending. *)
Lemma fallback_ends_run text speaker output_path (st st1 : Run W) outcome w2 :
  providers_status st1 = providers_status st ->
  fallback_ends text speaker output_path st (world st1) outcome w2 ->
  exists st2,
    fallback_link text speaker output_path st1 = (Returned outcome, st2)
    /\ world st2 = w2.
Proof.
  intros Hstatus.
  unfold fallback_link, provider_available, try_provider, print, mbind,
    M_bind, mret, M_ret.
  rewrite Hstatus.
  destruct outcome as [r2|]; cbn [fallback_ends].
  - intros (Hs & Hrun & Hok). rewrite Hs.
    erewrite in_world_run by (cbn [world]; exact Hrun).
    cbv beta iota. rewrite Hok. eauto.
  - intros [[Hs ->]|[Hs (r2 & Hrun & Hfail)]]; rewrite Hs; [eauto|].
    erewrite in_world_run by (cbn [world]; exact Hrun).
    cbv beta iota. rewrite Hfail. eauto.
Qed.

(** C6: when the primary provider is unavailable or fails, the chain
    returns the successful result of the fallback, whose provider field is
    "google_cloud"; when the fallback is unavailable or fails as well, it
    returns the failure result, and no other provider is tried. *)
Theorem tts_fallback_chain text speaker output_path (st : Run W) w1 outcome w2 :
  primary_fails text speaker output_path st w1 ->
  fallback_ends text speaker output_path st w1 outcome w2 ->
  exists st',
    generate_audio text speaker output_path st
    = (Returned (chain_result outcome), st')
    /\ world st' = w2
    /\ success (chain_result outcome) = bool_decide (is_Some outcome)
    /\ provider (chain_result outcome)
       = match outcome with
         | Some _ => Some google_cloud
         | None => None
         end.
Proof.
  intros Hprimary Hfallback.
  destruct (primary_fails_run _ _ _ _ _ Hprimary) as [out Hfirst].
  destruct (fallback_ends_run text speaker output_path st
              (mkRun w1 (conversation_speakers st) (conversation_agent_names st)
                     (providers_status st) out)
              outcome w2 eq_refl Hfallback) as (st2 & Hsecond & Hw2).
  unfold generate_audio.
  rewrite (bind_returned _ _ _ _ _ Hfirst), (bind_returned _ _ _ _ _ Hsecond).
  exists st2. destruct outcome as [r2|]; cbn [fallback_ends] in Hfallback.
  - destruct Hfallback as (_ & Hrun & Hok).
    cbn [chain_result default]. split; [done|]. split; [done|].
    split; [exact Hok|]. by eapply google_success_provider.
  - by repeat split.
Qed.

End SynthesisFacts.

Lemma tts_fallback_chain_witness :
  exists st',
    generate_audio sample_transcript sample_speaker sample_path run_quota
    = (Returned sample_google_result, st')
    /\ world st' = sim_quota_stored
    /\ success sample_google_result = true
    /\ provider sample_google_result = Some google_cloud.
Proof.
  apply (tts_fallback_chain sample_transcript sample_speaker sample_path
           run_quota sim_quota (Some sample_google_result) sim_quota_stored).
  - right. split; [reflexivity|]. eexists. split; vm_compute; reflexivity.
  - repeat split; vm_compute; reflexivity.
Defined.

(** When both services answer with an error the turn gets no audio. *)
Lemma tts_chain_exhausted :
  (generate_audio sample_transcript sample_speaker sample_path run_down).1
  = Returned (audio_failure no_provider_error).
Proof. vm_compute. reflexivity. Qed.

(* ===================================================================== *)
(** ** Hoare rules *)
(* ===================================================================== *)

Section HoareRules.
Context {S : Type}.

Lemma hoare_ret {A} (P : S -> Prop) (a : A) (Q : A -> S -> Prop) :
  (forall s, P s -> Q a s) -> hoare P (mret a : M S A) Q.
Proof. intros HQ s a' s' Hs [= <- <-]. by apply HQ. Qed.

Lemma hoare_raise {A} (P : S -> Prop) e (Q : A -> S -> Prop) :
  hoare P (raise e : M S A) Q.
Proof. intros s a s' Hs. discriminate. Qed.

Lemma hoare_bind {A B} (P : S -> Prop) (m : M S A) (f : A -> M S B)
  (Q1 : A -> S -> Prop) (Q : B -> S -> Prop) :
  hoare P m Q1 -> (forall a, hoare (Q1 a) (f a) Q) -> hoare P (m ≫= f) Q.
Proof.
  intros Hm Hf s b s' Hs. unfold mbind, M_bind.
  destruct (m s) as [[a|e] s1] eqn:E; [|discriminate].
  intros Hrun. exact (Hf a s1 b s' (Hm s a s1 Hs E) Hrun).
Qed.

Lemma hoare_weaken {A} (P P' : S -> Prop) (m : M S A) (Q Q' : A -> S -> Prop) :
  hoare P m Q -> (forall s, P' s -> P s) -> (forall a s, Q a s -> Q' a s) ->
  hoare P' m Q'.
Proof. intros Hm HP HQ s a s' Hs Hrun. apply HQ, (Hm s a s'); auto. Qed.

(** An invariant is a postcondition for every result. *)
Lemma hoare_keeps {A} (P : S -> Prop) (m : M S A) :
  keeps P m -> hoare P m (fun _ s => P s).
Proof. intros Hm s a s' Hs Hrun. exact (Hm s _ s' Hs Hrun). Qed.

Lemma hoare_and {A} (P P' : S -> Prop) (m : M S A) (Q Q' : A -> S -> Prop) :
  hoare P m Q -> hoare P' m Q' ->
  hoare (fun s => P s /\ P' s) m (fun a s => Q a s /\ Q' a s).
Proof.
  intros Hm Hm' s a s' [Hs Hs'] Hrun.
  split; [exact (Hm s a s' Hs Hrun)|exact (Hm' s a s' Hs' Hrun)].
Qed.

(** A handler that returns [a0] adds the states in which the body raised. *)
Lemma hoare_try_except {A} (P I : S -> Prop) (m : M S A) handler
  (Q : A -> S -> Prop) :
  hoare P m Q -> keeps I m ->
  (forall e, hoare I (handler e) Q) ->
  hoare (fun s => P s /\ I s) (try_except m handler) Q.
Proof.
  intros Hm Hk Hh s a s' [Hs Hi]. unfold try_except.
  destruct (m s) as [[a0|e] s1] eqn:E.
  - intros [= <- <-]. exact (Hm s a0 s1 Hs E).
  - intros Hrun. exact (Hh e s1 a s' (Hk s _ s1 Hi E) Hrun).
Qed.

Lemma keeps_forall {A I} (P : I -> S -> Prop) (m : M S A) :
  (forall i, keeps (P i) m) -> keeps (fun s => forall i, P i s) m.
Proof. intros Hm s r s' Hs Hrun i. exact (Hm i s r s' (Hs i) Hrun). Qed.

Lemma keeps_impl {A} (C : Prop) (P : S -> Prop) (m : M S A) :
  keeps P m -> keeps (fun s => C -> P s) m.
Proof. intros Hm s r s' Hs Hrun HC. exact (Hm s r s' (Hs HC) Hrun). Qed.

Lemma keeps_True {A} (m : M S A) : keeps (fun _ => True) m.
Proof. by intros s r s' _ _. Qed.

End HoareRules.

(* ===================================================================== *)
(** ** Standard output only grows *)
(* ===================================================================== *)

Section PrintedFacts.
Context {W : Type} `{World W}.
Variable ev : Event.

Lemma printed_in_world {A} (m : M W A) : keeps (printed (W := W) ev) (in_world m).
Proof.
  intros st r st' Hst. unfold in_world.
  destruct (m (world st)) as [r0 w']. by intros [= <- <-].
Qed.

Lemma printed_print ev' : keeps (printed (W := W) ev) (print ev').
Proof.
  intros st r st' Hst [= <- <-]. unfold printed in *. cbn [stdout].
  apply elem_of_app. by left.
Qed.

Lemma printed_get_run : keeps (printed (W := W) ev) (get_run (W := W)).
Proof. by intros st r st' Hst [= <- <-]. Qed.

Lemma printed_set_speakers cid voices :
  keeps (printed (W := W) ev) (set_speakers cid voices).
Proof. by intros st r st' Hst [= <- <-]. Qed.

Lemma printed_set_agent_name cid name :
  keeps (printed (W := W) ev) (set_agent_name cid name).
Proof. by intros st r st' Hst [= <- <-]. Qed.

Lemma printed_provider_available p :
  keeps (printed (W := W) ev) (provider_available p).
Proof. by intros st r st' Hst [= <- <-]. Qed.

Ltac printed_step :=
  lazymatch goal with
  | |- keeps _ (mbind _ _) => apply keeps_bind; [|intros ?]
  | |- keeps _ (if _ then _ else _) => apply keeps_if
  | |- keeps _ (mret _) => apply keeps_ret
  | |- keeps _ (raise _) => apply keeps_raise
  | |- keeps _ (pure_result _) => apply keeps_pure_result
  | |- keeps _ (has_speakers _) => apply keeps_has_speakers
  | |- keeps _ (get_speakers _) => apply keeps_get_speakers
  | |- keeps _ (gender_of_voice _) => apply keeps_gender_of_voice
  | |- keeps _ (name_or_recorded _ _) => apply keeps_name_or_recorded
  | |- keeps _ (in_world _) => apply printed_in_world
  | |- keeps _ (print _) => apply printed_print
  | |- keeps _ get_run => apply printed_get_run
  | |- keeps _ (set_speakers _ _) => apply printed_set_speakers
  | |- keeps _ (set_agent_name _ _) => apply printed_set_agent_name
  | |- keeps _ (provider_available _) => apply printed_provider_available
  end.

Ltac printed_steps := repeat printed_step.

Lemma printed_assign_speakers cid name :
  keeps (printed (W := W) ev) (assign_speakers cid name).
Proof. unfold assign_speakers. printed_steps. Qed.

Lemma printed_text_assign_speakers cid name :
  keeps (printed (W := W) ev) (text_assign_speakers cid name).
Proof. unfold text_assign_speakers. printed_steps. Qed.

Lemma printed_get_speaker_id cid who name :
  keeps (printed (W := W) ev) (get_speaker_id cid who name).
Proof.
  unfold get_speaker_id. printed_steps. apply printed_assign_speakers.
Qed.

Lemma printed_text_get_speaker_id cid who name :
  keeps (printed (W := W) ev) (text_get_speaker_id cid who name).
Proof.
  unfold text_get_speaker_id. printed_steps.
  apply printed_text_assign_speakers.
Qed.

Lemma printed_try_provider p attempt :
  keeps (printed (W := W) ev) (try_provider p attempt).
Proof. unfold try_provider. printed_steps. Qed.

Lemma printed_generate_audio text speaker path :
  keeps (printed (W := W) ev) (generate_audio text speaker path).
Proof.
  unfold generate_audio, primary_link, fallback_link.
  apply keeps_bind; [printed_steps; apply printed_try_provider|].
  intros [r|]; [apply keeps_ret|].
  apply keeps_bind; [printed_steps; apply printed_try_provider|].
  intros [r|]; apply keeps_ret.
Qed.

Lemma printed_audio_for_turn cid turn text speaker path :
  keeps (printed (W := W) ev) (audio_for_turn cid turn text speaker path).
Proof.
  unfold audio_for_turn, generate_audio_for_turn.
  apply keeps_bind; [apply printed_get_run|]. intros st.
  apply keeps_if; [printed_steps|].
  apply keeps_bind; [apply printed_generate_audio|]. intros r.
  printed_steps.
Qed.

Lemma printed_text_turns remaining :
  forall turn cid name scenario total history,
    keeps (printed (W := W) ev) (text_turns remaining turn cid name scenario total history).
Proof.
  induction remaining as [|remaining IH]; intros; cbn [text_turns];
    [apply keeps_ret|].
  apply keeps_bind; [apply printed_text_get_speaker_id|]. intros speaker.
  printed_steps. apply IH.
Qed.

Lemma printed_audio_turns remaining :
  forall turn cid name scenario total history,
    keeps (printed (W := W) ev) (audio_turns remaining turn cid name scenario total history).
Proof.
  induction remaining as [|remaining IH]; intros; cbn [audio_turns];
    [apply keeps_ret|].
  apply keeps_bind; [apply printed_get_run|]. intros st.
  apply keeps_if; [printed_steps; apply IH|].
  apply keeps_bind; [apply printed_get_speaker_id|]. intros speaker.
  apply keeps_bind; [apply printed_in_world|]. intros path.
  apply keeps_bind; [apply printed_in_world|]. intros content.
  apply keeps_bind; [apply keeps_pure_result|]. intros llm_output.
  apply keeps_if; [printed_steps|].
  apply keeps_bind; [apply keeps_pure_result|]. intros raw.
  apply keeps_bind; [apply keeps_pure_result|]. intros text.
  apply keeps_bind; [apply printed_audio_for_turn|].
  intros [[[[seconds rate] chans] size]|]; [|apply keeps_ret].
  printed_steps. apply IH.
Qed.

Lemma printed_text_attempt cfg cid scenario :
  keeps (printed (W := W) ev) (text_attempt cfg cid scenario).
Proof.
  unfold text_attempt.
  apply keeps_bind; [apply printed_in_world|]. intros name.
  apply keeps_bind; [apply printed_in_world|]. intros total.
  apply keeps_bind; [apply printed_text_turns|]. intros [ok history].
  printed_steps.
Qed.

Lemma printed_audio_attempt cfg cid scenario :
  keeps (printed (W := W) ev) (audio_attempt cfg cid scenario).
Proof.
  unfold audio_attempt.
  apply keeps_bind; [apply printed_in_world|]. intros name.
  apply keeps_bind; [apply printed_in_world|]. intros total.
  apply keeps_bind; [apply printed_audio_turns|]. intros [ok history].
  printed_steps.
Qed.

End PrintedFacts.

(* ===================================================================== *)
(** ** Accepted histories *)
(* ===================================================================== *)

Section HoareMore.
Context {S : Type}.

(** The result of the first computation does not matter. *)
Lemma hoare_then {A B} (m : M S A) (f : A -> M S B) (Q : B -> S -> Prop) :
  (forall a, hoare (fun _ => True) (f a) Q) ->
  hoare (fun _ => True) (m ≫= f) Q.
Proof.
  intros Hf. apply (hoare_bind _ _ _ (fun _ _ => True)); [done|exact Hf].
Qed.

Lemma hoare_if {A} (P : S -> Prop) (b : bool) (m1 m2 : M S A) Q :
  hoare P m1 Q -> hoare P m2 Q -> hoare P (if b then m1 else m2) Q.
Proof. by destruct b. Qed.

Lemma hoare_pure_result {A} (P : S -> Prop) (x : pyresult A) :
  hoare P (pure_result x : M S A) (fun _ s => P s).
Proof. intros s a s' Hs [= _ <-]. exact Hs. Qed.

End HoareMore.

Lemma rows_of_app cid rows turn :
  rows_of cid rows -> conversation_id turn = cid -> rows_of cid (rows ++ [turn]).
Proof.
  intros Hrows Hturn. apply Forall_app. split; [done|]. by constructor.
Qed.

Section AttemptFacts.
Context {W : Type} `{World W}.

Ltac skip_bind := apply hoare_then; intros ?.

(** Every row the text-only turn loop appends carries the id of the
    conversation. *)
Lemma text_turns_rows remaining :
  forall turn cid name scenario total history,
    rows_of cid history ->
    hoare (fun _ : Run W => True)
          (text_turns remaining turn cid name scenario total history)
          (fun result _ => rows_of cid result.2).
Proof.
  induction remaining as [|remaining IH]; intros turn cid name scenario total
    history Hrows; cbn [text_turns].
  - by apply hoare_ret.
  - skip_bind. skip_bind. skip_bind. apply hoare_if.
    + skip_bind. by apply hoare_ret.
    + skip_bind. skip_bind. skip_bind. skip_bind.
      apply IH. by apply rows_of_app.
Qed.

Lemma audio_turns_rows remaining :
  forall turn cid name scenario total history,
    rows_of cid history ->
    hoare (fun _ : Run W => True)
          (audio_turns remaining turn cid name scenario total history)
          (fun result _ => rows_of cid result.2).
Proof.
  induction remaining as [|remaining IH]; intros turn cid name scenario total
    history Hrows; cbn [audio_turns].
  - by apply hoare_ret.
  - skip_bind. apply hoare_if.
    + skip_bind. by apply IH.
    + skip_bind. skip_bind. skip_bind. skip_bind. apply hoare_if.
      * skip_bind. by apply hoare_ret.
      * skip_bind. skip_bind. apply hoare_then.
        intros [[[[seconds rate] chans] size]|]; [|by apply hoare_ret].
        skip_bind. skip_bind. apply IH. by apply rows_of_app.
Qed.

(** A validated history is reported and returned. *)
Lemma report_validation cid history (v : pyresult verdict) :
  rows_of cid history ->
  hoare (fun _ : Run W => True)
        (v' ← pure_result v;
         print (EvValidation cid v');;
         mret (if accepted v' then Some history else None))
        (accepted_for cid).
Proof.
  intros Hrows st result st' _.
  unfold mbind, M_bind, pure_result, print, mret, M_ret.
  destruct v as [v|e]; [|discriminate].
  intros [= <- <-]. destruct v; cbn [accepted accepted_for]; try done.
  split; [|done]. unfold printed. cbn [stdout].
  apply elem_of_app. right. by left.
Qed.

Lemma text_attempt_accepted cfg cid scenario :
  hoare (fun _ : Run W => True) (text_attempt cfg cid scenario)
        (accepted_for cid).
Proof.
  unfold text_attempt. skip_bind. skip_bind.
  eapply hoare_bind; [apply text_turns_rows; constructor|].
  intros [ok history]. cbn [snd].
  destruct ok.
  - intros st result st' Hrows. by apply report_validation.
  - by apply hoare_ret.
Qed.

Lemma audio_attempt_accepted cfg cid scenario :
  hoare (fun _ : Run W => True) (audio_attempt cfg cid scenario)
        (accepted_for cid).
Proof.
  unfold audio_attempt. skip_bind. skip_bind.
  eapply hoare_bind; [apply audio_turns_rows; constructor|].
  intros [ok history]. cbn [snd].
  destruct ok.
  - intros st result st' Hrows. unfold mbind at 1, M_bind at 1, get_run.
    by apply report_validation.
  - by apply hoare_ret.
Qed.

End AttemptFacts.

(* ===================================================================== *)
(** ** Only accepted conversations reach the output *)
(* ===================================================================== *)

Section DriverFacts.
Context {W : Type} `{World W}.
Variable cfg : Config.
Variable attempt_body : Z -> pystr -> M (Run W) (option (list Turn)).

Hypothesis body_printed :
  forall ev cid scenario,
    keeps (printed (W := W) ev) (attempt_body cid scenario).
Hypothesis body_accepted :
  forall cid scenario,
    hoare (fun _ : Run W => True) (attempt_body cid scenario) (accepted_for cid).

Lemma handler_printed ev cid attempt e :
  keeps (printed (W := W) ev)
    (print (EvError cid (attempt + 1) e);;
     (if (attempt =? MAX_RETRIES_PER_CONVERSATION cfg - 1)%nat
      then print (EvSkipping cid (MAX_RETRIES_PER_CONVERSATION cfg))
      else mret ());;
     mret (None : option (list Turn))).
Proof.
  apply keeps_bind; [apply printed_print|]. intros _.
  apply keeps_bind; [|intros _; apply keeps_ret].
  apply keeps_if; [apply printed_print|apply keeps_ret].
Qed.

Lemma attempts_printed ev remaining : forall attempt cid scenario,
  keeps (printed (W := W) ev)
        (attempts cfg attempt_body remaining attempt cid scenario).
Proof.
  induction remaining as [|remaining IH]; intros; cbn [attempts];
    [apply keeps_ret|].
  apply keeps_bind.
  - apply keeps_try_except; [apply body_printed|].
    intros e. apply handler_printed.
  - intros [history|]; [apply keeps_ret|apply IH].
Qed.

Lemma attempts_accepted remaining : forall attempt cid scenario,
  hoare (fun _ : Run W => True)
        (attempts cfg attempt_body remaining attempt cid scenario)
        (accepted_for cid).
Proof.
  induction remaining as [|remaining IH]; intros; cbn [attempts];
    [by apply hoare_ret|].
  apply (hoare_bind _ _ _ (accepted_for cid)).
  - apply (hoare_weaken (fun s => True /\ True) _ _ (accepted_for cid));
      [|done|done].
    apply hoare_try_except; [apply body_accepted|apply keeps_True|].
    intros e st result st' _.
    unfold mbind, M_bind, print, mret, M_ret.
    destruct (_ =? _)%nat; by intros [= <- <-].
  - intros [history|]; [by apply hoare_ret|].
    eapply hoare_weaken; [apply IH|done|done].
Qed.

Lemma rows_validated_kept {A} rows (m : M (Run W) A) :
  (forall ev, keeps (printed (W := W) ev) m) ->
  keeps (rows_validated rows) m.
Proof.
  intros Hm. unfold rows_validated.
  apply keeps_forall. intros row. apply keeps_impl. apply Hm.
Qed.

Lemma rows_validated_app rows history cid (st : Run W) :
  rows_validated rows st ->
  accepted_for cid (Some history) st ->
  rows_validated (rows ++ history) st.
Proof.
  intros Hrows [Hpass Hcid] row Hin.
  apply elem_of_app in Hin as [Hin|Hin]; [by apply Hrows|].
  unfold rows_of in Hcid. rewrite Forall_forall in Hcid.
  by rewrite (Hcid row Hin).
Qed.

Lemma conversations_validated conv_idxs : forall start dist rows successful,
  hoare (rows_validated rows)
        (conversations cfg attempt_body conv_idxs start dist rows successful)
        (fun result st => rows_validated result.1 st).
Proof.
  induction conv_idxs as [|conv_idx rest IH]; intros; cbn [conversations].
  - by apply hoare_ret.
  - eapply hoare_bind; [apply hoare_pure_result|]. intros scenario.
    cbv beta.
    apply (hoare_bind _ _ _
             (fun result st => accepted_for (start + Z.of_nat conv_idx) result st
                               /\ rows_validated rows st)).
    + apply (hoare_weaken
               (fun s => True /\ rows_validated rows s) _ _
               (fun result st =>
                  accepted_for (start + Z.of_nat conv_idx) result st
                  /\ rows_validated rows st)); [|done|done].
      apply hoare_and; [apply attempts_accepted|].
      apply hoare_keeps, rows_validated_kept.
      intros ev. apply attempts_printed.
    + intros [history|].
      * eapply hoare_weaken; [apply IH| |done].
        intros st [Hacc Hrows]. by eapply rows_validated_app.
      * eapply hoare_weaken; [apply IH| |done]. by intros st [_ Hrows].
Qed.

Lemma agent_rows_subset rows kept :
  agent_rows rows = Returned kept -> kept ⊆ rows.
Proof.
  revert kept. induction rows as [|row rest IH]; intros kept; cbn [agent_rows].
  - by intros [= <-].
  - unfold mbind, pyresult_bind.
    destruct (subscript (role row)) as [r|]; [|discriminate].
    destruct (agent_rows rest) as [kept'|]; [|discriminate].
    intros [= <-]. specialize (IH kept' eq_refl).
    destruct (bool_decide (r = agent)); intros x Hx.
    + apply elem_of_cons in Hx as [->|Hx]; [by left|right; by apply IH].
    + right. by apply IH.
Qed.

Lemma run_generator_validated :
  hoare (fun _ : Run W => True) (run_generator cfg attempt_body)
        (fun out st =>
           rows_validated (manifest_rows out ++ asr_rows out ++ tts_rows out) st).
Proof.
  unfold run_generator. apply hoare_then. intros st0. apply hoare_then.
  intros dist.
  apply (hoare_bind _ _ _ (fun result st => rows_validated result.1 st)).
  - eapply hoare_weaken; [apply conversations_validated| |done].
    intros st _ row Hin. by apply elem_of_nil in Hin.
  - intros [rows successful]. cbn [fst].
    intros st out st' Hrows.
    unfold mbind, M_bind, pure_result, mret, M_ret.
    destruct (agent_rows rows) as [tts|] eqn:E; [|discriminate].
    intros [= <- <-]. cbn [manifest_rows asr_rows tts_rows].
    apply agent_rows_subset in E.
    intros row Hin. apply Hrows.
    apply elem_of_app in Hin as [Hin|Hin]; [done|].
    apply elem_of_app in Hin as [Hin|Hin]; [done|by apply E].
Qed.

End DriverFacts.

Section GeneratorFacts.
Context {W : Type} `{World W}.

Lemma generate_validated (g : Generator) cfg (w : W) out st :
  generate g cfg w = (Returned (Some out), st) ->
  rows_validated (manifest_rows out ++ asr_rows out ++ tts_rows out) st.
Proof.
  destruct g; cbn [generate];
    unfold generate_text_only_conversations, generate_synthetic_data_with_audio;
    (destruct (validate_config cfg w); [|discriminate]).
  - destruct (run_generator _ _ _) as [[out'|e] st'] eqn:E; [|discriminate].
    intros [= <- <-].
    eapply (run_generator_validated cfg (text_attempt cfg)); [| |done|exact E].
    + intros ev cid scenario. apply printed_text_attempt.
    + intros cid scenario. apply text_attempt_accepted.
  - destruct (run_generator _ _ _) as [[out'|e] st'] eqn:E; [|discriminate].
    intros [= <- <-].
    eapply (run_generator_validated cfg (audio_attempt cfg)); [| |done|exact E].
    + intros ev cid scenario. apply printed_audio_attempt.
    + intros cid scenario. apply audio_attempt_accepted.
Qed.

(** C4: a conversation none of whose attempts passed validation has no
    row in the manifest, in the ASR view or in the TTS view; for both
    generators. *)
Theorem rejected_conversation_absent (g : Generator) cfg (w : W) out st cid :
  generate g cfg w = (Returned (Some out), st) ->
  ~ printed (EvValidation cid Pass) st ->
  forall row,
    row ∈ manifest_rows out ++ asr_rows out ++ tts_rows out ->
    conversation_id row <> cid.
Proof.
  intros Hrun Hnone row Hin Hcid. apply Hnone. rewrite <- Hcid.
  by apply (generate_validated g cfg w out st Hrun).
Qed.

End GeneratorFacts.

Lemma rejected_conversation_absent_witness :
  Forall (fun row => conversation_id row <> 2%Z)
         (manifest_rows text_output ++ asr_rows text_output
          ++ tts_rows text_output).
Proof.
  apply Forall_forall.
  apply (rejected_conversation_absent TextOnly repo_config sim_two_silent
           text_output text_final 2).
  - vm_compute. reflexivity.
  - apply (bool_decide_eq_false_1 (printed (EvValidation 2 Pass) text_final)).
    vm_compute. reflexivity.
Defined.

(** In that run eight of the ten conversations are written, 84 rows in
    all, 42 of them in the TTS view. *)
Lemma text_run_summary :
  successful_conversations text_output = 8%nat
  /\ length (manifest_rows text_output) = 84%nat
  /\ length (tts_rows text_output) = 42%nat
  /\ remove_dups (map conversation_id (manifest_rows text_output))
     = [1; 3; 4; 6; 7; 8; 9; 10]%Z.
Proof. vm_compute. by repeat split. Qed.

(* ===================================================================== *)
(** ** More on the validators *)
(* ===================================================================== *)

Lemma bind_subscript_Some {A B} (x : A) (f : A -> pyresult B) :
  subscript (Some x) ≫= f = f x.
Proof. reflexivity. Qed.

Lemma bind_Returned {A B} (x : A) (f : A -> pyresult B) :
  Returned x ≫= f = f x.
Proof. reflexivity. Qed.

Lemma check_ending_proper history :
  proper_ending history -> check_ending history = Returned Pass.
Proof.
  intros (front & t2 & t1 & -> & R2 & I2 & R1 & I1).
  unfold check_ending, neg_index.
  rewrite rev_app_distr. cbn [rev app lookup list_lookup Nat.sub].
  rewrite !bind_Returned.
  rewrite R2, bind_subscript_Some, bool_decide_eq_true_2 by done.
  cbn [negb]. rewrite I2, bind_subscript_Some. cbn [is_str].
  rewrite bool_decide_eq_true_2 by done. cbn [negb].
  rewrite R1, bind_subscript_Some, bool_decide_eq_true_2 by done.
  cbn [negb].
  destruct I1 as [-> | ->]; reflexivity.
Qed.

Lemma alternates_expected history i turn :
  alternates history -> history !! i = Some turn ->
  role turn = Some (expected_role i).
Proof. intros Ha Hi. rewrite expected_role_even. by apply Ha. Qed.

Lemma text_turn_loop_good turns k : forall i,
  (forall j turn, turns !! j = Some turn ->
     role turn = Some (expected_role (i + j)) /\ text_length_ok turn) ->
  text_turn_loop i turns k = k.
Proof.
  induction turns as [|t rest IH]; intros i Hturns; [done|].
  cbn [text_turn_loop].
  destruct (Hturns O t eq_refl) as [Hr [L1 L2]].
  rewrite Nat.add_0_r in Hr. rewrite Hr, bind_subscript_Some.
  rewrite bool_decide_eq_true_2 by done. cbn [negb].
  replace (transcript_len t <? 15)%nat with false
    by (symmetry; apply Nat.ltb_ge; lia).
  replace (300 <? transcript_len t)%nat with false
    by (symmetry; apply Nat.ltb_ge; lia).
  cbn [orb]. apply IH. intros j turn Hj.
  replace (S i + j)%nat with (i + S j)%nat by lia. by apply Hturns.
Qed.

Lemma audio_turn_loop_good exists_ turns k : forall i,
  (forall j turn, turns !! j = Some turn ->
     role turn = Some (expected_role (i + j)) /\ audio_turn_ok exists_ turn) ->
  audio_turn_loop exists_ i turns k = k.
Proof.
  induction turns as [|t rest IH]; intros i Hturns; [done|].
  cbn [audio_turn_loop].
  destruct (Hturns O t eq_refl) as [Hr (Hf & (d & Hd & Hpos) & L1 & L2)].
  rewrite Nat.add_0_r in Hr. rewrite Hr, bind_subscript_Some.
  rewrite bool_decide_eq_true_2 by done. cbn [negb].
  rewrite Hf. cbn [negb]. rewrite Hd, Hpos.
  replace (transcript_len t <? 20)%nat with false
    by (symmetry; apply Nat.ltb_ge; lia).
  replace (200 <? transcript_len t)%nat with false
    by (symmetry; apply Nat.ltb_ge; lia).
  cbn [orb]. apply IH. intros j turn Hj.
  replace (S i + j)%nat with (i + S j)%nat by lia. by apply Hturns.
Qed.

Lemma text_accepts_elim cfg history :
  validate_text_conversation cfg history = Returned Pass ->
  turn_count_ok cfg (length history) = true
  /\ alternates history
  /\ Forall text_length_ok history
  /\ proper_ending history.
Proof.
  intros H. pose proof (validate_text_conversation_sound _ _ H) as Hwf.
  unfold validate_text_conversation in H.
  destruct (turn_count_ok cfg (length history)) eqn:E; [|discriminate].
  cbn [negb] in H. apply text_turn_loop_pass in H as [_ Hturns].
  destruct Hwf as [Ha _ _ _ Hend]. split; [done|]. split; [done|].
  split; [|done].
  apply Forall_lookup. intros j turn Hj. by apply (Hturns j).
Qed.

Lemma text_accepts_intro cfg history :
  turn_count_ok cfg (length history) = true ->
  alternates history ->
  Forall text_length_ok history ->
  proper_ending history ->
  validate_text_conversation cfg history = Returned Pass.
Proof.
  intros Hn Ha Hlen Hend.
  unfold validate_text_conversation. rewrite Hn. cbn [negb].
  rewrite text_turn_loop_good; [by apply check_ending_proper|].
  intros j turn Hj. split; [by apply (alternates_expected history)|].
  by apply (Forall_lookup_1 _ _ _ _ Hlen Hj).
Qed.

Lemma audio_accepts_elim cfg exists_ history :
  validate_conversation_with_audio cfg exists_ history = Returned Pass ->
  turn_count_ok cfg (length history) = true
  /\ alternates history
  /\ Forall (audio_turn_ok exists_) history
  /\ proper_ending history.
Proof.
  intros H. pose proof (validate_conversation_with_audio_sound _ _ _ H) as Hwf.
  unfold validate_conversation_with_audio in H.
  destruct (turn_count_ok cfg (length history)) eqn:E; [|discriminate].
  cbn [negb] in H. apply audio_turn_loop_pass in H as [_ Hturns].
  destruct Hwf as [Ha _ _ _ Hend]. split; [done|]. split; [done|].
  split; [|done].
  apply Forall_lookup. intros j turn Hj.
  destruct (Hturns j turn Hj) as (_ & L & Hf & Hd).
  split; [exact Hf|]. split; [exact Hd|exact L].
Qed.

Lemma audio_accepts_intro cfg exists_ history :
  turn_count_ok cfg (length history) = true ->
  alternates history ->
  Forall (audio_turn_ok exists_) history ->
  proper_ending history ->
  validate_conversation_with_audio cfg exists_ history = Returned Pass.
Proof.
  intros Hn Ha Hlen Hend.
  unfold validate_conversation_with_audio. rewrite Hn. cbn [negb].
  rewrite audio_turn_loop_good; [by apply check_ending_proper|].
  intros j turn Hj. split; [by apply (alternates_expected history)|].
  by apply (Forall_lookup_1 _ _ _ _ Hlen Hj).
Qed.

Lemma audio_turn_text_length exists_ turn :
  audio_turn_ok exists_ turn -> text_length_ok turn.
Proof. intros (_ & _ & L). unfold text_length_ok. lia. Qed.

(** X1: the text-only validator accepts exactly the histories whose
    length is in range, whose roles alternate from the agent, whose
    transcripts have 15 to 300 characters and whose last two turns are the
    agent's closing and the user's thanks or confirmation. *)
Theorem text_validator_accepts_iff cfg history :
  validate_text_conversation cfg history = Returned Pass
  <-> turn_count_ok cfg (length history) = true
      /\ alternates history
      /\ Forall text_length_ok history
      /\ proper_ending history.
Proof.
  split; [apply text_accepts_elim|].
  intros (Hn & Ha & Hlen & Hend). by apply text_accepts_intro.
Qed.

(** X2: the validator with audio accepts exactly the histories that
    satisfy the same structure and whose every turn has an existing audio
    file, a duration that is not [<= 0] and a transcript of 20 to 200
    characters. *)
Theorem audio_validator_accepts_iff cfg exists_ history :
  validate_conversation_with_audio cfg exists_ history = Returned Pass
  <-> turn_count_ok cfg (length history) = true
      /\ alternates history
      /\ Forall (audio_turn_ok exists_) history
      /\ proper_ending history.
Proof.
  split; [apply audio_accepts_elim|].
  intros (Hn & Ha & Hlen & Hend). by apply audio_accepts_intro.
Qed.

Lemma audio_accepted_text cfg exists_ history :
  validate_conversation_with_audio cfg exists_ history = Returned Pass ->
  validate_text_conversation cfg history = Returned Pass.
Proof.
  intros H. apply audio_accepts_elim in H as (Hn & Ha & Hlen & Hend).
  apply text_accepts_intro; try done.
  eapply Forall_impl; [exact Hlen|]. apply audio_turn_text_length.
Qed.

(** X3: whatever the validator with audio accepts, the text-only validator
    accepts as well. *)
Theorem audio_accepted_is_text_accepted cfg exists_ history :
  validate_conversation_with_audio cfg exists_ history = Returned Pass ->
  validate_text_conversation cfg history = Returned Pass.
Proof. apply audio_accepted_text. Qed.

Lemma audio_accepted_is_text_accepted_witness :
  validate_text_conversation repo_config six_turns = Returned Pass.
Proof.
  apply (audio_accepted_is_text_accepted repo_config all_files six_turns).
  vm_compute. reflexivity.
Defined.







(** An empty history makes the ending check raise: [history[-2]] is out of
    range. *)
Lemma check_ending_short history :
  (length history < 2)%nat -> check_ending history = Raised IndexError.
Proof.
  intros Hl. destruct history as [|t [|t' rest]]; [done| |simpl in Hl; lia].
  reflexivity.
Qed.

(** X5: under a configuration whose range admits fewer than two turns, a
    history that short (with its roles in place and its transcript long
    enough) is not rejected: the validators raise [IndexError]. *)
Theorem validators_raise_on_short_history cfg exists_ history :
  turn_count_ok cfg (length history) = true ->
  (length history < 2)%nat ->
  Forall (fun t => role t = Some agent /\ audio_turn_ok exists_ t) history ->
  validate_text_conversation cfg history = Raised IndexError
  /\ validate_conversation_with_audio cfg exists_ history = Raised IndexError.
Proof.
  intros Hn Hl Hturns.
  unfold validate_text_conversation, validate_conversation_with_audio.
  rewrite Hn. cbn [negb].
  assert (Hroles : forall j turn, history !! j = Some turn ->
            role turn = Some (expected_role (0 + j))
            /\ text_length_ok turn /\ audio_turn_ok exists_ turn).
  { intros j turn Hj.
    destruct (Forall_lookup_1 _ _ _ _ Hturns Hj) as [Hr Hok].
    assert (j = O) as -> by (apply lookup_lt_Some in Hj; lia).
    split; [done|]. split; [|done].
    destruct Hok as (_ & _ & L). unfold text_length_ok. lia. }
  rewrite text_turn_loop_good, audio_turn_loop_good.
  - split; by apply check_ending_short.
  - intros j turn Hj. destruct (Hroles j turn Hj) as (? & ? & ?). by split.
  - intros j turn Hj. destruct (Hroles j turn Hj) as (? & ? & ?). by split.
Qed.

Lemma validators_raise_on_short_history_witness :
  validate_text_conversation short_config [] = Raised IndexError
  /\ validate_conversation_with_audio short_config all_files []
     = Raised IndexError.
Proof.
  apply (validators_raise_on_short_history short_config all_files []).
  - reflexivity.
  - simpl. lia.
  - constructor.
Defined.

(* ===================================================================== *)
(** ** Turn instructions *)
(* ===================================================================== *)

Lemma scenario_info_of_known table name :
  name ∈ map fst table -> exists info, scenario_info_of table name = Returned info.
Proof.
  induction table as [|[k info] rest IH]; intros Hin; cbn [scenario_info_of].
  - by apply elem_of_nil in Hin.
  - destruct (bool_decide (k = name)) eqn:E; [eauto|].
    apply bool_decide_eq_false in E.
    apply elem_of_cons in Hin as [Hin|Hin]; [by symmetry in Hin|by apply IH].
Qed.

Lemma scenario_info_of_unknown table name :
  name ∉ map fst table -> scenario_info_of table name = Raised KeyError.
Proof.
  induction table as [|[k info] rest IH]; intros Hin; cbn [scenario_info_of];
    [done|].
  rewrite bool_decide_eq_false_2.
  - apply IH. intros ?. apply Hin. by right.
  - intros ->. apply Hin. by left.
Qed.

Lemma get_turn_instruction_known who history total turn scenario name info :
  scenario_info_of TELECOM_SCENARIOS scenario = Returned info ->
  exists s, get_turn_instruction who history total turn scenario name
            = Returned s.
Proof.
  intros Hinfo. unfold get_turn_instruction. rewrite Hinfo, bind_Returned.
  repeat (match goal with
          | |- context [if ?b then _ else _] => destruct b
          | |- context [match ?x with Some _ => _ | None => _ end] => destruct x
          end); eauto.
Qed.

(** X6: the function raises [KeyError] exactly for a scenario name that is
    not a key of [TELECOM_SCENARIOS], whatever the turn; for the five
    scenarios it returns an instruction. *)
Theorem get_turn_instruction_scenarios who history total turn scenario name :
  (get_turn_instruction who history total turn scenario name = Raised KeyError
   <-> scenario ∉ map fst TELECOM_SCENARIOS)
  /\ ((exists s, get_turn_instruction who history total turn scenario name
                 = Returned s)
      <-> scenario ∈ map fst TELECOM_SCENARIOS).
Proof.
  destruct (decide (scenario ∈ map fst TELECOM_SCENARIOS)) as [Hin|Hout].
  - destruct (scenario_info_of_known _ _ Hin) as [info Hinfo].
    destruct (get_turn_instruction_known who history total turn scenario name
                info Hinfo) as [s Hs].
    split; split; try done; [|eauto].
    rewrite Hs. discriminate.
  - assert (Hraise : get_turn_instruction who history total turn scenario name
                     = Raised KeyError).
    { unfold get_turn_instruction.
      by rewrite (scenario_info_of_unknown _ _ Hout). }
    split; split; try done.
    rewrite Hraise. by intros [s Hs].
Qed.

Lemma middle_turn_tests total turn :
  middle_turn total turn ->
  (turn =? 1)%Z = false /\ (turn =? total - 1)%Z = false
  /\ (turn =? total)%Z = false.
Proof. intros (H1 & H2 & H3). repeat split; by apply Z.eqb_neq. Qed.

(** X7: in every scenario, at a middle turn, the agent who has just heard
    a complaint is told to ask for information. *)
Theorem agent_after_complaint_asks who history total turn scenario name :
  scenario ∈ map fst TELECOM_SCENARIOS ->
  middle_turn total turn ->
  who = agent ->
  last_intent_is history complaint = true ->
  exists s, get_turn_instruction who history total turn scenario name
            = Returned s
            /\ asks_for s info_request = true.
Proof.
  intros Hin Hmid -> Hlast.
  destruct (scenario_info_of_known _ _ Hin) as [info Hinfo].
  destruct (middle_turn_tests _ _ Hmid) as (T1 & T2 & T3).
  unfold get_turn_instruction, agent_scenario_rule.
  rewrite Hinfo, bind_Returned, T1, T2, T3, Hlast.
  rewrite bool_decide_eq_true_2 by done.
  destruct (bool_decide (scenario = billing_dispute));
    [|destruct (bool_decide (scenario = technical_support))];
    eexists; (split; [reflexivity|vm_compute; reflexivity]).
Qed.

Lemma agent_after_complaint_asks_witness :
  exists s, get_turn_instruction agent two_turns 8 3 package_change (py "Ayşe")
            = Returned s
            /\ asks_for s info_request = true.
Proof.
  apply (agent_after_complaint_asks agent two_turns 8 3 package_change
           (py "Ayşe")).
  - vm_compute. do 2 right. left.
  - repeat split; discriminate.
  - reflexivity.
  - vm_compute. reflexivity.
Defined.

Lemma startswith_nil s : startswith s [] = true.
Proof. by destruct s. Qed.

Lemma startswith_app_long s t p :
  (length p <= length s)%nat -> startswith (s ++ t) p = startswith s p.
Proof.
  revert s. induction p as [|c p IHp]; intros s Hl.
  - by rewrite !startswith_nil.
  - destruct s as [|d s]; [simpl in Hl; lia|].
    cbn [app startswith]. rewrite IHp; [done|]. simpl in Hl. lia.
Qed.

Lemma greeting_instruction_asks name intent_name :
  (length intent_name <= 20)%nat ->
  asks_for (greeting_instruction name) intent_name
  = asks_for (pyq "ve nasıl yardımcı olabileceğini sor. Intent: 'greeting'")
             intent_name.
Proof.
  intros Hl. unfold asks_for, endswith, greeting_instruction.
  set (tail := pyq "ve nasıl yardımcı olabileceğini sor. Intent: 'greeting'").
  assert (Hsplit : exists front,
             pyq " adındaki ajansın. Sıcak bir selamlama yap ve nasıl yardımcı olabileceğini sor. Intent: 'greeting'"
             = front ++ tail).
  { exists (pyq " adındaki ajansın. Sıcak bir selamlama yap ").
    vm_compute. reflexivity. }
  destruct Hsplit as [front ->].
  rewrite !app_assoc, rev_app_distr.
  apply startswith_app_long.
  rewrite !length_rev, !length_app. subst tail.
  change (length (pyq "Intent: '")) with 9%nat.
  change (length (pyq "'")) with 1%nat.
  change (length (pyq "ve nasıl yardımcı olabileceğini sor. Intent: 'greeting'"))
    with 55%nat.
  lia.
Qed.

Ltac refute_asks :=
  match goal with
  | H : asks_for _ _ = true |- _ => vm_compute in H; discriminate H
  end.

(** X8: an instruction that ends by asking for the intent [solution] is
    only ever given to the agent, in the billing or the technical scenario,
    at a middle turn after turn 4, when the last turn provided
    information. *)
Theorem solution_instruction_only who history total turn scenario name s :
  get_turn_instruction who history total turn scenario name = Returned s ->
  asks_for s solution = true ->
  who = agent
  /\ (scenario = billing_dispute \/ scenario = technical_support)
  /\ last_intent_is history info_provide = true
  /\ (4 < turn)%Z
  /\ middle_turn total turn.
Proof.
  unfold get_turn_instruction.
  destruct (scenario_info_of TELECOM_SCENARIOS scenario) as [info|e];
    [rewrite bind_Returned|discriminate].
  destruct (turn =? 1)%Z eqn:T1.
  { intros [= <-] H. rewrite greeting_instruction_asks in H by (vm_compute; lia).
    refute_asks. }
  destruct (turn =? total - 1)%Z eqn:T2; [intros [= <-] H; refute_asks|].
  destruct (turn =? total)%Z eqn:T3; [intros [= <-] H; refute_asks|].
  assert (Hmid : middle_turn total turn).
  { repeat split; by apply Z.eqb_neq. }
  destruct (bool_decide (who = agent)) eqn:Hwho.
  - apply bool_decide_eq_true in Hwho. unfold agent_scenario_rule.
    destruct (bool_decide (scenario = billing_dispute)) eqn:Hb;
      [|destruct (bool_decide (scenario = technical_support)) eqn:Ht].
    + apply bool_decide_eq_true in Hb.
      destruct (last_intent_is history complaint) eqn:Hc;
        [intros [= <-] H; refute_asks|].
      destruct (last_intent_is history info_provide) eqn:Hp;
        destruct (4 <? turn)%Z eqn:H4; cbn [andb orb];
        try (apply Z.ltb_lt in H4; intros _ _; by auto 10);
        destruct (last_intent_is history info_request);
        intros [= <-] H; refute_asks.
    + apply bool_decide_eq_true in Ht.
      destruct (last_intent_is history complaint) eqn:Hc;
        [intros [= <-] H; refute_asks|].
      destruct (last_intent_is history info_provide) eqn:Hp;
        destruct (4 <? turn)%Z eqn:H4; cbn [andb orb];
        try (apply Z.ltb_lt in H4; intros _ _; by auto 10);
        destruct (last_intent_is history info_request);
        intros [= <-] H; refute_asks.
    + destruct (last_intent_is history complaint);
        destruct (last_intent_is history info_request);
        destruct (last_intent_is history info_provide); cbn [orb];
        intros [= <-] H; refute_asks.
  - destruct (last_intent_is history greeting).
    { destruct (bool_decide (scenario = billing_dispute)
                || bool_decide (scenario = technical_support));
        intros [= <-] H; refute_asks. }
    destruct (last_intent_is history info_request);
      [intros [= <-] H; refute_asks|].
    destruct (last_intent_is history solution
              || last_intent_is history options_presentation);
      intros [= <-] H; refute_asks.
Qed.

Lemma solution_instruction_only_witness :
  agent = agent
  /\ (billing_dispute = billing_dispute \/ billing_dispute = technical_support)
  /\ last_intent_is four_turns_informed info_provide = true
  /\ (4 < 5)%Z
  /\ middle_turn 8 5.
Proof.
  apply (solution_instruction_only agent four_turns_informed 8 5
           billing_dispute (py "Ayşe") billing_solution_instruction).
  - vm_compute. reflexivity.
  - vm_compute. reflexivity.
Defined.

(* ===================================================================== *)
(** ** Scenario labels *)
(* ===================================================================== *)

Section ScenarioLabels.
Context {W : Type} `{World W}.

Lemma weighted_copies_keys n weights :
  Forall (fun s => s ∈ map fst weights) (weighted_copies n weights).
Proof.
  induction weights as [|[s wt] rest IH]; [constructor|].
  rewrite weighted_copies_cons. apply Forall_app. split.
  - unfold repeat_label. apply Forall_forall. intros x Hx.
    apply elem_of_replicate in Hx as [-> _]. by left.
  - eapply Forall_impl; [exact IH|]. intros x Hx. by right.
Qed.

Lemma fill_remaining_keys missing : forall keys scenarios w,
  keys <> [] \/ missing = O ->
  exists extra w',
    fill_remaining missing keys scenarios w = (Returned (scenarios ++ extra), w')
    /\ length extra = missing
    /\ Forall (fun s => s ∈ keys) extra.
Proof.
  induction missing as [|missing IH]; intros keys scenarios w Hk.
  - exists [], w. by rewrite app_nil_r.
  - destruct Hk as [Hk|]; [|done].
    cbn [fill_remaining]. unfold mbind, M_bind.
    destruct (choice_spec keys w Hk) as (c & w1 & -> & Hc).
    destruct (IH keys (scenarios ++ [c]) w1 (or_introl Hk))
      as (extra & w' & -> & Hlen & Hkeys).
    exists (c :: extra), w'. rewrite <- app_assoc. split; [done|].
    split; [simpl; lia|by constructor].
Qed.

Lemma scenario_distribution_returns (cfg : Config) (w : W) :
  SCENARIO_WEIGHTS cfg <> [] ->
  exists labels w',
    get_scenario_distribution cfg w = (Returned labels, w')
    /\ length labels = NUM_CONVERSATIONS cfg
    /\ Forall (fun s => s ∈ map fst (SCENARIO_WEIGHTS cfg)) labels.
Proof.
  intros Hne. unfold get_scenario_distribution.
  set (n := NUM_CONVERSATIONS cfg). set (weights := SCENARIO_WEIGHTS cfg).
  destruct (fill_remaining_keys (n - length (weighted_copies n weights))
              (map fst weights) (weighted_copies n weights) w)
    as (extra & w1 & Hfill & Hextra & Hkeys).
  { left. subst weights. by destruct (SCENARIO_WEIGHTS cfg). }
  unfold mbind at 1, M_bind. rewrite Hfill.
  destruct (shuffle_spec (weighted_copies n weights ++ extra) w1)
    as (shuffled & w2 & Hsh & Hperm).
  unfold mbind, M_bind. rewrite Hsh.
  exists (take n shuffled), w2. split; [done|]. split.
  - rewrite length_take, (Permutation_length Hperm), length_app. lia.
  - apply Forall_take. rewrite Hperm. apply Forall_app. split; [|done].
    apply weighted_copies_keys.
Qed.


(** X10: without any scenario the function raises [IndexError] as soon as
    one conversation is asked for, before it draws any random number. *)
Theorem scenario_distribution_empty (cfg : Config) (w : W) :
  SCENARIO_WEIGHTS cfg = [] ->
  (0 < NUM_CONVERSATIONS cfg)%nat ->
  get_scenario_distribution cfg w = (Raised IndexError, w).
Proof.
  intros Hw Hn. unfold get_scenario_distribution. rewrite Hw.
  cbn [weighted_copies flat_map length map].
  destruct (NUM_CONVERSATIONS cfg) as [|n]; [lia|].
  reflexivity.
Qed.

End ScenarioLabels.


Lemma scenario_distribution_empty_witness :
  get_scenario_distribution empty_config sim0 = (Raised IndexError, sim0).
Proof.
  apply (scenario_distribution_empty empty_config sim0).
  - reflexivity.
  - simpl. lia.
Defined.

(* ===================================================================== *)
(** ** The loops of the generators *)
(* ===================================================================== *)

Lemma alternates_pairs n : forall history,
  length history = (2 * n)%nat ->
  alternates history ->
  length (filter is_agent_row history) = n.
Proof.
  induction n as [|n IH]; intros history Hlen Halt.
  - by destruct history.
  - destruct history as [|a [|u rest]]; simpl in Hlen; try lia.
    pose proof (Halt 0%nat a eq_refl) as Ha.
    pose proof (Halt 1%nat u eq_refl) as Hu.
    cbn [Nat.even] in Ha, Hu.
    rewrite filter_cons_True by exact Ha.
    rewrite filter_cons_False.
    + cbn [length]. f_equal. apply IH; [lia|].
      intros i turn Hi. exact (Halt (S (S i)) turn Hi).
    + unfold is_agent_row. rewrite Hu. intros Heq.
      apply agent_neq_user. congruence.
Qed.

Lemma accepted_even history :
  alternates history -> proper_ending history ->
  exists n, length history = (2 * n)%nat.
Proof.
  intros Halt (front & t2 & t1 & -> & _ & _ & Hr1 & _).
  assert (Hl : (front ++ [t2; t1]) !! (length front + 1)%nat = Some t1).
  { rewrite lookup_app_r by lia.
    by replace (length front + 1 - length front)%nat with 1%nat by lia. }
  apply Halt in Hl. rewrite Hr1 in Hl.
  destruct (Nat.Even_or_Odd (length front)) as [[k Hk]|[k Hk]].
  - exists (k + 1)%nat. rewrite length_app. simpl. lia.
  - assert (He : Nat.even (length front + 1) = true).
    { apply Nat.even_spec. exists (k + 1)%nat. lia. }
    rewrite He in Hl. exfalso. apply agent_neq_user. congruence.
Qed.

(** Half the rows of an accepted history are the agent's, and its length
    is in the configured range. *)
Lemma good_history_counts cfg cid history :
  good_history cfg cid history ->
  length history = (2 * length (filter is_agent_row history))%nat
  /\ (TURNS_PER_DIALOG_MIN cfg <= Z.of_nat (length history)
      <= TURNS_PER_DIALOG_MAX cfg)%Z
  /\ Forall (fun row => is_Some (role row)) history.
Proof.
  intros [_ Hv]. apply text_accepts_elim in Hv as (Hn & Halt & _ & Hend).
  destruct (accepted_even history Halt Hend) as [n Hlen].
  rewrite (alternates_pairs n history Hlen Halt). split; [done|]. split.
  - unfold turn_count_ok in Hn. apply andb_true_iff in Hn as [H1 H2].
    apply Z.leb_le in H1, H2. lia.
  - apply Forall_lookup. intros i turn Hi. rewrite (Halt i turn Hi). eauto.
Qed.

Lemma agent_rows_filter rows :
  Forall (fun row => is_Some (role row)) rows ->
  agent_rows rows = Returned (filter is_agent_row rows).
Proof.
  induction 1 as [|row rest [r Hr] _ IH]; [done|].
  cbn [agent_rows]. rewrite Hr, bind_subscript_Some, IH, bind_Returned.
  destruct (decide (r = agent)) as [->|Hne].
  - rewrite bool_decide_eq_true_2 by done.
    by rewrite filter_cons_True by exact Hr.
  - rewrite bool_decide_eq_false_2 by done.
    rewrite filter_cons_False; [done|].
    unfold is_agent_row. rewrite Hr. by intros [= ->].
Qed.

Lemma picks_counts cfg start conv_idxs picks :
  picked_from cfg start conv_idxs picks ->
  let rows := concat (map snd picks) in
  (length picks <= length conv_idxs)%nat
  /\ length rows = (2 * length (filter is_agent_row rows))%nat
  /\ (TURNS_PER_DIALOG_MIN cfg * Z.of_nat (length picks)
      <= Z.of_nat (length rows)
      <= TURNS_PER_DIALOG_MAX cfg * Z.of_nat (length picks))%Z
  /\ Forall (fun row => is_Some (role row)) rows.
Proof.
  intros [Hsub Hgood]. cbv zeta. split.
  { apply sublist_length in Hsub. by rewrite length_map in Hsub. }
  clear Hsub. induction Hgood as [|[i history] rest Hh _ IH].
  - cbn. split; [done|]. split; [lia|constructor].
  - destruct IH as (IH1 & IH2 & IH3).
    apply good_history_counts in Hh as (H1 & H2 & H3). cbn [fst snd] in *.
    cbn [map concat snd length]. rewrite filter_app, !length_app.
    split; [lia|]. split; [|by apply Forall_app].
    rewrite Nat2Z.inj_succ, Nat2Z.inj_add, <- !Z.add_1_r, !Z.mul_add_distr_l.
    lia.
Qed.

Lemma rows_with_same cid history :
  rows_of cid history -> rows_with cid history = history.
Proof.
  unfold rows_with. induction 1 as [|row rest Hrow _ IH]; [done|].
  rewrite filter_cons_True by done. by rewrite IH.
Qed.

Lemma rows_with_other cid cid' history :
  rows_of cid' history -> cid' <> cid -> rows_with cid history = [].
Proof.
  unfold rows_with. intros Hrows Hne.
  induction Hrows as [|row rest Hrow _ IH]; [done|].
  rewrite filter_cons_False by congruence. exact IH.
Qed.

(** With one pick per index, the rows of an id are the history picked for
    it. *)
Lemma picks_rows_with cfg start picks i history :
  NoDup (map fst picks) ->
  Forall (fun pick => good_history cfg (start + Z.of_nat pick.1) pick.2) picks ->
  (i, history) ∈ picks ->
  rows_with (start + Z.of_nat i) (concat (map snd picks)) = history.
Proof.
  intros Hnd Hgood. revert Hnd.
  assert (Hrest : forall rest,
             Forall (fun pick => good_history cfg (start + Z.of_nat pick.1) pick.2)
                    rest ->
             i ∉ map fst rest ->
             rows_with (start + Z.of_nat i) (concat (map snd rest)) = []).
  { induction 1 as [|[j hj] rest [Hj _] _ IH]; intros Hi; [done|].
    cbn [map concat snd fst] in *. unfold rows_with in *.
    rewrite filter_app. fold (rows_with (start + Z.of_nat i) hj).
    rewrite (rows_with_other _ (start + Z.of_nat j)); [|done|].
    - apply IH. intros Hin. apply Hi. by right.
    - intros Heq. apply Hi. assert (i = j) as -> by lia. by left. }
  induction Hgood as [|[j hj] rest [Hj Hv] Hgood IH]; intros Hnd Hin.
  - by apply elem_of_nil in Hin.
  - cbn [map fst] in Hnd. apply NoDup_cons in Hnd as [Hj' Hnd].
    cbn [map concat snd fst] in *. unfold rows_with.
    rewrite filter_app.
    fold (rows_with (start + Z.of_nat i) hj).
    fold (rows_with (start + Z.of_nat i) (concat (map snd rest))).
    apply elem_of_cons in Hin as [[= <- <-]|Hin].
    + rewrite rows_with_same by done. rewrite Hrest by done.
      apply app_nil_r.
    + rewrite (rows_with_other _ (start + Z.of_nat j)); [by apply IH|done|].
      intros Heq. apply Hj'.
      assert (j = i) as -> by lia.
      by apply (list_elem_of_fmap_2 fst rest (i, history)).
Qed.

Lemma pick_of_row (picks : list (nat * list Turn)) (row : Turn) :
  row ∈ concat (map snd picks) ->
  exists i history, (i, history) ∈ picks /\ row ∈ history.
Proof.
  induction picks as [|[j hj] rest IH]; cbn [map concat snd].
  - intros Hin. by apply elem_of_nil in Hin.
  - intros Hin. apply elem_of_app in Hin as [Hin|Hin].
    + exists j, hj. split; [by left|done].
    + destruct (IH Hin) as (i & history & Hp & Hr).
      exists i, history. split; [by right|done].
Qed.

Section LoopFacts.
Context {W : Type} `{World W}.
Variable cfg : Config.
Variable attempt_body : Z -> pystr -> M (Run W) (option (list Turn)).



Hypothesis body_good :
  forall cid scenario,
    hoare (fun _ : Run W => True) (attempt_body cid scenario)
          (fun result _ => good_result cfg cid result).

Lemma attempts_good remaining : forall attempt cid scenario,
  hoare (fun _ : Run W => True)
        (attempts cfg attempt_body remaining attempt cid scenario)
        (fun result _ => good_result cfg cid result).
Proof.
  induction remaining as [|remaining IH]; intros; cbn [attempts];
    [by apply hoare_ret|].
  apply (hoare_bind _ _ _ (fun result _ => good_result cfg cid result)).
  - apply (hoare_weaken (fun s => True /\ True) _ _
             (fun result _ => good_result cfg cid result)); [|done|done].
    apply hoare_try_except; [apply body_good|apply keeps_True|].
    intros e st result st' _.
    unfold mbind, M_bind, print, mret, M_ret.
    destruct (_ =? _)%nat; by intros [= <- <-].
  - intros [history|]; [by apply hoare_ret|].
    eapply hoare_weaken; [apply IH|done|done].
Qed.

Lemma conversations_picked conv_idxs :
  forall start dist rows successful st result st',
    conversations cfg attempt_body conv_idxs start dist rows successful st
    = (Returned result, st') ->
    exists picks,
      picked_from cfg start conv_idxs picks
      /\ result.1 = rows ++ concat (map snd picks)
      /\ result.2 = (successful + length picks)%nat.
Proof.
  induction conv_idxs as [|conv_idx rest IH]; intros start dist rows successful
    st result st'; cbn [conversations].
  - intros [= <- <-]. exists []. cbn. rewrite app_nil_r.
    split; [split; [constructor|constructor]|]. split; [done|lia].
  - unfold mbind at 1, M_bind at 1, pure_result.
    destruct (index dist conv_idx) as [scenario|e]; [|discriminate].
    unfold mbind at 1, M_bind at 1.
    destruct (attempts cfg attempt_body _ 0 _ scenario st)
      as [[outcome|e] st1] eqn:Hatt; [|discriminate].
    pose proof (attempts_good _ _ _ _ st outcome st1 I Hatt) as Hgood.
    destruct outcome as [history|]; intros Hrun;
      destruct (IH _ _ _ _ _ _ _ Hrun) as (picks & [Hsub Hall] & Hrows & Hn).
    + exists ((conv_idx, history) :: picks). split; [split|].
      * cbn [map fst]. by apply sublist_skip.
      * by constructor.
      * cbn [map concat snd length]. rewrite Hrows, <- app_assoc.
        split; [done|lia].
    + exists picks. split; [split|by split]; [|done].
      by apply sublist_cons.
Qed.

Lemma run_generator_made st out st' :
  run_generator cfg attempt_body st = (Returned out, st') ->
  exists picks,
    picked_from cfg (next_conversation_id (world st))
                (seq 0 (NUM_CONVERSATIONS cfg)) picks
    /\ made_of picks out.
Proof.
  unfold run_generator.
  unfold mbind at 1, M_bind at 1, get_run.
  unfold mbind at 1, M_bind at 1.
  destruct (in_world (get_scenario_distribution cfg) st) as [[dist|e] st1];
    [|discriminate].
  unfold mbind at 1, M_bind at 1.
  destruct (conversations cfg attempt_body _ _ dist [] 0 st1)
    as [[[rows successful]|e] st2] eqn:Hconv; [|discriminate].
  destruct (conversations_picked _ _ _ _ _ _ _ _ Hconv)
    as (picks & Hpicked & Hrows & Hn).
  cbn [fst snd app] in Hrows, Hn. subst rows successful.
  pose proof (picks_counts _ _ _ _ Hpicked) as (_ & _ & _ & Hroles).
  unfold mbind, M_bind, pure_result, mret, M_ret.
  rewrite (agent_rows_filter _ Hroles).
  intros [= <- <-]. exists picks. split; [done|]. by repeat split.
Qed.


End LoopFacts.

Section AttemptsGood.
Context {W : Type} `{World W}.

Lemma report_good cfg cid history (v : pyresult verdict) :
  rows_of cid history ->
  (v = Returned Pass -> validate_text_conversation cfg history = Returned Pass) ->
  hoare (fun _ : Run W => True)
        (v' ← pure_result v;
         print (EvValidation cid v');;
         mret (if accepted v' then Some history else None))
        (fun result _ => good_result cfg cid result).
Proof.
  intros Hrows Hv st result st' _.
  unfold mbind, M_bind, pure_result, print, mret, M_ret.
  destruct v as [v|e]; [|discriminate].
  intros [= <- <-]. destruct v; cbn [accepted good_result]; try done.
  split; [done|by apply Hv].
Qed.

Lemma text_attempt_good cfg cid scenario :
  hoare (fun _ : Run W => True) (text_attempt cfg cid scenario)
        (fun result _ => good_result cfg cid result).
Proof.
  unfold text_attempt. apply hoare_then. intros agent_name.
  apply hoare_then. intros num_turns.
  eapply hoare_bind; [apply text_turns_rows; constructor|].
  intros [ok history]. cbn [snd].
  destruct ok.
  - intros st result st' Hrows. by apply report_good.
  - by apply hoare_ret.
Qed.

Lemma audio_attempt_good cfg cid scenario :
  hoare (fun _ : Run W => True) (audio_attempt cfg cid scenario)
        (fun result _ => good_result cfg cid result).
Proof.
  unfold audio_attempt. apply hoare_then. intros agent_name.
  apply hoare_then. intros num_turns.
  eapply hoare_bind; [apply audio_turns_rows; constructor|].
  intros [ok history]. cbn [snd].
  destruct ok.
  - intros st result st' Hrows. unfold mbind at 1, M_bind at 1, get_run.
    apply report_good; [done| |done]. apply audio_accepted_text.
  - by apply hoare_ret.
Qed.


(** What a generator returns is made of accepted histories, one for each
    index that succeeded. *)
Lemma generate_made (g : Generator) cfg (w : W) out st :
  generate g cfg w = (Returned (Some out), st) ->
  exists picks,
    picked_from cfg (next_conversation_id w) (seq 0 (NUM_CONVERSATIONS cfg))
                picks
    /\ made_of picks out.
Proof.
  destruct g; cbn [generate];
    unfold generate_text_only_conversations, generate_synthetic_data_with_audio;
    (destruct (validate_config cfg w); [|discriminate]).
  - destruct (run_generator _ _ _) as [[out'|e] st'] eqn:E; [|discriminate].
    intros [= <- <-].
    apply (run_generator_made cfg (text_attempt cfg) (text_attempt_good cfg)
             _ _ _ E).
  - destruct (run_generator _ _ _) as [[out'|e] st'] eqn:E; [|discriminate].
    intros [= <- <-].
    apply (run_generator_made cfg (audio_attempt cfg) (audio_attempt_good cfg)
             _ _ _ E).
Qed.


(** X12: in what a generator returns, the ASR view is the manifest, the
    TTS view is its agent rows and holds exactly half of the rows, at most
    [NUM_CONVERSATIONS] conversations succeeded, and the number of rows
    lies between the minimum and the maximum number of turns times the
    number of successful conversations. *)
Theorem generate_output_counts (g : Generator) cfg (w : W) out st :
  generate g cfg w = (Returned (Some out), st) ->
  asr_rows out = manifest_rows out
  /\ tts_rows out = filter is_agent_row (manifest_rows out)
  /\ length (manifest_rows out) = (2 * length (tts_rows out))%nat
  /\ (successful_conversations out <= NUM_CONVERSATIONS cfg)%nat
  /\ (TURNS_PER_DIALOG_MIN cfg * Z.of_nat (successful_conversations out)
      <= Z.of_nat (length (manifest_rows out))
      <= TURNS_PER_DIALOG_MAX cfg * Z.of_nat (successful_conversations out))%Z.
Proof.
  intros Hrun.
  destruct (generate_made g cfg w out st Hrun)
    as (picks & Hpicked & Hm & Ha & Ht & Hn).
  pose proof (picks_counts _ _ _ _ Hpicked) as (Hle & Hhalf & Hrange & _).
  cbv zeta in Hhalf, Hrange. rewrite length_seq in Hle.
  rewrite Ha, Ht, Hn, Hm. destruct Hrange. by repeat split.
Qed.

(** X13: the rows that carry the conversation id of any row of the
    manifest are, in file order, one whole history that the text-only
    validator accepts, and the id is one of the [NUM_CONVERSATIONS] ids
    from the starting id on. *)
Theorem manifest_conversations_whole (g : Generator) cfg (w : W) out st row :
  generate g cfg w = (Returned (Some out), st) ->
  row ∈ manifest_rows out ->
  validate_text_conversation cfg
    (rows_with (conversation_id row) (manifest_rows out)) = Returned Pass
  /\ (next_conversation_id w <= conversation_id row
      < next_conversation_id w + Z.of_nat (NUM_CONVERSATIONS cfg))%Z.
Proof.
  intros Hrun Hrow.
  destruct (generate_made g cfg w out st Hrun)
    as (picks & [Hsub Hgood] & Hm & _).
  rewrite Hm in Hrow |- *.
  destruct (pick_of_row picks row Hrow) as (i & history & Hpick & Hin).
  pose proof (proj1 (Forall_forall _ _) Hgood _ Hpick) as [Hrows Hv].
  cbn [fst snd] in Hrows, Hv.
  assert (Hcid : conversation_id row = (next_conversation_id w + Z.of_nat i)%Z).
  { unfold rows_of in Hrows. rewrite Forall_forall in Hrows. by apply Hrows. }
  rewrite Hcid. split.
  - rewrite (picks_rows_with cfg _ picks i history); try done.
    eapply sublist_NoDup; [apply (NoDup_seq 0 (NUM_CONVERSATIONS cfg))|done].
  - assert (Hi : i ∈ seq 0 (NUM_CONVERSATIONS cfg)).
    { eapply elem_of_sublist; [|exact Hsub].
      by apply (list_elem_of_fmap_2 fst picks (i, history)). }
    apply elem_of_seq in Hi. lia.
Qed.

End AttemptsGood.

Lemma generate_output_counts_witness :
  asr_rows text_output = manifest_rows text_output
  /\ tts_rows text_output = filter is_agent_row (manifest_rows text_output)
  /\ length (manifest_rows text_output) = (2 * length (tts_rows text_output))%nat
  /\ (successful_conversations text_output <= 10)%nat
  /\ (6 * Z.of_nat (successful_conversations text_output)
      <= Z.of_nat (length (manifest_rows text_output))
      <= 16 * Z.of_nat (successful_conversations text_output))%Z.
Proof.
  apply (generate_output_counts TextOnly repo_config sim_two_silent
           text_output text_final).
  vm_compute. reflexivity.
Defined.

Lemma manifest_conversations_whole_witness :
  Forall (fun row =>
            validate_text_conversation repo_config
              (rows_with (conversation_id row) (manifest_rows text_output))
            = Returned Pass
            /\ (next_conversation_id sim_two_silent <= conversation_id row
                < next_conversation_id sim_two_silent
                  + Z.of_nat (NUM_CONVERSATIONS repo_config))%Z)
         (manifest_rows text_output).
Proof.
  apply Forall_forall. intros row.
  apply (manifest_conversations_whole TextOnly repo_config sim_two_silent
           text_output text_final row).
  vm_compute. reflexivity.
Defined.

(* ===================================================================== *)
(** ** The speech chain *)
(* ===================================================================== *)

Section ChainFacts.
Context {W : Type} `{World W}.

Lemma elevenlabs_success_shape text voice output_path (w w' : W) r :
  _generate_elevenlabs_audio text voice output_path w = (Returned r, w') ->
  success r = true ->
  exists size, r = audio_success (estimated_duration text 0.08) size
                                 elevenlabs (py "very_high").
Proof.
  unfold _generate_elevenlabs_audio, api_key_set, try_except,
    mbind, M_bind, mret, M_ret.
  intros Hrun Hs.
  repeat case_match; simplify_eq;
    first [by eexists | cbn [success audio_failure] in Hs; discriminate Hs].
Qed.

Lemma google_success_shape text voice output_path (w w' : W) r :
  _generate_google_cloud_audio text voice output_path w = (Returned r, w') ->
  success r = true ->
  exists size, r = audio_success (estimated_duration text 0.09) size
                                 google_cloud (py "high").
Proof.
  unfold _generate_google_cloud_audio, api_key_set, try_except, pure_result,
    mbind, M_bind, mret, M_ret.
  intros Hrun Hs.
  repeat case_match; simplify_eq;
    first [by eexists | cbn [success audio_failure] in Hs; discriminate Hs].
Qed.

Lemma try_provider_outcome text p attempt (st : Run W) r w1 :
  attempt (world st) = (Returned r, w1) ->
  (success r = true -> provider_success text r) ->
  exists outcome st1,
    try_provider p attempt st = (Returned outcome, st1)
    /\ link_outcome text st outcome st1.
Proof.
  intros Hrun Hshape.
  unfold try_provider, mbind, M_bind. rewrite (in_world_run _ _ _ _ Hrun).
  cbv beta iota. destruct (success r) eqn:Hs.
  - eexists (Some r), _. split; [reflexivity|]. split; [done|by apply Hshape].
  - eexists None, _. unfold print, mret, M_ret. split; [reflexivity|].
    by split.
Qed.

Lemma primary_link_outcome text speaker output_path (st : Run W) :
  exists outcome st1,
    primary_link text speaker output_path st = (Returned outcome, st1)
    /\ link_outcome text st outcome st1.
Proof.
  unfold primary_link, provider_available.
  unfold mbind at 1, M_bind at 1.
  destruct (providers_status st ElevenLabs).
  - destruct (elevenlabs_returns text (voice_id_of speaker) output_path
                (world st)) as (r & w1 & Hrun).
    apply (try_provider_outcome text _ _ st r w1 Hrun).
    intros Hs. left. by eapply elevenlabs_success_shape.
  - eexists None, st. by split.
Qed.

Lemma fallback_link_outcome text speaker output_path (st : Run W) :
  exists outcome st1,
    fallback_link text speaker output_path st = (Returned outcome, st1)
    /\ link_outcome text st outcome st1.
Proof.
  unfold fallback_link, provider_available.
  unfold mbind at 1, M_bind at 1.
  destruct (providers_status st GoogleCloud).
  - unfold mbind at 1, M_bind at 1, print.
    set (st0 := mkRun _ _ _ _ _).
    destruct (google_returns text speaker output_path (world st0))
      as (r & w1 & Hrun).
    destruct (try_provider_outcome text GoogleCloud _ st0 r w1 Hrun)
      as (outcome & st1 & Hlink & Hout).
    { intros Hs. right. by eapply google_success_shape. }
    exists outcome, st1. split; [exact Hlink|exact Hout].
  - eexists None, st. by split.
Qed.

(** X14: the chain never raises, and what it returns is either a success
    dictionary of ElevenLabs or of Google Cloud TTS (never of gTTS), with
    the sample rate and the channels of [AUDIO_CONFIG], or the fixed
    failure dictionary: the providers' own error messages are printed, not
    returned. *)
Theorem generate_audio_result text speaker output_path (st : Run W) :
  exists r st',
    generate_audio text speaker output_path st = (Returned r, st')
    /\ providers_status st' = providers_status st
    /\ (provider_success text r \/ r = audio_failure no_provider_error).
Proof.
  unfold generate_audio.
  destruct (primary_link_outcome text speaker output_path st)
    as (first & st1 & Hfirst & Hst1 & Hr1).
  rewrite (bind_returned _ _ _ _ _ Hfirst).
  destruct first as [r1|].
  { exists r1, st1. split; [done|]. split; [done|by left]. }
  destruct (fallback_link_outcome text speaker output_path st1)
    as (second & st2 & Hsecond & Hst2 & Hr2).
  rewrite (bind_returned _ _ _ _ _ Hsecond).
  destruct second as [r2|].
  - exists r2, st2. split; [done|]. split; [congruence|by left].
  - eexists _, st2. split; [reflexivity|]. split; [congruence|by right].
Qed.

(** X15: when ElevenLabs is available and its attempt succeeds, the chain
    returns that result at once: Google Cloud TTS is not contacted and
    nothing is printed. *)
Theorem primary_success_returns text speaker output_path (st : Run W) r1 w1 :
  providers_status st ElevenLabs = true ->
  _generate_elevenlabs_audio text (voice_id_of speaker) output_path (world st)
  = (Returned r1, w1) ->
  success r1 = true ->
  generate_audio text speaker output_path st
  = (Returned r1,
     mkRun w1 (conversation_speakers st) (conversation_agent_names st)
           (providers_status st) (stdout st))
  /\ provider r1 = Some elevenlabs.
Proof.
  intros Hup Hrun Hs. split.
  - unfold generate_audio, primary_link, provider_available, try_provider.
    unfold mbind, M_bind. rewrite Hup.
    rewrite (in_world_run _ _ _ _ Hrun). cbv beta iota. by rewrite Hs.
  - destruct (elevenlabs_success_shape _ _ _ _ _ _ Hrun Hs) as [size ->].
    reflexivity.
Qed.

(** X16: with its key set, the Google Cloud function raises [IndexError]
    for a voice id without a hyphen, before any request is sent. *)
Theorem google_voice_without_hyphen text voice_id output_path (w : W) :
  has_api_key w GoogleCloud = true ->
  45%N ∉ voice_id ->
  _generate_google_cloud_audio text voice_id output_path w
  = (Raised IndexError, w).
Proof.
  intros Hkey Hvoice.
  assert (Hsplit : split_on 45 voice_id = [voice_id]).
  { induction voice_id as [|c tl IH]; [done|].
    cbn [split_on].
    destruct (c =? 45)%N eqn:E.
    - apply N.eqb_eq in E. subst c. exfalso. apply Hvoice. by left.
    - rewrite IH; [done|]. intros Hin. apply Hvoice. by right. }
  unfold _generate_google_cloud_audio, api_key_set.
  unfold mbind, M_bind. rewrite Hkey. cbn [negb].
  rewrite Hsplit. reflexivity.
Qed.

End ChainFacts.

Lemma primary_success_returns_witness :
  generate_audio sample_transcript sample_speaker sample_path run_up
  = (Returned sample_elevenlabs_result,
     mkRun (mkSim 20250101%N [] [ElevenLabs; GoogleCloud] (fun _ => 200%Z)
                  [sample_path])
           ∅ ∅ (_check_providers sim_up) [])
  /\ provider sample_elevenlabs_result = Some elevenlabs.
Proof.
  apply (primary_success_returns sample_transcript sample_speaker sample_path
           run_up sample_elevenlabs_result).
  - reflexivity.
  - vm_compute. reflexivity.
  - reflexivity.
Defined.

Lemma google_voice_without_hyphen_witness :
  _generate_google_cloud_audio sample_transcript (py "Wavenet") sample_path
                               sim_up
  = (Raised IndexError, sim_up).
Proof.
  apply (google_voice_without_hyphen sample_transcript (py "Wavenet")
           sample_path sim_up).
  - reflexivity.
  - apply (bool_decide_eq_false_1 (45%N ∈ py "Wavenet")). vm_compute.
    reflexivity.
Defined.

(* ===================================================================== *)
(** ** What the JSON extraction hands to the decoder *)
(* ===================================================================== *)

Section MatcherFacts.
Context {R : Type}.

Lemma rmatch_lit lit : forall s g (k : pystr -> option pystr -> option R) x,
  rmatch (Lit lit) s g k = Some x ->
  exists s', s = lit ++ s' /\ k s' g = Some x.
Proof.
  induction lit as [|c lit IH]; intros s g k x; cbn [Lit rmatch].
  - intros Hk. by exists s.
  - destruct s as [|d tl]; [discriminate|].
    destruct (N.eqb_spec c d) as [<-|]; [|discriminate].
    intros Hm. apply IH in Hm as (s' & -> & Hk). by exists s'.
Qed.

Lemma star_greedy_some cls : forall s (k : pystr -> option R) x,
  star_greedy cls s k = Some x ->
  exists s', k s' = Some x /\ (length s' <= length s)%nat.
Proof.
  induction s as [|c tl IH]; intros k x; cbn [star_greedy].
  - intros Hk. by exists [].
  - destruct (in_class cls c).
    + destruct (star_greedy cls tl k) as [r|] eqn:E.
      * intros [= <-]. apply IH in E as (s' & Hk & Hl).
        exists s'. split; [done|]. simpl. lia.
      * intros Hk. by exists (c :: tl).
    + intros Hk. by exists (c :: tl).
Qed.

Lemma star_lazy_some cls : forall s (k : pystr -> option R) x,
  star_lazy cls s k = Some x ->
  exists s', k s' = Some x /\ (length s' <= length s)%nat.
Proof.
  induction s as [|c tl IH]; intros k x; cbn [star_lazy].
  - destruct (k []) as [r|] eqn:E; [|discriminate].
    intros [= <-]. by exists [].
  - destruct (k (c :: tl)) as [r|] eqn:E.
    + intros [= <-]. by exists (c :: tl).
    + destruct (in_class cls c); [|discriminate].
      intros Hm. apply IH in Hm as (s' & Hk & Hl).
      exists s'. split; [done|]. simpl. lia.
Qed.

End MatcherFacts.

Lemma startswith_app s t : startswith (s ++ t) s = true.
Proof.
  induction s as [|c s IH]; [apply startswith_nil|].
  cbn [app startswith]. by rewrite N.eqb_refl, IH.
Qed.

Lemma contains_startswith s p : startswith s p = true -> contains s p = true.
Proof. intros Hs. destruct s; cbn [contains]; by rewrite Hs. Qed.

(** A match of the fenced pattern starts with the marker and captures a
    text that starts with an opening brace. *)
Lemma match_here_fenced s m :
  match_here re_fenced s = Some m ->
  contains (group0 m) fence_json = true
  /\ exists body, group1 m = Some (open_brace :: body).
Proof.
  unfold match_here, re_fenced. cbn [rmatch].
  intros Hm. apply rmatch_lit in Hm as (s1 & -> & Hm).
  apply star_greedy_some in Hm as (s2 & Hm & L2).
  destruct s2 as [|d t]; [discriminate|].
  destruct (N.eqb_spec open_brace d) as [<-|]; [|discriminate].
  apply star_lazy_some in Hm as (s3 & Hm & L3).
  destruct s3 as [|d' s4]; [discriminate|].
  destruct (close_brace =? d')%N; [|discriminate].
  apply star_greedy_some in Hm as (s5 & Hm & L5).
  apply rmatch_lit in Hm as (s6 & -> & Hm).
  injection Hm as <-. cbn [group0 group1].
  cbn [length] in L2, L3, L5. rewrite length_app in L5. split.
  - apply contains_startswith. cbn [length].
    replace (S (S (S (S (S (S (S (length s1))))))) - length s6)%nat
      with (S (S (S (S (S (S (S (length s1 - length s6)))))))) by lia.
    cbn [take startswith fence_json]. by rewrite startswith_nil.
  - cbn [length].
    replace (S (length t) - length s4)%nat with (S (length t - length s4))
      by lia.
    cbn [take]. eauto.
Qed.

Lemma search_fenced s : forall m,
  search re_fenced s = Some m ->
  contains (group0 m) fence_json = true
  /\ exists body, group1 m = Some (open_brace :: body).
Proof.
  induction s as [|c tl IH]; intros m; cbn [search].
  - destruct (match_here re_fenced []) as [m'|] eqn:E; [|discriminate].
    intros [= <-]. by apply match_here_fenced in E.
  - destruct (match_here re_fenced (c :: tl)) as [m'|] eqn:E; [|apply IH].
    intros [= <-]. by apply match_here_fenced in E.
Qed.

(** A match of the brace pattern starts with an opening brace and has no
    group. *)
Lemma match_here_braces s m :
  match_here re_braces s = Some m ->
  group1 m = None /\ exists body, group0 m = open_brace :: body.
Proof.
  unfold match_here, re_braces. cbn [rmatch].
  destruct s as [|d t]; [discriminate|].
  destruct (N.eqb_spec open_brace d) as [<-|]; [|discriminate].
  intros Hm. apply star_greedy_some in Hm as (s3 & Hm & L3).
  destruct s3 as [|d' s4]; [discriminate|].
  destruct (close_brace =? d')%N; [|discriminate].
  injection Hm as <-. cbn [group0 group1]. split; [done|].
  cbn [length] in *.
  replace (S (length t) - length s4)%nat with (S (length t - length s4))
    by lia.
  cbn [take]. eauto.
Qed.

Lemma search_braces s : forall m,
  search re_braces s = Some m ->
  group1 m = None /\ exists body, group0 m = open_brace :: body.
Proof.
  induction s as [|c tl IH]; intros m; cbn [search].
  - destruct (match_here re_braces []) as [m'|] eqn:E; [|discriminate].
    intros [= <-]. by apply match_here_braces in E.
  - destruct (match_here re_braces (c :: tl)) as [m'|] eqn:E; [|apply IH].
    intros [= <-]. by apply match_here_braces in E.
Qed.

Lemma object_loop_object scan n : forall s acc v rest,
  Json.object_loop scan n s acc = Some (v, rest) ->
  exists members, v = JObj members.
Proof.
  induction n as [|n IH]; intros s acc v rest; cbn [Json.object_loop];
    [discriminate|].
  intros Hloop.
  repeat (case_match; try discriminate); simplify_eq; eauto.
Qed.

(** A text that starts with an opening brace decodes to an object, if it
    decodes at all. *)
Lemma loads_object body v :
  Json.loads (open_brace :: body) = Some v -> exists members, v = JObj members.
Proof.
  unfold Json.loads.
  change (startswith (open_brace :: body) [65279%N]) with false.
  cbv iota. change (Json.skip_ws (open_brace :: body)) with (open_brace :: body).
  cbn [Json.scan_once].
  change (open_brace =? 34)%N with false.
  change (open_brace =? 123)%N with true. cbv iota.
  intros Hl.
  destruct (Json.skip_ws body) as [|c r'] eqn:Hws.
  - cbn [Json.object_loop length] in Hl. discriminate.
  - assert (Hscan : exists rest,
               (if (c =? 125)%N then Some (JObj [], r')
                else Json.object_loop (Json.scan_once (length (open_brace :: body)))
                       (S (length (c :: r'))) (c :: r') []) = Some (v, rest)).
    { destruct (N.eqb_spec c 125) as [->|Hc].
      - destruct (Json.skip_ws r'); simplify_eq; eauto.
      - repeat (case_match; try discriminate); simplify_eq; eauto. }
    destruct Hscan as [rest Hscan].
    destruct (c =? 125)%N; [simplify_eq; eauto|].
    by eapply object_loop_object.
Qed.

(** X17: whatever the function returns other than [None] is a JSON
    object, so that [llm_output.get] never meets a list, a string or a
    number. *)
Theorem clean_and_parse_json_object s v :
  clean_and_parse_json s = Returned (Some v) ->
  exists members, v = JObj members.
Proof.
  unfold clean_and_parse_json, clean_and_parse_json_with.
  destruct (search re_fenced s) as [m|] eqn:Hf.
  - destruct (search_fenced s m Hf) as (Hc & body & Hg).
    rewrite Hc. unfold group_1. rewrite Hg, bind_Returned.
    intros [= Hl]. by eapply loads_object.
  - destruct (search re_braces s) as [m|] eqn:Hb; [|discriminate].
    destruct (search_braces s m Hb) as (Hg & body & Hg0).
    unfold group_1. rewrite Hg, Hg0.
    destruct (contains _ fence_json); [discriminate|].
    rewrite bind_Returned. intros [= Hl]. by eapply loads_object.
Qed.


Lemma clean_and_parse_json_object_witness :
  exists members, JObj [(py "a", JInt 1)] = JObj members.
Proof.
  apply (clean_and_parse_json_object object_a (JObj [(py "a", JInt 1)])).
  vm_compute. reflexivity.
Defined.


(* ===================================================================== *)
(** ** The speaker dictionaries *)
(* ===================================================================== *)

Lemma user_voice_config voice :
  voice ∈ user_voices ->
  exists c, voice_config_of ENHANCED_VOICE_CONFIGS voice = Some c.
Proof.
  intros Hin. vm_compute in Hin.
  repeat (apply elem_of_cons in Hin as [->|Hin];
          [eexists; vm_compute; reflexivity|]).
  by apply elem_of_nil in Hin.
Qed.

Section TableFacts.
Context {W : Type} `{World W}.

Lemma choice_in {A} (seq : list A) (w w' : W) x :
  choice seq w = (Returned x, w') -> x ∈ seq.
Proof.
  unfold choice. destruct seq as [|a seq]; [discriminate|].
  unfold mbind, M_bind, rand_below.
  destruct (randbelow (length (a :: seq)) w) as [i w1].
  destruct ((a :: seq) !! i) as [y|] eqn:E; intros [= <- <-].
  by eapply list_elem_of_lookup_2.
Qed.

Lemma get_voice_for_agent_shape name :
  get_voice_for_agent (W := W) name
  = choice (agent_pool (get_gender_from_name name)).
Proof.
  unfold get_voice_for_agent. cbv zeta.
  destruct (get_gender_from_name_total name) as [Hg|Hg]; rewrite Hg.
  - by rewrite bool_decide_eq_true_2.
  - by rewrite bool_decide_eq_false_2.
Qed.

Lemma get_voice_for_user_in (w w' : W) voice :
  get_voice_for_user None w = (Returned voice, w') -> voice ∈ user_voices.
Proof.
  unfold get_voice_for_user, mbind, M_bind.
  destruct (choice [male; female] w) as [[gender|e] w1]; [|discriminate].
  unfold user_voices.
  destruct (bool_decide (gender = male)); intros Hc; apply choice_in in Hc;
    apply elem_of_app; [by left|by right].
Qed.

Lemma get_voice_for_user_returns (w : W) :
  exists voice w', get_voice_for_user None w = (Returned voice, w').
Proof.
  unfold get_voice_for_user, mbind, M_bind.
  destruct (choice_spec [male; female] w) as (gender & w1 & -> & _); [done|].
  destruct (bool_decide (gender = male)).
  - destruct (choice_spec (voices_with_prefix (py "user_male_")) w1)
      as (voice & w' & -> & _); [discriminate|eauto].
  - destruct (choice_spec (voices_with_prefix (py "user_female_")) w1)
      as (voice & w' & -> & _); [discriminate|eauto].
Qed.

Lemma in_world_tables {A} (m : M W A) (st st1 : Run W) r :
  in_world m st = (r, st1) ->
  conversation_speakers st1 = conversation_speakers st
  /\ conversation_agent_names st1 = conversation_agent_names st
  /\ m (world st) = (r, world st1).
Proof.
  unfold in_world. destruct (m (world st)) as [r0 w1].
  by intros [= <- <-].
Qed.

Lemma consistent_tables cls (st st1 : Run W) :
  conversation_speakers st1 = conversation_speakers st ->
  conversation_agent_names st1 = conversation_agent_names st ->
  consistent cls st -> consistent cls st1.
Proof. unfold consistent. intros -> ->. done. Qed.

Lemma consistent_on_tables cls : on_tables (W := W) (consistent cls).
Proof. intros st w out. by apply consistent_tables. Qed.

Lemma consistent_insert cls cid name voices (st st1 st2 : Run W) :
  conversation_speakers st1 = conversation_speakers st ->
  conversation_agent_names st1 = conversation_agent_names st ->
  conversation_speakers st2 = <[cid := voices]> (conversation_speakers st1) ->
  conversation_agent_names st2 = <[cid := name]> (conversation_agent_names st1) ->
  pair_ok cls cid name voices ->
  consistent cls st -> consistent cls st2.
Proof.
  intros Hs1 Hn1 Hs2 Hn2 Hok Hc cid' voices'. rewrite Hs2, Hn2, Hs1, Hn1.
  destruct (decide (cid' = cid)) as [->|Hne].
  - rewrite !lookup_insert_eq. intros [= <-]. by exists name.
  - rewrite !lookup_insert_ne by done. apply Hc.
Qed.

(** The part of the first assignment that follows the two dictionary
    updates of [SpeakerManager]. *)
Lemma voices_report_keeps (P : Run W -> Prop) cid name agent_voice user_voice :
  on_tables P ->
  keeps P (agent_gender ← gender_of_voice agent_voice;
           user_gender ← gender_of_voice user_voice;
           print (EvVoices cid name agent_gender agent_voice
                           user_gender user_voice)).
Proof.
  intros HP.
  apply keeps_bind; [apply keeps_gender_of_voice|]. intros agent_gender.
  apply keeps_bind; [apply keeps_gender_of_voice|]. intros user_gender.
  by apply keeps_print.
Qed.

Lemma first_assignment_consistent cid name :
  keeps (consistent (W := W) SpeakerManager)
    (agent_voice ← in_world (get_voice_for_agent name);
     user_voice ← in_world (get_voice_for_user None);
     set_speakers cid (agent_voice, user_voice);;
     set_agent_name cid name;;
     agent_gender ← gender_of_voice agent_voice;
     user_gender ← gender_of_voice user_voice;
     print (EvVoices cid name agent_gender agent_voice user_gender user_voice)).
Proof.
  intros st r st' HP. unfold mbind at 1, M_bind at 1.
  destruct (in_world (get_voice_for_agent name) st) as [[agent_voice|e] s1]
    eqn:E1; apply in_world_tables in E1 as (Hs1 & Hn1 & Hrun1).
  2: { intros [= <- <-]. by eapply consistent_tables. }
  unfold mbind at 1, M_bind at 1.
  destruct (in_world (get_voice_for_user None) s1) as [[user_voice|e] s2]
    eqn:E2; apply in_world_tables in E2 as (Hs2 & Hn2 & Hrun2).
  2: { intros [= <- <-]. eapply consistent_tables; [| |exact HP]; congruence. }
  unfold mbind at 1, M_bind at 1, set_speakers. cbv beta iota.
  unfold mbind at 1, M_bind at 1, set_agent_name. cbv beta iota.
  cbn [world conversation_speakers conversation_agent_names providers_status
       stdout].
  apply (voices_report_keeps _ cid name agent_voice user_voice
           (consistent_on_tables SpeakerManager)).
  eapply (consistent_insert SpeakerManager cid name (agent_voice, user_voice)
            st s2); [congruence|congruence|reflexivity|reflexivity| |exact HP].
  split; cbn [fst snd].
  - rewrite get_voice_for_agent_shape in Hrun1. by apply choice_in in Hrun1.
  - by eapply get_voice_for_user_in.
Qed.

Lemma text_first_assignment_consistent cid name :
  keeps (consistent (W := W) TextOnlySpeakerManager)
    (agent_speaker ← in_world (get_speaker_id_for_text name agent cid);
     user_speaker ← in_world (get_speaker_id_for_text name user cid);
     set_speakers cid (agent_speaker, user_speaker);;
     set_agent_name cid name).
Proof.
  intros st r st' HP. unfold mbind at 1, M_bind at 1.
  destruct (in_world (get_speaker_id_for_text name agent cid) st)
    as [[agent_speaker|e] s1] eqn:E1;
    apply in_world_tables in E1 as (Hs1 & Hn1 & Hrun1).
  2: { intros [= <- <-]. by eapply consistent_tables. }
  unfold mbind at 1, M_bind at 1.
  destruct (in_world (get_speaker_id_for_text name user cid) s1)
    as [[user_speaker|e] s2] eqn:E2;
    apply in_world_tables in E2 as (Hs2 & Hn2 & Hrun2).
  2: { intros [= <- <-]. eapply consistent_tables; [| |exact HP]; congruence. }
  unfold mbind, M_bind, set_speakers, set_agent_name. cbv beta iota.
  cbn [world conversation_speakers conversation_agent_names providers_status
       stdout].
  intros [= <- <-].
  eapply (consistent_insert TextOnlySpeakerManager cid name
            (agent_speaker, user_speaker) st s2);
    [congruence|congruence|reflexivity|reflexivity| |exact HP].
  split; cbn [fst snd].
  - unfold get_speaker_id_for_text in Hrun1.
    rewrite bool_decide_eq_true_2 in Hrun1 by done.
    cbv zeta in Hrun1. unfold mret, M_ret in Hrun1. by injection Hrun1 as <- _.
  - unfold get_speaker_id_for_text in Hrun2.
    rewrite bool_decide_eq_false_2 in Hrun2
      by (intros Heq; apply agent_neq_user; congruence).
    unfold mbind, M_bind in Hrun2.
    destruct (choice [male; female] (world s1)) as [[gender|e] w1] eqn:Ec;
      [|discriminate].
    apply choice_in in Ec. unfold mret, M_ret in Hrun2.
    injection Hrun2 as <- _.
    apply elem_of_cons in Ec as [->|Ec]; [by left|].
    apply elem_of_cons in Ec as [->|Ec]; [by right|].
    by apply elem_of_nil in Ec.
Qed.

Lemma assign_consistent cls cid name :
  keeps (consistent (W := W) cls) (assign_of cls cid name).
Proof.
  destruct cls; unfold assign_of, assign_speakers, text_assign_speakers;
    (apply keeps_bind; [apply keeps_has_speakers|]); intros known;
    (apply keeps_bind; [|intros _; apply keeps_get_speakers]);
    destruct known; cbn [negb]; try apply keeps_ret.
  - apply first_assignment_consistent.
  - apply text_first_assignment_consistent.
Qed.

Lemma speaker_id_consistent cls cid who name :
  keeps (consistent (W := W) cls) (speaker_id_of cls cid who name).
Proof.
  assert (Hshape : speaker_id_of cls cid who name
                   = (n ← name_or_recorded cid name;
                      voices ← assign_of cls cid n;
                      mret (if bool_decide (who = agent)
                            then voices.1 else voices.2))) by by destruct cls.
  rewrite Hshape.
  apply keeps_bind; [apply keeps_name_or_recorded|]. intros n.
  apply keeps_bind; [apply assign_consistent|]. intros voices.
  apply keeps_ret.
Qed.

Lemma run_call_consistent cls c :
  keeps (consistent (W := W) cls) (run_call cls c).
Proof.
  destruct c as [cid name|cid who name]; cbn [run_call];
    (apply keeps_bind; [|intros _; apply keeps_ret]).
  - apply assign_consistent.
  - apply speaker_id_consistent.
Qed.

(** X19: the speaker dictionaries stay consistent through any sequence of
    calls on a manager: every conversation with speakers has a recorded
    agent name; with audio the agent's voice comes from the pool of the
    gender inferred from that name and the user's voice is a user voice;
    without audio the two speaker ids are [agent_<gender>_<id>] for that
    gender and [user_male_<id>] or [user_female_<id>]. *)
Theorem speaker_tables_consistent cls (st st2 : Run W) :
  consistent cls st ->
  later cls st st2 ->
  consistent cls st2.
Proof.
  intros Hc Hlater.
  induction Hlater as [st|st c r st1 st2 Hcall _ IH|st st1 st2 Hs Hn _ IH].
  - exact Hc.
  - apply IH. exact (run_call_consistent cls c st r st1 Hc Hcall).
  - apply IH. by eapply consistent_tables.
Qed.

End TableFacts.

Lemma speaker_tables_consistent_witness : consistent SpeakerManager run2.
Proof.
  apply (speaker_tables_consistent SpeakerManager run0 run2).
  - intros cid voices Hc. cbn [run0 conversation_speakers] in Hc.
    by rewrite lookup_empty in Hc.
  - apply (later_call SpeakerManager run0 (CallAssign 7 (py "Ayşe"))
             (Returned ()) run1 run2).
    + vm_compute. reflexivity.
    + apply (later_call SpeakerManager run1 (CallSpeakerId 8 user None)
               (Returned ()) run2 run2).
      * vm_compute. reflexivity.
      * apply later_now.
Defined.

Section SpeakerTotal.
Context {W : Type} `{World W}.

Lemma has_speakers_false cid (st : Run W) :
  conversation_speakers st !! cid = None ->
  has_speakers cid st = (Returned false, st).
Proof.
  intros Hc. unfold has_speakers. rewrite bool_decide_eq_false_2; [done|].
  rewrite Hc. by intros [? ?].
Qed.

Lemma gender_of_voice_returns voice c (st : Run W) :
  voice_config_of ENHANCED_VOICE_CONFIGS voice = Some c ->
  gender_of_voice voice st = (Returned (vc_gender c), st).
Proof. intros Hc. unfold gender_of_voice. by rewrite Hc. Qed.

(** A first assignment returns. *)
Lemma assign_fresh_returns cls cid name (st : Run W) :
  conversation_speakers st !! cid = None ->
  exists voices st1, assign_of cls cid name st = (Returned voices, st1).
Proof.
  intros Hc. destruct cls; unfold assign_of, assign_speakers,
    text_assign_speakers;
    rewrite (bind_returned _ _ _ _ _ (has_speakers_false cid st Hc));
    cbn [negb].
  - (* with audio *)
    pose proof (get_gender_from_name_total name) as Hg.
    assert (Hpool : agent_pool (get_gender_from_name name) <> []).
    { destruct Hg as [-> | ->]; discriminate. }
    destruct (choice_spec _ (world st) Hpool)
      as (agent_voice & w1 & Hrun1 & Hin1).
    rewrite <- get_voice_for_agent_shape in Hrun1.
    destruct (agent_pool_gender _ _ Hg Hin1) as (c1 & Hc1 & _).
    set (s1 := mkRun w1 (conversation_speakers st) (conversation_agent_names st)
                     (providers_status st) (stdout st)).
    destruct (get_voice_for_user_returns (world s1))
      as (user_voice & w2 & Hrun2).
    pose proof (get_voice_for_user_in _ _ _ Hrun2) as Hin2.
    destruct (user_voice_config _ Hin2) as (c2 & Hc2).
    unfold mbind at 1, M_bind at 1.
    unfold mbind at 1, M_bind at 1.
    rewrite (in_world_run _ _ _ _ Hrun1). fold s1.
    unfold mbind at 1, M_bind at 1.
    rewrite (in_world_run _ _ _ _ Hrun2).
    unfold mbind at 1, M_bind at 1, set_speakers. cbv beta iota.
    unfold mbind at 1, M_bind at 1, set_agent_name. cbv beta iota.
    unfold mbind at 1, M_bind at 1.
    rewrite (gender_of_voice_returns _ _ _ Hc1).
    unfold mbind at 1, M_bind at 1.
    rewrite (gender_of_voice_returns _ _ _ Hc2).
    unfold print, get_speakers.
    cbn [world conversation_speakers conversation_agent_names providers_status
         stdout].
    rewrite lookup_insert_eq. by eexists _, _.
  - (* text only *)
    unfold get_speaker_id_for_text.
    rewrite (bool_decide_eq_true_2 (agent = agent)) by reflexivity.
    rewrite (bool_decide_eq_false_2 (user = agent))
      by (intros Heq; apply agent_neq_user; congruence).
    cbv zeta.
    unfold mbind at 1, M_bind at 1.
    unfold mbind at 1, M_bind at 1, in_world at 1, mret at 1, M_ret at 1.
    cbv beta iota.
    set (s1 := mkRun (world st) _ _ _ _).
    destruct (choice_spec [male; female] (world s1))
      as (gender & w2 & Hrun2 & _); [done|].
    unfold mbind at 1, M_bind at 1, in_world at 1.
    unfold mbind at 1, M_bind at 1. rewrite Hrun2.
    unfold mret, M_ret, mbind, M_bind, set_speakers, set_agent_name,
      get_speakers.
    cbn [world conversation_speakers conversation_agent_names providers_status
         stdout].
    rewrite lookup_insert_eq. by eexists _, _.
Qed.

Lemma assign_returns cls cid name (st : Run W) :
  exists voices st1,
    assign_of cls cid name st = (Returned voices, st1)
    /\ conversation_speakers st1 !! cid = Some voices.
Proof.
  destruct (conversation_speakers st !! cid) as [voices|] eqn:Hc.
  - exists voices, st. split; [by apply assign_cached|done].
  - destruct (assign_fresh_returns cls cid name st Hc) as (voices & st1 & Hrun).
    exists voices, st1. split; [done|]. by eapply assign_recorded.
Qed.

(** X20: [get_speaker_id] of either manager never raises: it returns
    the agent's entry of the pair recorded for the conversation when the
    role is "agent", and the user's entry for any other role. *)
Theorem speaker_id_total cls cid who name (st : Run W) :
  exists id st1 voices,
    speaker_id_of cls cid who name st = (Returned id, st1)
    /\ conversation_speakers st1 !! cid = Some voices
    /\ id = (if bool_decide (who = agent) then voices.1 else voices.2).
Proof.
  assert (Hshape : speaker_id_of cls cid who name
                   = (n ← name_or_recorded cid name;
                      voices ← assign_of cls cid n;
                      mret (if bool_decide (who = agent)
                            then voices.1 else voices.2))) by by destruct cls.
  rewrite Hshape. unfold mbind at 1, M_bind at 1.
  assert (Hname : exists n, name_or_recorded cid name st = (Returned n, st)).
  { unfold name_or_recorded. destruct name; eauto. }
  destruct Hname as [n ->].
  destruct (assign_returns cls cid n st) as (voices & st1 & Hrun & Hrec).
  rewrite (bind_returned _ _ _ _ _ Hrun).
  eexists _, st1, voices. split; [reflexivity|]. by split.
Qed.

End SpeakerTotal.

(* ===================================================================== *)
(** ** The next conversation id *)
(* ===================================================================== *)

Lemma bind_Raised {A B} e (f : A -> pyresult B) : (Raised e ≫= f) = Raised e.
Proof. reflexivity. Qed.

Section IdFacts.
Variable float_of_lexeme : pystr -> float.

Lemma py_max_int m z :
  Files.py_max float_of_lexeme (Files.PInt m) (JInt z)
  = Returned (Files.PInt (Z.max m z)).
Proof.
  unfold Files.py_max. cbn [Files.as_number]. rewrite bind_Returned.
  cbn [Files.num_gt]. destruct (Z.ltb_spec m z); f_equal; f_equal; lia.
Qed.

Lemma id_line_unique line z members :
  Files.id_line line z ->
  Json.loads line = Some (JObj members) ->
  dict_get members Files.conversation_id_key = Some (JInt z).
Proof. intros (_ & members' & Hl & Hz) Hl'. congruence. Qed.

(** The scan of a file of plain lines ends with the largest of the
    starting value and the ids of its rows. *)
Lemma scan_lines_plain lines : forall m,
  (0 <= m)%Z ->
  Forall Files.plain_line lines ->
  exists m',
    Files.scan_lines float_of_lexeme lines (Files.PInt m)
    = Returned (Files.PInt m')
    /\ (m <= m')%Z
    /\ (forall line z, line ∈ lines -> Files.id_line line z -> (z <= m')%Z)
    /\ (m' = m \/ exists line, line ∈ lines /\ Files.id_line line m').
Proof.
  induction lines as [|line rest IH]; intros m Hm Hplain.
  - exists m. split; [done|]. split; [lia|]. split; [|by left].
    intros l z Hin. by apply elem_of_nil in Hin.
  - apply Forall_cons in Hplain as [Hline Hrest]. cbn [Files.scan_lines].
    destruct (decide (strip line = [])) as [Hblank|Hnb].
    + rewrite bool_decide_eq_true_2 by done.
      destruct (IH m Hm Hrest) as (m' & Hrun & Hle & Hall & Hex).
      exists m'. split; [done|]. split; [done|]. split.
      * intros l z Hin Hid. apply elem_of_cons in Hin as [->|Hin];
          [by destruct Hid as [Hs _]|by eapply Hall].
      * destruct Hex as [->|(l & Hin & Hid)]; [by left|].
        right. exists l. split; [by right|done].
    + rewrite bool_decide_eq_false_2 by done.
      destruct Hline as [Hb|(members & Hload & Hid)]; [done|].
      rewrite Hload. cbn [Files.get_field].
      assert (Hstep : exists m1,
                 (0 <= m1)%Z /\ (m <= m1)%Z
                 /\ Files.py_max float_of_lexeme (Files.PInt m)
                      (default (JInt 0)
                         (dict_get members Files.conversation_id_key))
                    = Returned (Files.PInt m1)
                 /\ (forall z, Files.id_line line z -> (z <= m1)%Z)
                 /\ (m1 = m \/ Files.id_line line m1)).
      { destruct Hid as [Hnone|[z Hz]].
        - exists m. rewrite Hnone. cbn [default from_option id].
          rewrite py_max_int. split; [done|]. split; [lia|].
          split; [f_equal; f_equal; lia|]. split; [|by left].
          intros z Hz. apply (id_line_unique _ _ _ Hz) in Hload. congruence.
        - exists (Z.max m z). rewrite Hz. cbn [default from_option id].
          rewrite py_max_int. split; [lia|]. split; [lia|]. split; [done|].
          split.
          + intros z' Hz'. apply (id_line_unique _ _ _ Hz') in Hload.
            assert (z' = z) by congruence. lia.
          + destruct (Z.max_spec m z) as [[_ ->]|[_ ->]]; [|by left].
            right. split; [done|]. by exists members. }
      destruct Hstep as (m1 & Hm1 & Hle1 & Hmax & Hall1 & Hex1).
      rewrite bind_Returned, Hmax, bind_Returned.
      destruct (IH m1 Hm1 Hrest) as (m' & Hrun & Hle & Hall & Hex).
      exists m'. split; [done|]. split; [lia|]. split.
      * intros l z Hin Hidl. apply elem_of_cons in Hin as [->|Hin].
        -- specialize (Hall1 z Hidl). lia.
        -- by eapply Hall.
      * destruct Hex as [->|(l & Hin & Hidl)].
        -- destruct Hex1 as [->|Hid1]; [by left|].
           right. exists line. split; [by left|done].
        -- right. exists l. split; [by right|done].
Qed.

Lemma plain_files_tail fs file_path rest :
  Files.plain_files fs (file_path :: rest) -> Files.plain_files fs rest.
Proof. intros Hp p lines Hin. apply Hp. by right. Qed.

Lemma id_in_files_tail fs file_path rest z :
  Files.id_in_files fs rest z -> Files.id_in_files fs (file_path :: rest) z.
Proof.
  intros (p & lines & line & Hin & Hfs & Hline & Hid).
  exists p, lines, line. split; [by right|done].
Qed.

Lemma scan_files_plain fs data_paths : forall m,
  (0 <= m)%Z ->
  Files.plain_files fs data_paths ->
  exists m',
    Files.scan_files float_of_lexeme fs data_paths (Files.PInt m)
    = Returned (Files.PInt m')
    /\ (m <= m')%Z
    /\ (forall z, Files.id_in_files fs data_paths z -> (z <= m')%Z)
    /\ (m' = m \/ Files.id_in_files fs data_paths m').
Proof.
  induction data_paths as [|file_path rest IH]; intros m Hm Hplain.
  - exists m. split; [done|]. split; [lia|]. split; [|by left].
    intros z (p & lines & line & Hin & _). by apply elem_of_nil in Hin.
  - pose proof (plain_files_tail _ _ _ Hplain) as Hrest.
    cbn [Files.scan_files].
    destruct (fs file_path) as [lines|] eqn:Hfs.
    + destruct (scan_lines_plain lines m Hm)
        as (m1 & Hrun1 & Hle1 & Hall1 & Hex1).
      { apply (Hplain file_path); [by left|done]. }
      rewrite Hrun1, bind_Returned.
      destruct (IH m1 ltac:(lia) Hrest) as (m' & Hrun & Hle & Hall & Hex).
      exists m'. split; [done|]. split; [lia|]. split.
      * intros z (p & ls & line & Hin & Hp & Hline & Hid).
        apply elem_of_cons in Hin as [->|Hin].
        -- assert (ls = lines) as -> by congruence.
           specialize (Hall1 line z Hline Hid). lia.
        -- apply Hall. by exists p, ls, line.
      * destruct Hex as [->|Hin]; [|right; by apply id_in_files_tail].
        destruct Hex1 as [->|(line & Hline & Hid)]; [by left|].
        right. exists file_path, lines, line. split; [by left|done].
    + destruct (IH m Hm Hrest) as (m' & Hrun & Hle & Hall & Hex).
      exists m'. split; [done|]. split; [done|]. split.
      * intros z (p & ls & line & Hin & Hp & Hline & Hid).
        apply elem_of_cons in Hin as [->|Hin]; [congruence|].
        apply Hall. by exists p, ls, line.
      * destruct Hex as [->|Hin]; [by left|right; by apply id_in_files_tail].
Qed.

Lemma next_id_plain fs data_paths :
  Files.plain_files fs data_paths ->
  exists n,
    Files.next_id float_of_lexeme fs data_paths = Returned (Files.PInt n)
    /\ (1 <= n)%Z
    /\ (forall z, Files.id_in_files fs data_paths z -> (z < n)%Z)
    /\ (n = 1%Z \/ Files.id_in_files fs data_paths (n - 1)).
Proof.
  intros Hplain.
  destruct (scan_files_plain fs data_paths 0 ltac:(lia) Hplain)
    as (m & Hrun & Hle & Hall & Hex).
  exists (m + 1)%Z. unfold Files.next_id. rewrite Hrun, bind_Returned.
  split; [done|]. split; [lia|]. split.
  - intros z Hz. specialize (Hall z Hz). lia.
  - replace (m + 1 - 1)%Z with m by lia.
    destruct Hex as [->|Hin]; [by left|by right].
Qed.

Lemma next_id_of_paths g fs :
  Files.next_id_of float_of_lexeme g fs
  = Files.next_id float_of_lexeme fs (Files.data_paths_of g).
Proof. by destruct g. Qed.


(** A line that is not JSON ends the scan of its file. *)
Lemma scan_lines_stop pre bad post : forall m,
  strip bad <> [] ->
  Json.loads bad = None ->
  Files.scan_lines float_of_lexeme (pre ++ bad :: post) m
  = Files.scan_lines float_of_lexeme pre m.
Proof.
  induction pre as [|line pre IH]; intros m Hnb Hbad.
  - cbn [app Files.scan_lines]. rewrite bool_decide_eq_false_2 by done.
    by rewrite Hbad.
  - cbn [app Files.scan_lines].
    destruct (bool_decide (strip line = [])); [by apply IH|].
    destruct (Json.loads line) as [data|]; [|done].
    destruct (Files.get_field data Files.conversation_id_key (JInt 0))
      as [v|e]; [|done].
    rewrite !bind_Returned.
    destruct (Files.py_max float_of_lexeme m v) as [m1|e]; [|done].
    rewrite !bind_Returned. by apply IH.
Qed.

Lemma scan_files_with_file fs file_path pre bad post data_paths : forall m,
  fs file_path = Some (pre ++ bad :: post) ->
  strip bad <> [] ->
  Json.loads bad = None ->
  Files.scan_files float_of_lexeme (Files.with_file fs file_path pre)
                   data_paths m
  = Files.scan_files float_of_lexeme fs data_paths m.
Proof.
  induction data_paths as [|p rest IH]; intros m Hfs Hnb Hbad; [done|].
  cbn [Files.scan_files]. unfold Files.with_file at 1.
  destruct (decide (p = file_path)) as [->|Hne].
  - rewrite bool_decide_eq_true_2 by done. rewrite Hfs.
    rewrite (scan_lines_stop pre bad post m Hnb Hbad).
    destruct (Files.scan_lines float_of_lexeme pre m) as [m1|e]; [|done].
    rewrite !bind_Returned. by apply IH.
  - rewrite bool_decide_eq_false_2 by done.
    destruct (fs p) as [lines|]; [|by apply IH].
    destruct (Files.scan_lines float_of_lexeme lines m) as [m1|e]; [|done].
    rewrite !bind_Returned. by apply IH.
Qed.

(** X22: a non-blank line that is not JSON silently ends the scan of
    its file: the next id is the one computed from the file cut off before
    that line, so that the ids of the rows after it are not counted. *)
Theorem malformed_line_hides_ids g fs file_path pre bad post :
  fs file_path = Some (pre ++ bad :: post) ->
  strip bad <> [] ->
  Json.loads bad = None ->
  Files.next_id_of float_of_lexeme g fs
  = Files.next_id_of float_of_lexeme g (Files.with_file fs file_path pre).
Proof.
  intros Hfs Hnb Hbad. rewrite !next_id_of_paths. unfold Files.next_id.
  by rewrite (scan_files_with_file fs file_path pre bad post _ _ Hfs Hnb Hbad).
Qed.

Lemma scan_files_app fs paths1 paths2 : forall m,
  Files.scan_files float_of_lexeme fs (paths1 ++ paths2) m
  = (m1 ← Files.scan_files float_of_lexeme fs paths1 m;
     Files.scan_files float_of_lexeme fs paths2 m1).
Proof.
  induction paths1 as [|p rest IH]; intros m; cbn [app Files.scan_files].
  - by rewrite bind_Returned.
  - destruct (fs p) as [lines|]; [|apply IH].
    destruct (Files.scan_lines float_of_lexeme lines m) as [m1|e]; [|done].
    rewrite !bind_Returned. apply IH.
Qed.

Lemma scan_files_absent fs data_paths m :
  (forall p, p ∈ data_paths -> fs p = None) ->
  Files.scan_files float_of_lexeme fs data_paths m = Returned m.
Proof.
  induction data_paths as [|p rest IH]; intros Habs; [done|].
  cbn [Files.scan_files]. rewrite (Habs p) by by left.
  apply IH. intros q Hq. apply Habs. by right.
Qed.

Lemma text_data_paths_split :
  Files.text_data_paths = Files.outputs_data_paths ++ Files.main_data_paths.
Proof. reflexivity. Qed.

Lemma id_in_files_main_text fs z :
  Files.id_in_files fs Files.main_data_paths z ->
  Files.id_in_files fs Files.text_data_paths z.
Proof.
  intros (p & lines & line & Hin & Hrest).
  exists p, lines, line. split; [|done].
  rewrite text_data_paths_split. apply elem_of_app. by right.
Qed.

(** X23: over plain files the id the text-only generator starts from is
    never below the one the generator with audio starts from, and the two
    are equal when none of the three files under [data/outputs] exists. *)
Theorem text_id_not_below fs :
  Files.plain_files fs Files.text_data_paths ->
  exists n n',
    Files.get_next_conversation_id float_of_lexeme fs
    = Returned (Files.PInt n)
    /\ Files.get_next_text_conversation_id float_of_lexeme fs
       = Returned (Files.PInt n')
    /\ (n <= n')%Z
    /\ ((forall p, p ∈ Files.outputs_data_paths -> fs p = None) -> n = n').
Proof.
  intros Hplain.
  assert (Hmain : Files.plain_files fs Files.main_data_paths).
  { intros p lines Hin. apply Hplain.
    rewrite text_data_paths_split. apply elem_of_app. by right. }
  destruct (next_id_plain fs _ Hmain) as (n & Hn & _ & _ & Hex).
  destruct (next_id_plain fs _ Hplain) as (n' & Hn' & Hone & Hall & _).
  exists n, n'. split; [done|]. split; [done|]. split.
  - destruct Hex as [->|Hin]; [done|].
    apply id_in_files_main_text, Hall in Hin. lia.
  - intros Habs.
    unfold Files.get_next_text_conversation_id, Files.next_id in Hn'.
    rewrite text_data_paths_split, scan_files_app in Hn'.
    rewrite (scan_files_absent _ _ _ Habs), bind_Returned in Hn'.
    unfold Files.get_next_conversation_id, Files.next_id in Hn.
    rewrite Hn in Hn'. by injection Hn' as ->.
Qed.

End IdFacts.

Ltac plain_sample_files :=
  intros p lines Hin Hfs; vm_compute in Hin;
  repeat (apply elem_of_cons in Hin as [->|Hin];
          [vm_compute in Hfs; try discriminate Hfs;
           injection Hfs as <-;
           repeat (constructor;
                   [first [ left; vm_compute; reflexivity
                          | right; eexists; split;
                            [vm_compute; reflexivity|];
                            first [ left; vm_compute; reflexivity
                                  | right; eexists; vm_compute; reflexivity ] ]
                   |]);
           constructor
          |]);
  try by apply elem_of_nil in Hin.


Lemma malformed_line_hides_ids_witness :
  Files.next_id_of Files.no_floats TextOnly Files.broken_fs
  = Files.next_id_of Files.no_floats TextOnly
      (Files.with_file Files.broken_fs
         (py "data/text_only/text_conversations.jsonl")
         [Files.row_line "7"]).
Proof.
  apply (malformed_line_hides_ids Files.no_floats TextOnly Files.broken_fs
           (py "data/text_only/text_conversations.jsonl")
           [Files.row_line "7"] (py "{oops") [Files.row_line "9"]).
  - vm_compute. reflexivity.
  - vm_compute. discriminate.
  - vm_compute. reflexivity.
Defined.

Lemma text_id_not_below_witness :
  exists n n',
    Files.get_next_conversation_id Files.no_floats Files.sample_fs
    = Returned (Files.PInt n)
    /\ Files.get_next_text_conversation_id Files.no_floats Files.sample_fs
       = Returned (Files.PInt n')
    /\ (n <= n')%Z
    /\ ((forall p, p ∈ Files.outputs_data_paths -> Files.sample_fs p = None)
        -> n = n').
Proof.
  apply (text_id_not_below Files.no_floats Files.sample_fs).
  plain_sample_files.
Defined.

(** In the sample files the next id is 8; in the text manifest with the
    malformed line it is 8 as well, although a row with the id 9 follows
    that line. *)
Lemma sample_next_ids :
  Files.get_next_conversation_id Files.no_floats Files.sample_fs
  = Returned (Files.PInt 8)
  /\ Files.get_next_text_conversation_id Files.no_floats Files.broken_fs
     = Returned (Files.PInt 8)
  /\ Files.id_line (Files.row_line "9") 9.
Proof.
  split; [vm_compute; reflexivity|]. split; [vm_compute; reflexivity|].
  split; [vm_compute; discriminate|].
  eexists. split; vm_compute; reflexivity.
Qed.

(* ===================================================================== *)
(** ** Audio paths and recorded turns *)
(* ===================================================================== *)

Lemma endswith_app s t : endswith (s ++ t) t = true.
Proof. unfold endswith. rewrite rev_app_distr. apply startswith_app. Qed.

Lemma startswith_split s p :
  startswith s p = true -> exists rest, s = p ++ rest.
Proof.
  revert s. induction p as [|c p IH]; intros s Hs; [by exists s|].
  destruct s as [|d s]; [discriminate|]. cbn [startswith] in Hs.
  apply andb_true_iff in Hs as [Hc Hs]. apply N.eqb_eq in Hc as ->.
  destruct (IH s Hs) as [rest ->]. by exists rest.
Qed.

Lemma contains_app pre p post : contains (pre ++ p ++ post) p = true.
Proof.
  induction pre as [|c pre IH].
  - cbn [app]. apply contains_startswith, startswith_app.
  - cbn [app contains]. rewrite IH. apply orb_true_r.
Qed.

(** The name made for a turn that has no file yet matches the pattern of
    that turn. *)
Lemma new_name_matches base timestamp unique_id :
  Files.glob_match (base ++ py "_") (py ".wav")
    (base ++ py "_" ++ timestamp ++ py "_" ++ unique_id ++ py ".wav") = true.
Proof.
  unfold Files.glob_match.
  replace (base ++ py "_" ++ timestamp ++ py "_" ++ unique_id ++ py ".wav")
    with ((base ++ py "_") ++ (timestamp ++ py "_" ++ unique_id) ++ py ".wav")
    by (by rewrite <- !app_assoc).
  rewrite startswith_app.
  rewrite (app_assoc (base ++ py "_")), endswith_app.
  cbn [andb]. apply Nat.leb_le. rewrite !length_app. lia.
Qed.

(** A name that matches the pattern of a turn holds the marker of that
    turn. *)
Lemma matching_name_has_marker cid turn_number name :
  Files.glob_match (Files.base_filename cid turn_number ++ py "_") (py ".wav")
                   name = true ->
  forall dir, contains (dir ++ name) (Files.turn_marker turn_number) = true.
Proof.
  unfold Files.glob_match. intros Hm dir.
  apply andb_true_iff in Hm as [Hm _]. apply andb_true_iff in Hm as [Hm _].
  apply startswith_split in Hm as [rest ->].
  unfold Files.base_filename, Files.turn_marker.
  replace (dir ++ ((Files.format_0d 4 cid ++ py "_"
                    ++ Files.format_0d 2 (Z.of_nat turn_number)) ++ py "_")
               ++ rest)
    with ((dir ++ Files.format_0d 4 cid)
          ++ (py "_" ++ Files.format_0d 2 (Z.of_nat turn_number) ++ py "_")
          ++ rest)
    by (by rewrite <- !app_assoc).
  apply contains_app.
Qed.

Lemma filter_head_matches {A} (P : A -> bool) l first tl :
  List.filter P l = first :: tl -> first ∈ l /\ P first = true.
Proof.
  intros Hf.
  assert (Hin : In first (List.filter P l)) by (rewrite Hf; by left).
  apply filter_In in Hin as [Hin HP]. split; [|done].
  by apply list_elem_of_In.
Qed.

(** X24: the path the function returns always lies in the directory of
    the role and its name matches [<id:04d>_<turn:02d>_*.wav]; when the
    directory already holds such a name, the first one that [glob] yields
    is returned and neither the clock nor the random id plays a part. *)
Theorem audio_path_shape listdir timestamp unique_id cid turn_number who :
  exists name,
    Files.generate_audio_filepath listdir timestamp unique_id cid turn_number
                                  who
    = py "data/audio/" ++ who ++ py "/" ++ name
    /\ Files.glob_match (Files.base_filename cid turn_number ++ py "_")
                        (py ".wav") name = true
    /\ (List.filter (Files.glob_match
                       (Files.base_filename cid turn_number ++ py "_")
                       (py ".wav"))
                    (listdir (py "data/audio/" ++ who)) <> [] ->
        name ∈ listdir (py "data/audio/" ++ who)
        /\ forall timestamp' unique_id',
             Files.generate_audio_filepath listdir timestamp' unique_id' cid
                                           turn_number who
             = py "data/audio/" ++ who ++ py "/" ++ name).
Proof.
  unfold Files.generate_audio_filepath. cbv zeta.
  destruct (List.filter _ (listdir (py "data/audio/" ++ who)))
    as [|first tl] eqn:Hf.
  - eexists. split; [by rewrite <- !app_assoc|].
    split; [apply new_name_matches|done].
  - apply filter_head_matches in Hf as [Hin Hm].
    exists first. split; [by rewrite <- !app_assoc|]. split; [done|].
    intros _. split; [done|]. intros ? ?. by rewrite <- !app_assoc.
Qed.

(** X25: once the file of a turn that had none is stored under the path
    the function returned, the function returns that same path again,
    whatever the clock and the random id are by then and wherever the new
    name stands in the directory. *)
Theorem stored_path_is_reused listdir listdir' timestamp unique_id
  timestamp' unique_id' cid turn_number who :
  List.filter (Files.glob_match (Files.base_filename cid turn_number ++ py "_")
                                (py ".wav"))
              (listdir (py "data/audio/" ++ who)) = [] ->
  listdir' (py "data/audio/" ++ who)
  ≡ₚ (Files.base_filename cid turn_number ++ py "_" ++ timestamp ++ py "_"
      ++ unique_id ++ py ".wav") :: listdir (py "data/audio/" ++ who) ->
  Files.generate_audio_filepath listdir' timestamp' unique_id' cid turn_number
                                who
  = Files.generate_audio_filepath listdir timestamp unique_id cid turn_number
                                  who.
Proof.
  intros Hnone Hperm. unfold Files.generate_audio_filepath. cbv zeta.
  rewrite Hnone.
  set (P := Files.glob_match (Files.base_filename cid turn_number ++ py "_")
                             (py ".wav")) in *.
  set (name := Files.base_filename cid turn_number ++ py "_" ++ timestamp
               ++ py "_" ++ unique_id ++ py ".wav") in *.
  assert (Hf : List.filter P (listdir' (py "data/audio/" ++ who)) = [name]).
  { assert (Hp : Permutation
                   (List.filter P (listdir' (py "data/audio/" ++ who)))
                   (List.filter P (name :: listdir (py "data/audio/" ++ who)))).
    { clear Hnone. induction Hperm as [|x l l' _ IH|x y l|l l' l'' _ IH1 _ IH2].
      - constructor.
      - cbn [List.filter]. destruct (P x); [by constructor|done].
      - cbn [List.filter]. destruct (P x), (P y); try done. constructor.
      - by etrans. }
    cbn [List.filter] in Hp. subst P name.
    rewrite new_name_matches, Hnone in Hp.
    by apply Permutation_singleton_r in Hp. }
  rewrite Hf. done.
Qed.

Section TurnFacts.
Variable float_of_lexeme : pystr -> float.

(** A row of the conversation and role whose audio path holds the marker
    of the turn satisfies the condition of the loop. *)
Lemma row_matches_row cid turn_number who path data :
  Files.row_for cid who path data ->
  contains path (Files.turn_marker turn_number) = true ->
  Files.row_matches float_of_lexeme cid turn_number who data = Returned true.
Proof.
  intros (members & -> & Hc & Hr & Hp) Hmark.
  unfold Files.row_matches. cbn [Files.get_field].
  rewrite Hc, Hr, Hp. cbn [default from_option id].
  rewrite !bind_Returned. cbn [Files.eq_int]. rewrite Z.eqb_refl. cbn [negb].
  rewrite ?bind_Returned. cbn [is_str].
  rewrite bool_decide_eq_true_2 by done. cbn [negb].
  rewrite ?bind_Returned. cbn [Files.str_in]. by rewrite Hmark.
Qed.

Lemma check_lines_found pre line post data cid turn_number who :
  Forall (Files.quiet_line float_of_lexeme cid turn_number who) pre ->
  strip line <> [] ->
  Json.loads line = Some data ->
  Files.row_matches float_of_lexeme cid turn_number who data = Returned true ->
  Files.check_lines float_of_lexeme (pre ++ line :: post) cid turn_number who
  = Returned true.
Proof.
  intros Hpre Hnb Hload Hrow.
  induction Hpre as [|l pre Hl _ IH]; cbn [app Files.check_lines].
  - rewrite bool_decide_eq_false_2 by done.
    by rewrite Hload, Hrow, bind_Returned.
  - destruct (decide (strip l = [])) as [Hb|Hb].
    + by rewrite bool_decide_eq_true_2.
    + rewrite bool_decide_eq_false_2 by done.
      destruct Hl as [?|(d & hit & -> & ->)]; [done|].
      rewrite bind_Returned. by destruct hit.
Qed.

(** X26: a manifest row of the conversation and role whose audio path
    was generated for the turn makes the check answer [True], whatever
    follows the row, provided the lines before it are blank or decode
    without raising. *)
Theorem recorded_turn_is_found fs pre line post data listdir timestamp
  unique_id cid turn_number who :
  fs Files.manifest_path = Some (pre ++ line :: post) ->
  Forall (Files.quiet_line float_of_lexeme cid turn_number who) pre ->
  strip line <> [] ->
  Json.loads line = Some data ->
  Files.row_for cid who
    (Files.generate_audio_filepath listdir timestamp unique_id cid turn_number
                                   who) data ->
  Files.check_turn_already_exists float_of_lexeme fs cid turn_number who
  = Returned true.
Proof.
  intros Hfs Hpre Hnb Hload Hrow.
  unfold Files.check_turn_already_exists. rewrite Hfs.
  apply (check_lines_found pre line post data); try done.
  apply (row_matches_row _ _ _ _ _ Hrow).
  destruct (audio_path_shape listdir timestamp unique_id cid turn_number who)
    as (name & -> & Hm & _).
  rewrite !app_assoc.
  apply (matching_name_has_marker cid turn_number name Hm).
Qed.

Lemma check_lines_stop pre bad post cid turn_number who :
  strip bad <> [] ->
  Json.loads bad = None ->
  Files.check_lines float_of_lexeme (pre ++ bad :: post) cid turn_number who
  = Files.check_lines float_of_lexeme pre cid turn_number who.
Proof.
  intros Hnb Hbad. induction pre as [|l pre IH]; cbn [app Files.check_lines].
  - rewrite bool_decide_eq_false_2 by done. by rewrite Hbad.
  - destruct (bool_decide (strip l = [])); [done|].
    destruct (Json.loads l) as [d|]; [|done].
    destruct (Files.row_matches float_of_lexeme cid turn_number who d)
      as [hit|e]; [|done].
    rewrite !bind_Returned. by destruct hit.
Qed.

(** X27: a non-blank manifest line that is not JSON ends the check: the
    answer is the one for the manifest cut off before that line, so that a
    turn recorded only after it is reported as not existing. *)
Theorem malformed_line_hides_turns fs pre bad post cid turn_number who :
  fs Files.manifest_path = Some (pre ++ bad :: post) ->
  strip bad <> [] ->
  Json.loads bad = None ->
  Files.check_turn_already_exists float_of_lexeme fs cid turn_number who
  = Files.check_turn_already_exists float_of_lexeme
      (Files.with_file fs Files.manifest_path pre) cid turn_number who.
Proof.
  intros Hfs Hnb Hbad. unfold Files.check_turn_already_exists.
  rewrite Hfs. unfold Files.with_file.
  rewrite bool_decide_eq_true_2 by done.
  by apply check_lines_stop.
Qed.

End TurnFacts.

Lemma stored_path_is_reused_witness :
  Files.generate_audio_filepath Files.stored_names (py "20260101_000000")
                                (py "ffffffff") 1 2 agent
  = Files.generate_audio_filepath Files.sample_names (py "20250101_120100")
                                  (py "cafe0001") 1 2 agent.
Proof.
  apply (stored_path_is_reused Files.sample_names Files.stored_names
           (py "20250101_120100") (py "cafe0001")
           (py "20260101_000000") (py "ffffffff") 1 2 agent).
  - vm_compute. reflexivity.
  - vm_compute. apply perm_swap.
Defined.

Lemma recorded_turn_is_found_witness :
  Files.check_turn_already_exists Files.no_floats Files.manifest_fs 1 1 agent
  = Returned true.
Proof.
  apply (recorded_turn_is_found Files.no_floats Files.manifest_fs
           [Files.row_line "3"] Files.sample_manifest_line
           [Files.row_line "4"] Files.sample_row Files.sample_names
           (py "20260101_000000") (py "ffffffff") 1 1 agent).
  - vm_compute. reflexivity.
  - constructor; [|constructor].
    right. eexists _, _. split; vm_compute; reflexivity.
  - vm_compute. discriminate.
  - vm_compute. reflexivity.
  - eexists. split; [reflexivity|]. repeat split; vm_compute; reflexivity.
Defined.

Lemma malformed_line_hides_turns_witness :
  Files.check_turn_already_exists Files.no_floats Files.broken_manifest_fs
                                  1 1 agent
  = Files.check_turn_already_exists Files.no_floats
      (Files.with_file Files.broken_manifest_fs Files.manifest_path
                       [Files.row_line "3"]) 1 1 agent.
Proof.
  apply (malformed_line_hides_turns Files.no_floats Files.broken_manifest_fs
           [Files.row_line "3"] (py "{oops") [Files.sample_manifest_line]
           1 1 agent).
  - vm_compute. reflexivity.
  - vm_compute. discriminate.
  - vm_compute. reflexivity.
Defined.

(** In the sample manifest the row is found; after the malformed line it
    is not. *)
Lemma sample_turn_checks :
  Files.check_turn_already_exists Files.no_floats Files.manifest_fs 1 1 agent
  = Returned true
  /\ Files.check_turn_already_exists Files.no_floats Files.broken_manifest_fs
                                     1 1 agent
     = Returned false
  /\ Files.generate_audio_filepath Files.sample_names (py "20260101_000000")
                                   (py "ffffffff") 1 1 agent
     = sample_path.
Proof. repeat split; vm_compute; reflexivity. Qed.

(* ===================================================================== *)
(** ** The number of turns and the histories of the text-only loop *)
(* ===================================================================== *)

Section TurnCount.
Context {W : Type} `{World W}.

(** X28: with a non-empty range the number of turns of an attempt is
    even and lies between [TURNS_PER_DIALOG_MIN] and
    [TURNS_PER_DIALOG_MAX + 1]; it stays within the maximum when the
    maximum is even, and whenever it exceeds the maximum the validator
    rejects a history of that many turns for its turn count, whatever the
    model answers. *)
Theorem choose_num_turns_even cfg (w : W) :
  (TURNS_PER_DIALOG_MIN cfg <= TURNS_PER_DIALOG_MAX cfg)%Z ->
  exists n w',
    choose_num_turns cfg w = (Returned n, w')
    /\ Z.even n = true
    /\ (TURNS_PER_DIALOG_MIN cfg <= n <= TURNS_PER_DIALOG_MAX cfg + 1)%Z
    /\ (Z.even (TURNS_PER_DIALOG_MAX cfg) = true ->
        (n <= TURNS_PER_DIALOG_MAX cfg)%Z)
    /\ ((TURNS_PER_DIALOG_MAX cfg < n)%Z ->
        forall history,
          Z.of_nat (length history) = n ->
          validate_text_conversation cfg history
          = Returned (FailTurnCount (length history))).
Proof.
  intros Hrange. unfold choose_num_turns, randint.
  replace (TURNS_PER_DIALOG_MAX cfg <? TURNS_PER_DIALOG_MIN cfg)%Z with false
    by (symmetry; apply Z.ltb_ge; lia).
  set (lo := TURNS_PER_DIALOG_MIN cfg) in *.
  set (hi := TURNS_PER_DIALOG_MAX cfg) in *.
  destruct (rand_below_spec (Z.to_nat (hi - lo + 1)) w) as (i & w' & Hr & Hi);
    [lia|].
  unfold mbind, M_bind. rewrite Hr. unfold mret, M_ret.
  set (k := (lo + Z.of_nat i)%Z).
  assert (Hk : (lo <= k <= hi)%Z) by (subst k; lia).
  eexists _, w'. split; [reflexivity|].
  destruct (Z.eqb_spec (k mod 2) 0) as [Hev|Hodd]; cbn [negb].
  - assert (Heven : Z.even k = true).
    { rewrite Zeven_mod. by apply Z.eqb_eq. }
    split; [done|]. split; [lia|]. split; [lia|]. lia.
  - assert (Hk_odd : Z.even k = false).
    { rewrite Zeven_mod. by apply Z.eqb_neq. }
    split; [by rewrite Z.even_add, Hk_odd|]. split; [lia|]. split.
    + intros Hhi. assert (k <> hi) by congruence. lia.
    + intros Hover history Hlen. unfold validate_text_conversation.
      unfold turn_count_ok. fold hi. rewrite Hlen.
      replace (k + 1 <=? hi)%Z with false by (symmetry; apply Z.leb_gt; lia).
      by rewrite andb_false_r.
Qed.

(** With an empty range [random.randint] raises. *)
Lemma choose_num_turns_empty cfg (w : W) :
  (TURNS_PER_DIALOG_MAX cfg < TURNS_PER_DIALOG_MIN cfg)%Z ->
  exists e, choose_num_turns cfg w = (Raised e, w).
Proof.
  intros Hrange. unfold choose_num_turns, randint.
  replace (TURNS_PER_DIALOG_MAX cfg <? TURNS_PER_DIALOG_MIN cfg)%Z with true
    by (symmetry; apply Z.ltb_lt; lia).
  by eexists.
Qed.

End TurnCount.

Lemma choose_num_turns_even_witness :
  exists n w',
    choose_num_turns odd_config sim0 = (Returned n, w')
    /\ Z.even n = true
    /\ (6 <= n <= 15 + 1)%Z
    /\ (Z.even 15 = true -> (n <= 15)%Z)
    /\ ((15 < n)%Z ->
        forall history,
          Z.of_nat (length history) = n ->
          validate_text_conversation odd_config history
          = Returned (FailTurnCount (length history))).
Proof.
  apply (choose_num_turns_even odd_config sim0). simpl. lia.
Defined.

Lemma role_of_turn_expected i : role_of_turn (S i) = expected_role i.
Proof. unfold role_of_turn, expected_role. by rewrite Nat.add_1_r. Qed.

Lemma text_history_alternates cid name scenario history :
  text_history_ok cid name scenario history -> alternates history.
Proof.
  intros Hok i turn Hi. destruct (Hok i turn Hi) as (_ & Hr & _).
  by rewrite Hr, role_of_turn_expected, expected_role_even.
Qed.

Lemma check_ending_verdicts history v :
  check_ending history = Returned v ->
  v = Pass \/ v = FailClosing \/ v = FailThanks.
Proof.
  unfold check_ending. intros Hv.
  destruct (neg_index history 2) as [t2|]; [|discriminate].
  rewrite bind_Returned in Hv.
  destruct (subscript (role t2)) as [r2|]; [|discriminate].
  rewrite bind_Returned in Hv.
  destruct (negb (bool_decide (r2 = agent))); [injection Hv as <-; auto|].
  destruct (subscript (intent t2)) as [i2|]; [|discriminate].
  rewrite bind_Returned in Hv.
  destruct (negb (is_str i2 closing)); [injection Hv as <-; auto|].
  destruct (neg_index history 1) as [t1|]; [|discriminate].
  rewrite bind_Returned in Hv.
  destruct (subscript (role t1)) as [r1|]; [|discriminate].
  rewrite bind_Returned in Hv.
  destruct (negb (bool_decide (r1 = user))); [injection Hv as <-; auto|].
  destruct (subscript (intent t1)) as [i1|]; [|discriminate].
  rewrite bind_Returned in Hv.
  destruct (negb (is_str i1 thanks || is_str i1 confirmation));
    injection Hv as <-; auto.
Qed.

Lemma text_turn_loop_no_role_failure turns k : forall i,
  (forall j turn, turns !! j = Some turn ->
     role turn = Some (expected_role (i + j))) ->
  (forall n r, k <> Returned (FailRole n r)) ->
  forall n r, text_turn_loop i turns k <> Returned (FailRole n r).
Proof.
  induction turns as [|t rest IH]; intros i Hroles Hk n r; [apply Hk|].
  cbn [text_turn_loop].
  pose proof (Hroles O t eq_refl) as Hr. rewrite Nat.add_0_r in Hr.
  rewrite Hr, bind_subscript_Some.
  rewrite bool_decide_eq_true_2 by done. cbn [negb].
  destruct (_ || _); [discriminate|].
  apply IH; [|done]. intros j turn Hj.
  replace (S i + j)%nat with (i + S j)%nat by lia. by apply Hroles.
Qed.

Lemma alternates_no_role_failure cfg history n r :
  alternates history ->
  validate_text_conversation cfg history <> Returned (FailRole n r).
Proof.
  intros Halt. unfold validate_text_conversation.
  destruct (negb _); [discriminate|].
  apply text_turn_loop_no_role_failure.
  - intros j turn Hj. by apply (alternates_expected history).
  - intros n' r' Hv. apply check_ending_verdicts in Hv.
    destruct Hv as [Hv|[Hv|Hv]]; discriminate Hv.
Qed.

Section TextHistory.
Context {W : Type} `{World W}.

Lemma text_history_ok_app cid name scenario history turn :
  text_history_ok cid name scenario history ->
  text_row_ok cid name scenario (length history) turn ->
  text_history_ok cid name scenario (history ++ [turn]).
Proof.
  intros Hok Hrow i t Hi.
  destruct (decide (i < length history)%nat) as [Hlt|Hge].
  - rewrite lookup_app_l in Hi by done. by apply Hok.
  - rewrite lookup_app_r in Hi by lia.
    destruct (i - length history)%nat as [|d] eqn:E; [|by destruct d].
    injection Hi as <-. by replace i with (length history) by lia.
Qed.

Lemma text_turns_shape cid name scenario total remaining :
  forall turn_number history,
    turn_number = S (length history) ->
    text_history_ok cid name scenario history ->
    hoare (fun _ : Run W => True)
          (text_turns remaining turn_number cid name scenario total history)
          (fun result _ =>
             text_history_ok cid name scenario result.2
             /\ (result.1 = true ->
                 length result.2 = (length history + remaining)%nat)).
Proof.
  induction remaining as [|remaining IH]; intros turn_number history Hturn Hok;
    cbn [text_turns].
  - apply hoare_ret. intros _. cbn [fst snd]. split; [done|]. intros _. lia.
  - apply hoare_then. intros speaker. apply hoare_then. intros content.
    apply hoare_then. intros llm_output. apply hoare_if.
    + apply hoare_then. intros _. apply hoare_ret. intros _. cbn [fst snd].
      split; [done|discriminate].
    + apply hoare_then. intros raw. apply hoare_then. intros text.
      apply hoare_then. intros intent_. apply hoare_then. intros slot_.
      eapply hoare_weaken; [apply IH| |].
      * rewrite length_app. cbn [length]. lia.
      * apply text_history_ok_app; [done|]. subst turn_number.
        unfold text_row_ok.
        cbn [conversation_id role turn_number_of agent_name_of scenario_of
             intent transcript audio_filepath].
        by repeat split; eauto.
      * done.
      * intros [ok history'] st. cbn [fst snd]. intros [Hok' Hlen].
        split; [done|]. intros Hsucc. rewrite (Hlen Hsucc), length_app.
        cbn [length]. lia.
Qed.

(** X29: a history that the turn loop of the text-only generator
    completes has one row per turn, numbered from 1, each with the
    conversation id, the agent name and the scenario of the attempt, no
    audio path, and the roles alternating from the agent; so the validator
    never reports a role failure for it. *)
Theorem text_history_shape cid name scenario total remaining
  (st st' : Run W) history :
  text_turns remaining 1 cid name scenario total [] st
  = (Returned (true, history), st') ->
  length history = remaining
  /\ text_history_ok cid name scenario history
  /\ alternates history
  /\ forall cfg n r,
       validate_text_conversation cfg history <> Returned (FailRole n r).
Proof.
  intros Hrun.
  destruct (text_turns_shape cid name scenario total remaining 1 [] eq_refl)
    with (s := st) (a := (true, history)) (s' := st') as [Hok Hlen];
    [by intros i turn Hi|done|done|].
  cbn [fst snd] in Hok, Hlen.
  pose proof (text_history_alternates _ _ _ _ Hok) as Halt.
  split; [by apply Hlen|]. split; [done|]. split; [done|].
  intros cfg n r. by apply alternates_no_role_failure.
Qed.

End TextHistory.

Lemma text_history_shape_witness :
  length sample_text_history = 6%nat
  /\ text_history_ok 1 (py "Ayşe") billing_dispute sample_text_history
  /\ alternates sample_text_history
  /\ forall cfg n r,
       validate_text_conversation cfg sample_text_history
       <> Returned (FailRole n r).
Proof.
  apply (text_history_shape 1 (py "Ayşe") billing_dispute 6 6 run0
           (text_turns 6 1 1 (py "Ayşe") billing_dispute 6 [] run0).2
           sample_text_history).
  vm_compute. reflexivity.
Defined.

(* ===================================================================== *)
(** ** Scenario labels and turn instructions *)
(* ===================================================================== *)

Section LabelsAndInstructions.
Context {W : Type} `{World W}.

(** Whatever the function returns is made of keys of the weights. *)
Lemma scenario_distribution_keys cfg (w w' : W) labels :
  get_scenario_distribution cfg w = (Returned labels, w') ->
  Forall (fun s => s ∈ map fst (SCENARIO_WEIGHTS cfg)) labels.
Proof.
  destruct (SCENARIO_WEIGHTS cfg) as [|sw rest] eqn:Hw.
  - unfold get_scenario_distribution. rewrite Hw.
    cbn [weighted_copies flat_map length map].
    destruct (NUM_CONVERSATIONS cfg) as [|n]; [|discriminate].
    cbn [Nat.sub fill_remaining]. intros [= <- _]. constructor.
  - intros Hrun.
    destruct (scenario_distribution_returns cfg w) as (l & w1 & Hl & _ & Hk);
      [by rewrite Hw|].
    rewrite Hl in Hrun. injection Hrun as <- _. by rewrite Hw in Hk.
Qed.

(** X30: when every key of [SCENARIO_WEIGHTS] is a key of
    [TELECOM_SCENARIOS], as in the shipped configuration,
    [get_turn_instruction] returns an instruction (and does not raise
    [KeyError]) for every label [get_scenario_distribution] hands to the
    generators, at every turn and for either role. *)
Theorem scenario_labels_have_instructions cfg (w w' : W) labels s :
  (forall k, k ∈ map fst (SCENARIO_WEIGHTS cfg) ->
             k ∈ map fst TELECOM_SCENARIOS) ->
  get_scenario_distribution cfg w = (Returned labels, w') ->
  s ∈ labels ->
  forall who history total turn name,
    exists instruction,
      get_turn_instruction who history total turn s name
      = Returned instruction.
Proof.
  intros Hkeys Hrun Hs who history total turn name.
  pose proof (scenario_distribution_keys cfg w w' labels Hrun) as Hall.
  rewrite Forall_forall in Hall.
  destruct (scenario_info_of_known _ _ (Hkeys s (Hall s Hs))) as [info Hinfo].
  by eapply get_turn_instruction_known.
Qed.

End LabelsAndInstructions.

Lemma scenario_labels_have_instructions_witness :
  Forall (fun s =>
            forall who history total turn name,
              exists instruction,
                get_turn_instruction who history total turn s name
                = Returned instruction)
         sample_labels.
Proof.
  apply Forall_forall. intros s Hs.
  apply (scenario_labels_have_instructions repo_config sim0
           (get_scenario_distribution repo_config sim0).2 sample_labels s).
  - intros k Hk. vm_compute in Hk.
    repeat (apply elem_of_cons in Hk as [->|Hk];
            [apply (bool_decide_eq_true_1 _); vm_compute; reflexivity|]).
    by apply elem_of_nil in Hk.
  - vm_compute. reflexivity.
  - exact Hs.
Defined.
